(** * RideFlow: cross-tab chat synchronisation

    A shallow embedding of the chat subsystem of RideFlow:

    - [Storage]        the localStorage abstraction layer (storage module),
    - [ChatSync]       the driver-side channel   (shared/chat-sync.js),
    - [ChatSyncBridge] the customer-side channel (shared/chat-sync.js).

    The older copies of the two channels (driver-chat-sync.js and
    chat-sync-bridge.js) have the same reconcile, send and read functions
    without sender enrichment, history deletion and clear detection; the
    embedding follows the unified module.

    Conventions of the embedding.

    - JavaScript objects used as maps ([chats], [unread], the per-order
      in-memory tables) are finite maps with string keys.  Keys that name
      members inherited from [Object.prototype] are outside the model.
    - The text stored under a localStorage key is the empty string
      ([Blank]), other text that [JSON.parse] rejects ([Garbled]), or the
      [JSON.stringify] image of a value ([Encoded v]); parsing the image of
      [v] gives [v] back.  The empty string is falsy, so [raw || '{}'] and
      [raw ? ... : null] treat it as an absent key.  The text under
      ['rideflow-chats'] and ['rideflow-unread-messages'], when it parses,
      is the image of an object of the shape the modules write there: text
      that parses to another value ([null], a number, an array, an object
      of another shape) is outside the model.
    - The browser can fail: reading or writing localStorage throws when access
      is [denied], writing throws when the quota is exhausted ([full]).
    - [new Date().toISOString()] reads a clock that is part of the world, one
      reading per call; [_genId] draws its result from a supply of the world.
    - A registered listener is a recorder: calling it appends an event to the
      [trace] of the world.
    - [Storage.getCurrentUser], which the channels call for the sender's name
      and e-mail, is not among the sources; what it returns is the
      [currentUser] field of the world.
    - The two pages run in different tabs and share localStorage only; a
      world holds the store and the module variables of both pages, and every
      call runs to completion before the next one starts.
    - Timestamps are ISO-8601 strings; JavaScript's [>] on strings is the
      lexicographic order of [String.compare].
    - Unread counts are natural numbers. *)

From Stdlib Require Import String Ascii List Bool Arith Lia Sorted OrderedTypeEx.
From stdpp Require Import gmap strings list fin_maps.

Set Default Proof Using "Type".

(** ** Data model *)

Record Message := {
  msg_id          : string;
  msg_orderId     : option string;
  msg_sender      : string;
  msg_senderName  : option string;
  msg_senderEmail : option string;
  msg_type        : string;
  msg_content     : string;
  msg_imageUrl    : option string;
  msg_fileName    : option string;
  msg_timestamp   : string;
  msg_read        : bool;
}.

Record Chat := {
  chat_orderId         : string;
  chat_customerId      : option string;
  chat_driverId        : option string;
  chat_messages        : list Message;
  chat_createdAt       : string;
  chat_lastMessageTime : string;
}.

Record User := {
  user_name  : option string;
  user_email : option string;
}.

(** Values stored under keys other than the two chat keys. *)
#[warnings="-register-all"]
Inductive Json :=
  | JNull
  | JBool (b : bool)
  | JNum (n : Z)
  | JStr (s : string)
  | JArr (l : list Json)
  | JObj (fields : list (string * Json)).

(** ** The browser: localStorage, JSON, the clock *)

Inductive Key :=
  | CHATS                   (* 'rideflow-chats' *)
  | UNREAD                  (* 'rideflow-unread-messages' *)
  | OTHER (name : string).   (* any other key *)

Definition val (k : Key) : Type :=
  match k with
  | CHATS => gmap string Chat
  | UNREAD => gmap string nat
  | OTHER _ => Json
  end.

(** The literal ['{}'] read at a key. *)
Definition empty_object (k : Key) : val k :=
  match k with
  | CHATS => (∅ : gmap string Chat)
  | UNREAD => (∅ : gmap string nat)
  | OTHER _ => JObj []
  end.

(** The text under a key: the empty string, other text that [JSON.parse]
    rejects, or [JSON.stringify v]. *)
Inductive Text (V : Type) :=
  | Blank
  | Garbled
  | Encoded (v : V).
Arguments Blank {V}.
Arguments Garbled {V}.
Arguments Encoded {V} v.

Record LocalStorage := {
  chats_text  : option (Text (gmap string Chat));
  unread_text : option (Text (gmap string nat));
  other_text  : gmap string (Text Json);
  denied      : bool;
  full        : bool;
}.

Definition text_at (k : Key) (ls : LocalStorage) : option (Text (val k)) :=
  match k with
  | CHATS => chats_text ls
  | UNREAD => unread_text ls
  | OTHER name => other_text ls !! name
  end.

Definition put_text (k : Key) : Text (val k) -> LocalStorage -> LocalStorage :=
  match k with
  | CHATS => fun t ls =>
      {| chats_text := Some t; unread_text := unread_text ls;
         other_text := other_text ls; denied := denied ls; full := full ls |}
  | UNREAD => fun t ls =>
      {| chats_text := chats_text ls; unread_text := Some t;
         other_text := other_text ls; denied := denied ls; full := full ls |}
  | OTHER name => fun t ls =>
      {| chats_text := chats_text ls; unread_text := unread_text ls;
         other_text := <[name := t]> (other_text ls);
         denied := denied ls; full := full ls |}
  end.

Inductive Event :=
  | NewMessage (m : Message)          (* ChatSync's _onNewMessage(m) *)
  | DriverMessage (m : Message)       (* the bridge's _onDriverMessage(m) *)
  | ChatCleared (orderId : string).   (* the bridge's _onChatCleared(orderId) *)

(** Module-level variables of [ChatSync]; a listener field is [true] when the
    variable holds a function. *)
Record ChatSyncState := {
  _onNewMessage      : bool;
  _lastSeenTimestamp : gmap string string;
}.

(** Module-level variables of [ChatSyncBridge]. *)
Record BridgeState := {
  _activeOrderId   : option string;
  _onDriverMessage : bool;
  _onChatCleared   : bool;
  _lastSeenTs      : gmap string string;
  _seenCount       : gmap string nat;
  _userId          : string;
}.

Record World := {
  localStorage : LocalStorage;
  clock        : nat -> string;      (* successive readings of new Date() *)
  ticks        : nat;
  id_supply    : nat -> string;      (* successive results of _genId() *)
  draws        : nat;
  currentUser  : option User;        (* what Storage.getCurrentUser() returns *)
  sync         : ChatSyncState;
  bridge       : BridgeState;
  trace        : list Event;
}.

Definition set_localStorage (ls : LocalStorage) (w : World) : World :=
  {| localStorage := ls; clock := clock w; ticks := ticks w;
     id_supply := id_supply w; draws := draws w; currentUser := currentUser w;
     sync := sync w; bridge := bridge w; trace := trace w |}.

Definition set_sync (s : ChatSyncState) (w : World) : World :=
  {| localStorage := localStorage w; clock := clock w; ticks := ticks w;
     id_supply := id_supply w; draws := draws w; currentUser := currentUser w;
     sync := s; bridge := bridge w; trace := trace w |}.

Definition set_bridge (b : BridgeState) (w : World) : World :=
  {| localStorage := localStorage w; clock := clock w; ticks := ticks w;
     id_supply := id_supply w; draws := draws w; currentUser := currentUser w;
     sync := sync w; bridge := b; trace := trace w |}.

Definition emit (e : Event) (w : World) : World :=
  {| localStorage := localStorage w; clock := clock w; ticks := ticks w;
     id_supply := id_supply w; draws := draws w; currentUser := currentUser w;
     sync := sync w; bridge := bridge w; trace := trace w ++ [e] |}.

(** ** Computations: state and exceptions *)

Inductive Exn := SecurityError | QuotaExceededError | SyntaxError.

Inductive Result (A : Type) :=
  | Ok (a : A)
  | Throw (e : Exn).
Arguments Ok {A} a.
Arguments Throw {A} e.

Definition M (A : Type) : Type := World -> Result A * World.

Definition ret {A} (a : A) : M A := fun w => (Ok a, w).

Definition bind {A B} (c : M A) (k : A -> M B) : M B :=
  fun w =>
    match c w with
    | (Ok a, w') => k a w'
    | (Throw e, w') => (Throw e, w')
    end.

Definition throw {A} (e : Exn) : M A := fun w => (Throw e, w).

(** [try { c } catch (_) { h }] *)
Definition try_catch {A} (c : M A) (h : M A) : M A :=
  fun w =>
    match c w with
    | (Ok a, w') => (Ok a, w')
    | (Throw _, w') => h w'
    end.

Definition gets {A} (f : World -> A) : M A := fun w => (Ok (f w), w).
Definition modify (f : World -> World) : M unit := fun w => (Ok tt, f w).

Notation "x <- c ;; k" := (bind c (fun x => k))
  (at level 100, c at next level, right associativity).
Notation "c ;;; k" := (bind c (fun _ => k))
  (at level 100, right associativity).

Definition eval {A} (c : M A) (w : World) : Result A := fst (c w).
Definition exec {A} (c : M A) (w : World) : World := snd (c w).

(** [for (x of l) body(x)], as [Array.prototype.forEach] runs it. *)
Fixpoint forEach {A} (l : list A) (body : A -> M unit) : M unit :=
  match l with
  | [] => ret tt
  | x :: l' => body x ;;; forEach l' body
  end.

(** [localStorage.getItem(key)] *)
Definition getItem (k : Key) : M (option (Text (val k))) :=
  fun w =>
    if denied (localStorage w) then (Throw SecurityError, w)
    else (Ok (text_at k (localStorage w)), w).

(** [localStorage.setItem(key, text)] *)
Definition setItem (k : Key) (t : Text (val k)) : M unit :=
  fun w =>
    if denied (localStorage w) then (Throw SecurityError, w)
    else if full (localStorage w) then (Throw QuotaExceededError, w)
    else (Ok tt, set_localStorage (put_text k t (localStorage w)) w).

(** [JSON.parse(text)] *)
Definition JSON_parse {V} (t : Text V) : M V :=
  match t with
  | Blank => throw SyntaxError
  | Garbled => throw SyntaxError
  | Encoded v => ret v
  end.

(** [JSON.stringify(value)] *)
Definition JSON_stringify {V} (v : V) : M (Text V) := ret (Encoded v).

(** [raw || d] on what [getItem] returns: [null] and the empty string are
    falsy. *)
Definition or_text {V} (raw : option (Text V)) (d : Text V) : Text V :=
  match raw with
  | None => d
  | Some Blank => d
  | Some text => text
  end.

(** [new Date().toISOString()] *)
Definition Date_now : M string :=
  fun w =>
    (Ok (clock w (ticks w)),
     {| localStorage := localStorage w; clock := clock w; ticks := S (ticks w);
        id_supply := id_supply w; draws := draws w;
        currentUser := currentUser w; sync := sync w; bridge := bridge w;
        trace := trace w |}).

(** [new Date(0).toISOString()] *)
Definition epoch : string := "1970-01-01T00:00:00.000Z".

(** JavaScript's [a > b] on strings. *)
Definition str_gt (a b : string) : bool := String.ltb b a.

(** [s || d] for a possibly missing string: missing and empty are falsy. *)
Definition or_else (s : option string) (d : string) : string :=
  match s with
  | Some (String c r) => String c r
  | _ => d
  end.

(** [!s] for a possibly missing string. *)
Definition falsy (s : option string) : bool :=
  match s with
  | Some (String _ _) => false
  | _ => true
  end.

(** [(chats[orderId] && chats[orderId].messages) || []] *)
Definition messages_of (chats : gmap string Chat) (orderId : string)
  : list Message :=
  match chats !! orderId with
  | Some c => chat_messages c
  | None => []
  end.

(** [msgs.length ? msgs[msgs.length - 1].timestamp : new Date(0).toISOString()] *)
Definition last_timestamp (msgs : list Message) : string :=
  match last (A:=Message) msgs with
  | Some m => msg_timestamp m
  | None => epoch
  end.

Definition drop_text (k : Key) (ls : LocalStorage) : LocalStorage :=
  match k with
  | CHATS =>
      {| chats_text := None; unread_text := unread_text ls;
         other_text := other_text ls; denied := denied ls; full := full ls |}
  | UNREAD =>
      {| chats_text := chats_text ls; unread_text := None;
         other_text := other_text ls; denied := denied ls; full := full ls |}
  | OTHER name =>
      {| chats_text := chats_text ls; unread_text := unread_text ls;
         other_text := delete name (other_text ls);
         denied := denied ls; full := full ls |}
  end.

(** [localStorage.removeItem(key)] *)
Definition removeItem (k : Key) : M unit :=
  fun w =>
    if denied (localStorage w) then (Throw SecurityError, w)
    else (Ok tt, set_localStorage (drop_text k (localStorage w)) w).

(** ** Records written by the modules *)

(** [{ orderId, messages: [], createdAt: new Date()..., lastMessageTime: new Date()... }] *)
Definition new_chat (orderId : string) (customerId driverId : option string)
  : M Chat :=
  createdAt <- Date_now ;;
  lastMessageTime <- Date_now ;;
  ret {| chat_orderId := orderId; chat_customerId := customerId;
         chat_driverId := driverId; chat_messages := [];
         chat_createdAt := createdAt;
         chat_lastMessageTime := lastMessageTime |}.

(** [c.messages.push(msg); c.lastMessageTime = msg.timestamp] *)
Definition push_message (c : Chat) (msg : Message) : Chat :=
  {| chat_orderId := chat_orderId c; chat_customerId := chat_customerId c;
     chat_driverId := chat_driverId c;
     chat_messages := chat_messages c ++ [msg];
     chat_createdAt := chat_createdAt c;
     chat_lastMessageTime := msg_timestamp msg |}.

(** [c.messages = []; c.lastMessageTime = now] *)
Definition clear_messages (c : Chat) (now : string) : Chat :=
  {| chat_orderId := chat_orderId c; chat_customerId := chat_customerId c;
     chat_driverId := chat_driverId c;
     chat_messages := [];
     chat_createdAt := chat_createdAt c;
     chat_lastMessageTime := now |}.

(** [messages.some(m => m.id === id)] *)
Definition has_id (id : string) (msgs : list Message) : bool :=
  existsb (fun m => String.eqb (msg_id m) id) msgs.

(** ** The storage module *)

Module Storage.

Definition _safeGet (key : Key) : M (option (val key)) :=
  try_catch
    (raw <- getItem key ;;
     match raw with
     | None => ret None
     | Some Blank => ret None
     | Some text => v <- JSON_parse text ;; ret (Some v)
     end)
    (ret None).

Definition _safeSet (key : Key) (value : val key) : M bool :=
  try_catch
    (text <- JSON_stringify value ;;
     setItem key text ;;;
     ret true)
    (ret false).

Definition _safeRemove (key : Key) : M bool :=
  try_catch (removeItem key ;;; ret true) (ret false).

Definition getChats : M (gmap string Chat) :=
  r <- _safeGet CHATS ;;
  ret (default (empty_object CHATS) r).

Definition setChats (chats : gmap string Chat) : M bool :=
  _safeSet CHATS chats.

Definition getMessages (orderId : string) : M (list Message) :=
  chats <- getChats ;;
  ret (messages_of chats orderId).

Definition addMessage (orderId : string) (msg : Message) : M bool :=
  chats <- getChats ;;
  c <- match chats !! orderId with
       | Some c => ret c
       | None => new_chat orderId None None
       end ;;
  if has_id (msg_id msg) (chat_messages c)
  then ret false
  else setChats (<[orderId := push_message c msg]> chats).

Definition getUnread : M (gmap string nat) :=
  r <- _safeGet UNREAD ;;
  ret (default (empty_object UNREAD) r).

Definition setUnread (unread : gmap string nat) : M bool :=
  _safeSet UNREAD unread.

Definition incrementUnread (orderId : string) : M bool :=
  unread <- getUnread ;;
  setUnread (<[orderId := default 0 (unread !! orderId) + 1]> unread).

Definition clearUnread (orderId : string) : M bool :=
  unread <- getUnread ;;
  setUnread (delete orderId unread).

Definition getUnreadCount (orderId : string) : M nat :=
  unread <- getUnread ;;
  ret (default 0 (unread !! orderId)).

Definition get (key : Key) : M (option (val key)) := _safeGet key.

Definition set (key : Key) (value : val key) : M bool := _safeSet key value.

Definition remove (key : Key) : M bool := _safeRemove key.

End Storage.

(** ** The driver-side channel *)

Module ChatSync.

Definition _readChats : M (gmap string Chat) :=
  try_catch
    (raw <- getItem CHATS ;;
     JSON_parse (or_text raw (Encoded (empty_object CHATS))))
    (ret (empty_object CHATS)).

Definition _writeChats (chats : gmap string Chat) : M unit :=
  text <- JSON_stringify (chats : val CHATS) ;;
  setItem CHATS text.

Definition _readUnread : M (gmap string nat) :=
  try_catch
    (raw <- getItem UNREAD ;;
     JSON_parse (or_text raw (Encoded (empty_object UNREAD))))
    (ret (empty_object UNREAD)).

Definition _writeUnread (unread : gmap string nat) : M unit :=
  text <- JSON_stringify (unread : val UNREAD) ;;
  setItem UNREAD text.

Definition _notify (msg : Message) : M unit :=
  registered <- gets (fun w => _onNewMessage (sync w)) ;;
  if registered then modify (emit (NewMessage msg)) else ret tt.

Definition set_onNewMessage (f : bool) (s : ChatSyncState) : ChatSyncState :=
  {| _onNewMessage := f; _lastSeenTimestamp := _lastSeenTimestamp s |}.

Definition set_lastSeenTimestamp (orderId ts : string) (s : ChatSyncState)
  : ChatSyncState :=
  {| _onNewMessage := _onNewMessage s;
     _lastSeenTimestamp := <[orderId := ts]> (_lastSeenTimestamp s) |}.

(** The storage listener and the 1.5 s timer registered by [init] both call
    [_checkForNewMessages orderId]; a firing of either is a call of it. *)
Definition init (orderId : string) (onNewMessage : bool) : M unit :=
  modify (fun w => set_sync (set_onNewMessage onNewMessage (sync w)) w) ;;;
  chats <- _readChats ;;
  let msgs := messages_of chats orderId in
  modify (fun w =>
    set_sync (set_lastSeenTimestamp orderId (last_timestamp msgs) (sync w)) w).

Definition _checkForNewMessages (orderId : string) : M unit :=
  chats <- _readChats ;;
  let msgs := messages_of chats orderId in
  lastSeen <- gets (fun w =>
    or_else (_lastSeenTimestamp (sync w) !! orderId) epoch) ;;
  let newMsgs := List.filter (fun m => str_gt (msg_timestamp m) lastSeen) msgs in
  match last (A:=Message) newMsgs with
  | None => ret tt
  | Some newest =>
      modify (fun w =>
        set_sync
          (set_lastSeenTimestamp orderId (msg_timestamp newest) (sync w)) w) ;;;
      forEach newMsgs _notify
  end.

(** [{ senderName: msg.senderName || ..., senderEmail: msg.senderEmail || ...,
      ...msg }]: a field the message carries wins over the default. *)
Definition enrich (user : option User) (msg : Message) : Message :=
  {| msg_id := msg_id msg; msg_orderId := msg_orderId msg;
     msg_sender := msg_sender msg;
     msg_senderName :=
       match msg_senderName msg with
       | Some n => Some n
       | None => match user with Some u => user_name u | None => Some "Guest" end
       end;
     msg_senderEmail :=
       match msg_senderEmail msg with
       | Some e => Some e
       | None => match user with Some u => user_email u | None => Some "" end
       end;
     msg_type := msg_type msg; msg_content := msg_content msg;
     msg_imageUrl := msg_imageUrl msg; msg_fileName := msg_fileName msg;
     msg_timestamp := msg_timestamp msg; msg_read := msg_read msg |}.

Definition sendMessage (orderId : string) (msg : Message) : M unit :=
  user <- gets currentUser ;;
  let enriched := enrich user msg in
  chats <- _readChats ;;
  c <- match chats !! orderId with
       | Some c => ret c
       | None => new_chat orderId None None
       end ;;
  let c' := if has_id (msg_id enriched) (chat_messages c)
            then c
            else push_message c enriched in
  _writeChats (<[orderId := c']> chats) ;;;
  if negb (String.eqb (msg_sender enriched) "driver")
  then
    unread <- _readUnread ;;
    _writeUnread (<[orderId := default 0 (unread !! orderId) + 1]> unread)
  else ret tt.

Definition deleteChatHistory (orderId : string) : M unit :=
  chats <- _readChats ;;
  chats' <- match chats !! orderId with
            | Some c =>
                now <- Date_now ;;
                ret (<[orderId := clear_messages c now]> chats)
            | None => ret chats
            end ;;
  _writeChats chats'.

Definition getMessages (orderId : string) : M (list Message) :=
  chats <- _readChats ;;
  ret (messages_of chats orderId).

Definition markAllRead (orderId : string) : M unit :=
  unread <- _readUnread ;;
  _writeUnread (delete orderId unread).

Definition getUnreadCount (orderId : string) : M nat :=
  unread <- _readUnread ;;
  ret (default 0 (unread !! orderId)).

End ChatSync.

(** ** The customer-side channel *)

Module ChatSyncBridge.

Definition _readChats : M (gmap string Chat) :=
  try_catch
    (raw <- getItem CHATS ;;
     JSON_parse (or_text raw (Encoded (empty_object CHATS))))
    (ret (empty_object CHATS)).

Definition _writeChats (chats : gmap string Chat) : M unit :=
  text <- JSON_stringify (chats : val CHATS) ;;
  setItem CHATS text.

(** ['msg-' + Date.now() + '-' + Math.random()...]: the next id of the
    supply. *)
Definition _genId : M string :=
  fun w =>
    (Ok (id_supply w (draws w)),
     {| localStorage := localStorage w; clock := clock w; ticks := ticks w;
        id_supply := id_supply w; draws := S (draws w);
        currentUser := currentUser w; sync := sync w; bridge := bridge w;
        trace := trace w |}).

Definition set_lastSeenTs (orderId ts : string) (b : BridgeState)
  : BridgeState :=
  {| _activeOrderId := _activeOrderId b;
     _onDriverMessage := _onDriverMessage b;
     _onChatCleared := _onChatCleared b;
     _lastSeenTs := <[orderId := ts]> (_lastSeenTs b);
     _seenCount := _seenCount b; _userId := _userId b |}.

Definition set_seenCount (orderId : string) (n : nat) (b : BridgeState)
  : BridgeState :=
  {| _activeOrderId := _activeOrderId b;
     _onDriverMessage := _onDriverMessage b;
     _onChatCleared := _onChatCleared b;
     _lastSeenTs := _lastSeenTs b;
     _seenCount := <[orderId := n]> (_seenCount b); _userId := _userId b |}.

(** [m.sender === 'driver' && m.timestamp > lastTs] *)
Definition is_fresh (lastTs : string) (m : Message) : bool :=
  String.eqb (msg_sender m) "driver" && str_gt (msg_timestamp m) lastTs.

Definition _checkForDriverMessages (orderId : string) : M unit :=
  chats <- _readChats ;;
  let msgs := messages_of chats orderId in
  lastTs <- gets (fun w => or_else (_lastSeenTs (bridge w) !! orderId) epoch) ;;
  seenCount <- gets (fun w => default 0 (_seenCount (bridge w) !! orderId)) ;;
  if length msgs <? seenCount
  then
    modify (fun w => set_bridge (set_lastSeenTs orderId epoch (bridge w)) w) ;;;
    modify (fun w => set_bridge (set_seenCount orderId 0 (bridge w)) w) ;;;
    cleared <- gets (fun w => _onChatCleared (bridge w)) ;;
    if cleared then modify (emit (ChatCleared orderId)) else ret tt
  else
    modify (fun w =>
      set_bridge (set_seenCount orderId (length msgs) (bridge w)) w) ;;;
    let fresh := List.filter (is_fresh lastTs) msgs in
    match last (A:=Message) fresh with
    | None => ret tt
    | Some newest =>
        modify (fun w =>
          set_bridge (set_lastSeenTs orderId (msg_timestamp newest) (bridge w)) w) ;;;
        forEach fresh (fun msg =>
          registered <- gets (fun w => _onDriverMessage (bridge w)) ;;
          if registered then modify (emit (DriverMessage msg)) else ret tt)
    end.

(** As for the driver side, the storage listener and the timer registered
    here both call [_checkForDriverMessages orderId]. *)
Definition init (orderId : string) (userId : option string)
    (onDriverMsg onCleared : bool) : M unit :=
  modify (fun w =>
    set_bridge
      {| _activeOrderId := Some orderId;
         _onDriverMessage := onDriverMsg;
         _onChatCleared := onCleared;
         _lastSeenTs := _lastSeenTs (bridge w);
         _seenCount := _seenCount (bridge w);
         _userId := or_else userId "customer" |} w) ;;;
  chats <- _readChats ;;
  let msgs := messages_of chats orderId in
  modify (fun w =>
    set_bridge (set_lastSeenTs orderId (last_timestamp msgs) (bridge w)) w) ;;;
  modify (fun w =>
    set_bridge (set_seenCount orderId (length msgs) (bridge w)) w).

(** The property name [chats[_activeOrderId]] reads: [null] names the
    property ["null"]. *)
Definition property (orderId : option string) : string :=
  default "null" orderId.

Definition _persist (msg : Message) : M unit :=
  active <- gets (fun w => property (_activeOrderId (bridge w))) ;;
  userId <- gets (fun w => _userId (bridge w)) ;;
  chats <- _readChats ;;
  c <- match chats !! active with
       | Some c => ret c
       | None => new_chat active (Some userId) (Some "drv_001")
       end ;;
  _writeChats (<[active := push_message c msg]> chats) ;;;
  try_catch
    (raw <- getItem UNREAD ;;
     unread <- JSON_parse (or_text raw (Encoded (empty_object UNREAD))) ;;
     text <- JSON_stringify
       (<[active := default 0 (unread !! active) + 1]> unread : val UNREAD) ;;
     setItem UNREAD text)
    (ret tt).

(** [(user && user.name) ? user.name : (_userId || 'Customer')] *)
Definition senderName_of (user : option User) (userId : string) : string :=
  or_else (user ≫= user_name) (or_else (Some userId) "Customer").

(** [(user && user.email) ? user.email : ''] *)
Definition senderEmail_of (user : option User) : string :=
  or_else (user ≫= user_email) "".

Definition sendTextMessage (text : string) : M unit :=
  active <- gets (fun w => _activeOrderId (bridge w)) ;;
  if falsy active then ret tt
  else
    user <- gets currentUser ;;
    userId <- gets (fun w => _userId (bridge w)) ;;
    id <- _genId ;;
    timestamp <- Date_now ;;
    _persist
      {| msg_id := id; msg_orderId := active; msg_sender := "customer";
         msg_senderName := Some (senderName_of user userId);
         msg_senderEmail := Some (senderEmail_of user);
         msg_type := "text"; msg_content := text;
         msg_imageUrl := None; msg_fileName := None;
         msg_timestamp := timestamp; msg_read := false |}.

Definition sendImageMessage (dataUrl : string) (fileName : option string)
  : M unit :=
  active <- gets (fun w => _activeOrderId (bridge w)) ;;
  if falsy active then ret tt
  else
    user <- gets currentUser ;;
    userId <- gets (fun w => _userId (bridge w)) ;;
    id <- _genId ;;
    timestamp <- Date_now ;;
    _persist
      {| msg_id := id; msg_orderId := active; msg_sender := "customer";
         msg_senderName := Some (senderName_of user userId);
         msg_senderEmail := Some (senderEmail_of user);
         msg_type := "image"; msg_content := or_else fileName "image";
         msg_imageUrl := Some dataUrl;
         msg_fileName := Some (or_else fileName "image");
         msg_timestamp := timestamp; msg_read := false |}.

Definition getHistory : M (list Message) :=
  active <- gets (fun w => _activeOrderId (bridge w)) ;;
  if falsy active then ret []
  else
    chats <- _readChats ;;
    ret (messages_of chats (property active)).

(** [orderId] is the optional argument; [orderId || _activeOrderId]. *)
Definition deleteChatHistory (orderId : option string) : M unit :=
  active <- gets (fun w => _activeOrderId (bridge w)) ;;
  let target := if falsy orderId then active else orderId in
  if falsy target then ret tt
  else
    let target := property target in
    chats <- _readChats ;;
    chats' <- match chats !! target with
              | Some c =>
                  now <- Date_now ;;
                  ret (<[target := clear_messages c now]> chats)
              | None => ret chats
              end ;;
    _writeChats chats' ;;;
    now <- Date_now ;;
    modify (fun w => set_bridge (set_lastSeenTs target now (bridge w)) w) ;;;
    modify (fun w => set_bridge (set_seenCount target 0 (bridge w)) w).

End ChatSyncBridge.

(** ** Initial module state and views of the store *)

Definition ChatSync_initial : ChatSyncState :=
  {| _onNewMessage := false; _lastSeenTimestamp := ∅ |}.

Definition ChatSyncBridge_initial : BridgeState :=
  {| _activeOrderId := None; _onDriverMessage := false;
     _onChatCleared := false; _lastSeenTs := ∅; _seenCount := ∅;
     _userId := "customer" |}.

(** The store takes reads and writes. *)
Definition healthy (w : World) : Prop :=
  denied (localStorage w) = false /\ full (localStorage w) = false.

(** Reading a key fails: access is denied, or the key holds text, other than
    the empty string, that does not parse. *)
Definition read_fails (k : Key) (w : World) : bool :=
  denied (localStorage w) ||
  match text_at k (localStorage w) with
  | Some Garbled => true
  | _ => false
  end.

(** Writing fails: access is denied or the quota is exhausted. *)
Definition write_fails (w : World) : bool :=
  denied (localStorage w) || full (localStorage w).

(** The conversations a reader finds in the store. *)
Definition stored_chats (w : World) : gmap string Chat :=
  if denied (localStorage w) then ∅
  else match chats_text (localStorage w) with
       | Some (Encoded chats) => chats
       | _ => ∅
       end.

(** The unread counters a reader finds in the store. *)
Definition stored_unread (w : World) : gmap string nat :=
  if denied (localStorage w) then ∅
  else match unread_text (localStorage w) with
       | Some (Encoded unread) => unread
       | _ => ∅
       end.

Definition stored_messages (w : World) (orderId : string) : list Message :=
  messages_of (stored_chats w) orderId.

Definition unread_count (w : World) (orderId : string) : nat :=
  default 0 (stored_unread w !! orderId).

Definition write_chats (chats : gmap string Chat) (w : World) : World :=
  set_localStorage (put_text CHATS (Encoded chats) (localStorage w)) w.

Definition write_unread (unread : gmap string nat) (w : World) : World :=
  set_localStorage (put_text UNREAD (Encoded unread) (localStorage w)) w.

(** The world after one reading of the clock. *)
Definition tick (w : World) : World := exec Date_now w.

(** The world after one draw from the id supply. *)
Definition draw (w : World) : World := exec ChatSyncBridge._genId w.

(** What an append that skips a known id leaves in the sequence. *)
Definition append_once (msgs : list Message) (msg : Message) : list Message :=
  if has_id (msg_id msg) msgs then msgs else msgs ++ [msg].

(** How often an id occurs in a sequence. *)
Definition count_id (id : string) (msgs : list Message) : nat :=
  length (List.filter (fun m => String.eqb (msg_id m) id) msgs).

(** [msgs.forEach(msg => ChatSync.sendMessage(orderId, msg))] *)
Definition sendAll (orderId : string) (msgs : list Message) : M unit :=
  forEach msgs (ChatSync.sendMessage orderId).

(** What clearing the history of [orderId] at time [now] makes of the stored
    conversations [before]: the record of [orderId], when there is one, keeps
    every field but its messages, now empty, and its [lastMessageTime], now
    [now]; no record is created and no other record changes. *)
Definition history_cleared (before after : gmap string Chat)
    (orderId now : string) : Prop :=
  (forall c, before !! orderId = Some c ->
     exists c', after !! orderId = Some c' /\
       chat_messages c' = [] /\
       chat_lastMessageTime c' = now /\
       chat_orderId c' = chat_orderId c /\
       chat_createdAt c' = chat_createdAt c /\
       chat_customerId c' = chat_customerId c /\
       chat_driverId c' = chat_driverId c) /\
  (before !! orderId = None -> after !! orderId = None) /\
  (forall other, other <> orderId -> after !! other = before !! other).

(** ** Views of the two channels *)

Definition emit_all (es : list Event) (w : World) : World :=
  fold_left (fun w e => emit e w) es w.

(** The watermark of the driver-side channel:
    [_lastSeenTimestamp[orderId] || new Date(0).toISOString()]. *)
Definition ChatSync_watermark (w : World) (orderId : string) : string :=
  or_else (_lastSeenTimestamp (sync w) !! orderId) epoch.

(** The messages a pass of the driver-side channel selects. *)
Definition ChatSync_selected (w : World) (orderId : string) : list Message :=
  List.filter (fun m => str_gt (msg_timestamp m) (ChatSync_watermark w orderId))
    (stored_messages w orderId).

(** The watermark and the observed count of the customer-side channel. *)
Definition Bridge_watermark (w : World) (orderId : string) : string :=
  or_else (_lastSeenTs (bridge w) !! orderId) epoch.

Definition Bridge_seenCount (w : World) (orderId : string) : nat :=
  default 0 (_seenCount (bridge w) !! orderId).

(** The messages a pass of the customer-side channel selects. *)
Definition Bridge_selected (w : World) (orderId : string) : list Message :=
  List.filter (ChatSyncBridge.is_fresh (Bridge_watermark w orderId))
    (stored_messages w orderId).

(** The pass of the customer-side channel finds fewer messages than it has
    observed. *)
Definition clear_detected (w : World) (orderId : string) : bool :=
  length (stored_messages w orderId) <? Bridge_seenCount w orderId.

(** The greatest timestamp of a sequence (the empty string is the least
    string). *)
Definition max_timestamp (msgs : list Message) : string :=
  fold_right
    (fun m acc => if String.ltb acc (msg_timestamp m) then msg_timestamp m else acc)
    "" msgs.

(** No message of the sequence is later than its last one. *)
Definition newest_last (msgs : list Message) : bool :=
  match last (A:=Message) msgs with
  | Some newest =>
      forallb
        (fun m => negb (String.ltb (msg_timestamp newest) (msg_timestamp m)))
        msgs
  | None => true
  end.

(** Timestamps strictly increase along the sequence. *)
Definition ascending (msgs : list Message) : Prop :=
  Sorted (fun a b => String.ltb (msg_timestamp a) (msg_timestamp b) = true) msgs.

(** Timestamps never decrease along the sequence. *)
Definition nondecreasing (msgs : list Message) : Prop :=
  Sorted (fun a b => String.ltb (msg_timestamp b) (msg_timestamp a) = false) msgs.

(** ** Concrete worlds used in the examples below *)

Definition text_message (id sender timestamp : string) : Message :=
  {| msg_id := id; msg_orderId := Some "ORD-DEMO"; msg_sender := sender;
     msg_senderName := None; msg_senderEmail := None; msg_type := "text";
     msg_content := "On my way"; msg_imageUrl := None; msg_fileName := None;
     msg_timestamp := timestamp; msg_read := false |}.

Definition T1 : string := "2024-05-01T10:00:01.000Z".
Definition T2 : string := "2024-05-01T10:00:02.000Z".
Definition T3 : string := "2024-05-01T10:00:03.000Z".
Definition T9 : string := "2024-05-01T10:00:09.000Z".

Definition store_of (chats : option (Text (gmap string Chat)))
    (blocked exhausted : bool) : LocalStorage :=
  {| chats_text := chats; unread_text := None; other_text := ∅;
     denied := blocked; full := exhausted |}.

Definition demo_chat (msgs : list Message) : gmap string Chat :=
  {[ "ORD-DEMO" :=
       {| chat_orderId := "ORD-DEMO"; chat_customerId := None;
          chat_driverId := None; chat_messages := msgs;
          chat_createdAt := T1; chat_lastMessageTime := last_timestamp msgs |} ]}.

Definition world_of (ls : LocalStorage) (s : ChatSyncState) (b : BridgeState)
  : World :=
  {| localStorage := ls; clock := fun _ => T9; ticks := 0;
     id_supply := fun _ => "msg-1714557609000-k3x9q"; draws := 0;
     currentUser := None; sync := s; bridge := b; trace := [] |}.

(** A page that has just loaded: empty store, no channel initialised. *)
Definition fresh_world : World :=
  world_of (store_of None false false) ChatSync_initial ChatSyncBridge_initial.

(** The quota is exhausted. *)
Definition full_world : World :=
  world_of (store_of None false true) ChatSync_initial ChatSyncBridge_initial.

(** One stored driver message and a customer page that has not called
    [init]. *)
Definition uninitialised_world : World :=
  world_of (store_of (Some (Encoded (demo_chat [text_message "m1" "driver" T1])))
              false false)
    ChatSync_initial ChatSyncBridge_initial.

(** The driver page initialises its channel on an empty conversation and
    then sends a message of its own. *)
Definition driver_sends : M unit :=
  ChatSync.init "ORD-DEMO" true ;;;
  ChatSync.sendMessage "ORD-DEMO" (text_message "d1" "driver" T1).

(** The customer page has been delivered two driver messages; the driver then
    deletes the history and sends the first message again. *)
Definition resend_after_clear : M unit :=
  ChatSyncBridge.init "ORD-DEMO" (Some "Ann") true true ;;;
  ChatSync.sendMessage "ORD-DEMO" (text_message "init-1" "driver" T1) ;;;
  ChatSync.sendMessage "ORD-DEMO" (text_message "init-2" "driver" T2) ;;;
  ChatSyncBridge._checkForDriverMessages "ORD-DEMO" ;;;
  ChatSync.deleteChatHistory "ORD-DEMO" ;;;
  ChatSync.sendMessage "ORD-DEMO" (text_message "init-1" "driver" T1).

(** The driver page initialises its channel on an empty conversation; two
    customer messages are then stored, the later one first. *)
Definition out_of_order : M unit :=
  ChatSync.init "ORD-DEMO" true ;;;
  ChatSync.sendMessage "ORD-DEMO" (text_message "c1" "customer" T3) ;;;
  ChatSync.sendMessage "ORD-DEMO" (text_message "c2" "customer" T2).

(** Both pages listen and the driver sends a message. *)
Definition both_listening : M unit :=
  ChatSyncBridge.init "ORD-DEMO" (Some "Ann") true true ;;;
  driver_sends.

(** Both pages listen and the driver sends two messages, the second later
    than the first. *)
Definition two_driver_messages : M unit :=
  ChatSyncBridge.init "ORD-DEMO" (Some "Ann") true true ;;;
  ChatSync.init "ORD-DEMO" true ;;;
  ChatSync.sendMessage "ORD-DEMO" (text_message "d1" "driver" T1) ;;;
  ChatSync.sendMessage "ORD-DEMO" (text_message "d2" "driver" T2).

(** ** The chat interface of the API module *)

(** The [messageData] argument of [API.Chat.sendMessage]: a message whose
    [id], [timestamp] and [read] fields may be missing. *)
Record MessageData := {
  data_id          : option string;
  data_sender      : string;
  data_senderName  : option string;
  data_senderEmail : option string;
  data_type        : string;
  data_content     : string;
  data_imageUrl    : option string;
  data_fileName    : option string;
  data_timestamp   : option string;
  data_read        : option bool;
}.

Module APIChat.

(** [messageData.id || 'msg-' + Date.now() + '-' + Math.random()...]: the
    supply is drawn from only when the message carries no id. *)
Definition id_of (messageData : MessageData) : M string :=
  if falsy (data_id messageData) then ChatSyncBridge._genId
  else ret (or_else (data_id messageData) "").

(** [messageData.timestamp || new Date().toISOString()] *)
Definition timestamp_of (messageData : MessageData) : M string :=
  if falsy (data_timestamp messageData) then Date_now
  else ret (or_else (data_timestamp messageData) "").

(** [sendMessage] as the first [Chat] object of [api.js] defines it, on the
    functions of the storage module alone:
    [{ ...messageData, id, orderId, timestamp: ..., read: ... }]. *)
Definition sendMessage (orderId : string) (messageData : MessageData)
  : M string :=
  id <- id_of messageData ;;
  timestamp <- timestamp_of messageData ;;
  let msg :=
    {| msg_id := id; msg_orderId := Some orderId;
       msg_sender := data_sender messageData;
       msg_senderName := data_senderName messageData;
       msg_senderEmail := data_senderEmail messageData;
       msg_type := data_type messageData;
       msg_content := data_content messageData;
       msg_imageUrl := data_imageUrl messageData;
       msg_fileName := data_fileName messageData;
       msg_timestamp := timestamp;
       msg_read := default false (data_read messageData) |} in
  Storage.addMessage orderId msg ;;;
  (if String.eqb (data_sender messageData) "customer"
   then Storage.incrementUnread orderId ;;; ret tt
   else ret tt) ;;;
  ret id.

(** [deleteChatHistory] of the second [Chat] object of [api.js]; the other
    three functions are the same in both. *)
Definition deleteChatHistory (orderId : string) : M unit :=
  chats <- Storage.getChats ;;
  match chats !! orderId with
  | Some c =>
      now <- Date_now ;;
      Storage.setChats (<[orderId := clear_messages c now]> chats) ;;;
      ret tt
  | None => ret tt
  end.

Definition getMessages (orderId : string) : M (list Message) :=
  Storage.getMessages orderId.

Definition markAllRead (orderId : string) : M unit :=
  Storage.clearUnread orderId ;;; ret tt.

Definition getUnreadCount (orderId : string) : M nat :=
  Storage.getUnreadCount orderId.

End APIChat.

(** ** Escaping text for the page *)

(** [s.replace(/c/g, by)] for a one-character pattern. *)
Fixpoint replace_char (c : ascii) (by_ : string) (s : string) : string :=
  match s with
  | EmptyString => EmptyString
  | String a rest =>
      if Ascii.eqb a c then by_ +:+ replace_char c by_ rest
      else String a (replace_char c by_ rest)
  end.

(** The double quote character. *)
Definition dquote : ascii := "034"%char.

Definition escHtml (s : string) : string :=
  replace_char "'" "&#39;"
    (replace_char dquote "&quot;"
       (replace_char ">" "&gt;"
          (replace_char "<" "&lt;"
             (replace_char "&" "&amp;" s)))).

(** The characters that open or close markup or an attribute value. *)
Definition markup_char (c : ascii) : bool :=
  Ascii.eqb c "<" || Ascii.eqb c ">" || Ascii.eqb c dquote || Ascii.eqb c "'".

(** [escapeHtml] of the driver dashboard: the single quote is left as it
    is. *)
Definition escapeHtml (text : string) : string :=
  replace_char dquote "&quot;"
    (replace_char ">" "&gt;"
       (replace_char "<" "&lt;"
          (replace_char "&" "&amp;" text))).

(** ** Several polls *)

(** Batches of messages are sent, with one pass of the driver-side channel
    after each batch. *)
Definition poll_rounds (orderId : string) (batches : list (list Message))
  : M unit :=
  forEach batches (fun batch =>
    sendAll orderId batch ;;;
    ChatSync._checkForNewMessages orderId).

(** ** A store that refuses writes *)

(** The exception [setItem] raises on a store that refuses writes. *)
Definition write_error (w : World) : Exn :=
  if denied (localStorage w) then SecurityError else QuotaExceededError.

(** What a world keeps when only the clock and the id supply have moved. *)
Definition same_store_and_channels (w w' : World) : Prop :=
  localStorage w' = localStorage w /\ sync w' = sync w /\
  bridge w' = bridge w /\ trace w' = trace w.

(** ** One page writes, the other polls *)

(** The message [sendTextMessage text] builds for the active order. *)
Definition customer_text (w : World) (orderId text : string) : Message :=
  {| msg_id := id_supply w (draws w); msg_orderId := Some orderId;
     msg_sender := "customer";
     msg_senderName :=
       Some (ChatSyncBridge.senderName_of (currentUser w) (_userId (bridge w)));
     msg_senderEmail := Some (ChatSyncBridge.senderEmail_of (currentUser w));
     msg_type := "text"; msg_content := text;
     msg_imageUrl := None; msg_fileName := None;
     msg_timestamp := clock w (ticks w); msg_read := false |}.

(** The stored conversations and counters are damaged. *)
Definition garbled_world : World :=
  world_of
    {| chats_text := Some Garbled; unread_text := Some Garbled;
       other_text := ∅; denied := false; full := false |}
    ChatSync_initial ChatSyncBridge_initial.

(** ** The basic versions of the two channels *)

(** [ChatSync] as [driver-chat-sync.js] and the first part of
    [shared/chat-sync.js] define it.  Its helpers are those of the module
    above word for word; its [sendMessage] stores the message as it is
    given. *)
Module ChatSync_basic.

Definition sendMessage (orderId : string) (msg : Message) : M unit :=
  chats <- ChatSync._readChats ;;
  c <- match chats !! orderId with
       | Some c => ret c
       | None => new_chat orderId None None
       end ;;
  let c' := if has_id (msg_id msg) (chat_messages c)
            then c
            else push_message c msg in
  ChatSync._writeChats (<[orderId := c']> chats) ;;;
  if negb (String.eqb (msg_sender msg) "driver")
  then
    unread <- ChatSync._readUnread ;;
    ChatSync._writeUnread (<[orderId := default 0 (unread !! orderId) + 1]> unread)
  else ret tt.

End ChatSync_basic.

(** [ChatSyncBridge] as [chat-sync-bridge.js] and the first part of
    [shared/chat-sync.js] define it: it keeps no observed count and has no
    clear listener. *)
Module ChatSyncBridge_basic.

Definition _checkForDriverMessages (orderId : string) : M unit :=
  chats <- ChatSyncBridge._readChats ;;
  let msgs := messages_of chats orderId in
  lastTs <- gets (fun w => or_else (_lastSeenTs (bridge w) !! orderId) epoch) ;;
  let fresh := List.filter (ChatSyncBridge.is_fresh lastTs) msgs in
  match last (A:=Message) fresh with
  | None => ret tt
  | Some newest =>
      modify (fun w =>
        set_bridge
          (ChatSyncBridge.set_lastSeenTs orderId (msg_timestamp newest) (bridge w))
          w) ;;;
      forEach fresh (fun msg =>
        registered <- gets (fun w => _onDriverMessage (bridge w)) ;;
        if registered then modify (emit (DriverMessage msg)) else ret tt)
  end.

End ChatSyncBridge_basic.

(** The stored counters are the empty string. *)
Definition blank_counters_world : World :=
  world_of
    {| chats_text := None; unread_text := Some Blank;
       other_text := ∅; denied := false; full := false |}
    ChatSync_initial ChatSyncBridge_initial.

(** * Properties *)

(** ** How the primitive reads and writes run *)

Section Primitives.

Variable w : World.

Lemma ChatSync_readChats_run :
  ChatSync._readChats w = (Ok (stored_chats w), w).
Proof.
  unfold ChatSync._readChats, try_catch, bind, getItem, stored_chats.
  destruct (denied (localStorage w)); [reflexivity|].
  simpl. destruct (chats_text (localStorage w)) as [[| |c]|]; reflexivity.
Qed.

Lemma Bridge_readChats_run :
  ChatSyncBridge._readChats w = (Ok (stored_chats w), w).
Proof. exact ChatSync_readChats_run. Qed.

Lemma ChatSync_readUnread_run :
  ChatSync._readUnread w = (Ok (stored_unread w), w).
Proof.
  unfold ChatSync._readUnread, try_catch, bind, getItem, stored_unread.
  destruct (denied (localStorage w)); [reflexivity|].
  simpl. destruct (unread_text (localStorage w)) as [[| |c]|]; reflexivity.
Qed.

Lemma Storage_getChats_run :
  Storage.getChats w = (Ok (stored_chats w), w).
Proof.
  unfold Storage.getChats, Storage._safeGet, try_catch, bind, getItem,
    stored_chats.
  destruct (denied (localStorage w)); [reflexivity|].
  simpl. destruct (chats_text (localStorage w)) as [[| |c]|]; reflexivity.
Qed.

Lemma Storage_getUnread_run :
  Storage.getUnread w = (Ok (stored_unread w), w).
Proof.
  unfold Storage.getUnread, Storage._safeGet, try_catch, bind, getItem,
    stored_unread.
  destruct (denied (localStorage w)); [reflexivity|].
  simpl. destruct (unread_text (localStorage w)) as [[| |c]|]; reflexivity.
Qed.

Lemma ChatSync_writeChats_run (chats : gmap string Chat) :
  ChatSync._writeChats chats w =
    if denied (localStorage w) then (Throw SecurityError, w)
    else if full (localStorage w) then (Throw QuotaExceededError, w)
    else (Ok tt, write_chats chats w).
Proof. reflexivity. Qed.

Lemma ChatSync_writeUnread_run (unread : gmap string nat) :
  ChatSync._writeUnread unread w =
    if denied (localStorage w) then (Throw SecurityError, w)
    else if full (localStorage w) then (Throw QuotaExceededError, w)
    else (Ok tt, write_unread unread w).
Proof. reflexivity. Qed.

Lemma safeGet_run (key : Key) :
  Storage._safeGet key w =
    (Ok (if denied (localStorage w) then None
         else match text_at key (localStorage w) with
              | Some (Encoded v) => Some v
              | _ => None
              end), w).
Proof.
  unfold Storage._safeGet, try_catch, bind, getItem.
  destruct (denied (localStorage w)); [reflexivity|].
  simpl. destruct (text_at key (localStorage w)) as [[| |v]|]; reflexivity.
Qed.

Lemma safeSet_run (key : Key) (value : val key) :
  Storage._safeSet key value w =
    if write_fails w then (Ok false, w)
    else (Ok true,
          set_localStorage (put_text key (Encoded value) (localStorage w)) w).
Proof.
  unfold Storage._safeSet, try_catch, bind, setItem, JSON_stringify, ret,
    write_fails.
  destruct (denied (localStorage w)); [reflexivity|].
  destruct (full (localStorage w)); reflexivity.
Qed.

End Primitives.

(** ** Views of a world after a step *)

Create HintDb healthy.
Create Rewrite HintDb world.
Create Rewrite HintDb step.

Lemma healthy_tick w : healthy w -> healthy (tick w).
Proof. intros H. exact H. Qed.
Lemma healthy_draw w : healthy w -> healthy (draw w).
Proof. intros H. exact H. Qed.
Lemma healthy_write_chats chats w : healthy w -> healthy (write_chats chats w).
Proof. intros [Hd Hf]. split; assumption. Qed.
Lemma healthy_write_unread unread w : healthy w -> healthy (write_unread unread w).
Proof. intros [Hd Hf]. split; assumption. Qed.
Lemma healthy_set_sync s w : healthy w -> healthy (set_sync s w).
Proof. intros H. exact H. Qed.
Lemma healthy_set_bridge b w : healthy w -> healthy (set_bridge b w).
Proof. intros H. exact H. Qed.
Lemma healthy_emit e w : healthy w -> healthy (emit e w).
Proof. intros H. exact H. Qed.

#[export] Hint Resolve healthy_tick healthy_draw healthy_write_chats healthy_write_unread
  healthy_set_sync healthy_set_bridge healthy_emit : healthy.

Lemma stored_chats_write_chats chats w :
  healthy w -> stored_chats (write_chats chats w) = chats.
Proof. intros [Hd Hf]. unfold stored_chats. simpl. rewrite Hd. reflexivity. Qed.
Lemma stored_chats_write_unread unread w :
  stored_chats (write_unread unread w) = stored_chats w.
Proof. reflexivity. Qed.
Lemma stored_chats_tick w : stored_chats (tick w) = stored_chats w.
Proof. reflexivity. Qed.
Lemma stored_chats_draw w : stored_chats (draw w) = stored_chats w.
Proof. reflexivity. Qed.
Lemma stored_unread_draw w : stored_unread (draw w) = stored_unread w.
Proof. reflexivity. Qed.
Lemma stored_chats_set_sync s w : stored_chats (set_sync s w) = stored_chats w.
Proof. reflexivity. Qed.
Lemma stored_chats_set_bridge b w : stored_chats (set_bridge b w) = stored_chats w.
Proof. reflexivity. Qed.
Lemma stored_chats_emit e w : stored_chats (emit e w) = stored_chats w.
Proof. reflexivity. Qed.

Lemma stored_unread_write_unread unread w :
  healthy w -> stored_unread (write_unread unread w) = unread.
Proof. intros [Hd Hf]. unfold stored_unread. simpl. rewrite Hd. reflexivity. Qed.
Lemma stored_unread_write_chats chats w :
  stored_unread (write_chats chats w) = stored_unread w.
Proof. reflexivity. Qed.
Lemma stored_unread_tick w : stored_unread (tick w) = stored_unread w.
Proof. reflexivity. Qed.
Lemma stored_unread_set_sync s w : stored_unread (set_sync s w) = stored_unread w.
Proof. reflexivity. Qed.
Lemma stored_unread_set_bridge b w :
  stored_unread (set_bridge b w) = stored_unread w.
Proof. reflexivity. Qed.
Lemma stored_unread_emit e w : stored_unread (emit e w) = stored_unread w.
Proof. reflexivity. Qed.

#[export] Hint Rewrite stored_chats_write_chats stored_unread_write_unread
  using (auto with healthy) : world.
#[export] Hint Rewrite stored_chats_draw stored_unread_draw
  stored_chats_write_unread stored_chats_tick
  stored_chats_set_sync stored_chats_set_bridge stored_chats_emit
  stored_unread_write_chats stored_unread_tick stored_unread_set_sync
  stored_unread_set_bridge stored_unread_emit : world.

(** ** Stepping through a computation *)

Lemma bind_ret {A B} (a : A) (k : A -> M B) w : bind (ret a) k w = k a w.
Proof. reflexivity. Qed.
Lemma bind_gets {A B} (f : World -> A) (k : A -> M B) w :
  bind (gets f) k w = k (f w) w.
Proof. reflexivity. Qed.
Lemma bind_modify {B} (f : World -> World) (k : unit -> M B) w :
  bind (modify f) k w = k tt (f w).
Proof. reflexivity. Qed.
Lemma bind_bind {A B C} (c : M A) (f : A -> M B) (k : B -> M C) w :
  bind (bind c f) k w = bind c (fun a => bind (f a) k) w.
Proof. unfold bind. destruct (c w) as [[a|e] w']; reflexivity. Qed.
Lemma bind_Date_now {B} (k : string -> M B) w :
  bind Date_now k w = k (clock w (ticks w)) (tick w).
Proof. reflexivity. Qed.
Lemma bind_genId {B} (k : string -> M B) w :
  bind ChatSyncBridge._genId k w = k (id_supply w (draws w)) (draw w).
Proof. reflexivity. Qed.
Lemma bind_new_chat {B} orderId customerId driverId (k : Chat -> M B) w :
  bind (new_chat orderId customerId driverId) k w =
    k {| chat_orderId := orderId; chat_customerId := customerId;
         chat_driverId := driverId; chat_messages := [];
         chat_createdAt := clock w (ticks w);
         chat_lastMessageTime := clock w (S (ticks w)) |} (tick (tick w)).
Proof. reflexivity. Qed.
Lemma bind_ChatSync_readChats {B} (k : gmap string Chat -> M B) w :
  bind ChatSync._readChats k w = k (stored_chats w) w.
Proof. unfold bind. rewrite ChatSync_readChats_run. reflexivity. Qed.
Lemma bind_Bridge_readChats {B} (k : gmap string Chat -> M B) w :
  bind ChatSyncBridge._readChats k w = k (stored_chats w) w.
Proof. unfold bind. rewrite Bridge_readChats_run. reflexivity. Qed.
Lemma bind_ChatSync_readUnread {B} (k : gmap string nat -> M B) w :
  bind ChatSync._readUnread k w = k (stored_unread w) w.
Proof. unfold bind. rewrite ChatSync_readUnread_run. reflexivity. Qed.
Lemma bind_Storage_getChats {B} (k : gmap string Chat -> M B) w :
  bind Storage.getChats k w = k (stored_chats w) w.
Proof. unfold bind. rewrite Storage_getChats_run. reflexivity. Qed.
Lemma bind_Storage_getUnread {B} (k : gmap string nat -> M B) w :
  bind Storage.getUnread k w = k (stored_unread w) w.
Proof. unfold bind. rewrite Storage_getUnread_run. reflexivity. Qed.

Lemma ChatSync_writeChats_healthy chats w :
  healthy w -> ChatSync._writeChats chats w = (Ok tt, write_chats chats w).
Proof. intros [Hd Hf]. rewrite ChatSync_writeChats_run, Hd, Hf. reflexivity. Qed.
Lemma ChatSync_writeUnread_healthy unread w :
  healthy w -> ChatSync._writeUnread unread w = (Ok tt, write_unread unread w).
Proof. intros [Hd Hf]. rewrite ChatSync_writeUnread_run, Hd, Hf. reflexivity. Qed.
Lemma Bridge_writeChats_healthy chats w :
  healthy w -> ChatSyncBridge._writeChats chats w = (Ok tt, write_chats chats w).
Proof. exact (ChatSync_writeChats_healthy chats w). Qed.
Lemma bind_ChatSync_writeChats {B} chats (k : unit -> M B) w :
  healthy w -> bind (ChatSync._writeChats chats) k w = k tt (write_chats chats w).
Proof. intros H. unfold bind. rewrite ChatSync_writeChats_healthy by exact H. reflexivity. Qed.
Lemma bind_Bridge_writeChats {B} chats (k : unit -> M B) w :
  healthy w ->
  bind (ChatSyncBridge._writeChats chats) k w = k tt (write_chats chats w).
Proof. exact (bind_ChatSync_writeChats chats k w). Qed.
Lemma Storage_setChats_healthy chats w :
  healthy w -> Storage.setChats chats w = (Ok true, write_chats chats w).
Proof.
  intros [Hd Hf]. unfold Storage.setChats. rewrite safeSet_run.
  unfold write_fails. rewrite Hd, Hf. reflexivity.
Qed.
Lemma Storage_setUnread_healthy unread w :
  healthy w -> Storage.setUnread unread w = (Ok true, write_unread unread w).
Proof.
  intros [Hd Hf]. unfold Storage.setUnread. rewrite safeSet_run.
  unfold write_fails. rewrite Hd, Hf. reflexivity.
Qed.

#[export] Hint Rewrite @bind_bind @bind_ret @bind_gets @bind_modify @bind_Date_now
  @bind_genId
  @bind_new_chat @bind_ChatSync_readChats @bind_Bridge_readChats
  @bind_ChatSync_readUnread @bind_Storage_getChats @bind_Storage_getUnread
  : step.
#[export] Hint Rewrite @bind_ChatSync_writeChats @bind_Bridge_writeChats
  ChatSync_writeChats_healthy ChatSync_writeUnread_healthy
  Bridge_writeChats_healthy Storage_setChats_healthy Storage_setUnread_healthy
  using (auto with healthy) : step.

Ltac step := autorewrite with step.

Ltac splits := repeat match goal with |- _ /\ _ => split end.

(** ** What the operations do to a healthy store *)

Lemma ChatSync_sendMessage_effect w orderId msg :
  healthy w ->
  let m := ChatSync.enrich (currentUser w) msg in
  let w' := exec (ChatSync.sendMessage orderId msg) w in
  eval (ChatSync.sendMessage orderId msg) w = Ok tt /\
  healthy w' /\
  stored_messages w' orderId = append_once (stored_messages w orderId) m /\
  (forall o, o <> orderId -> stored_chats w' !! o = stored_chats w !! o) /\
  stored_unread w' =
    (if String.eqb (msg_sender msg) "driver" then stored_unread w
     else <[orderId := unread_count w orderId + 1]> (stored_unread w)) /\
  sync w' = sync w /\ bridge w' = bridge w /\ trace w' = trace w /\
  currentUser w' = currentUser w.
Proof.
  intros Hw m w'. subst m w'.
  unfold eval, exec, ChatSync.sendMessage. step.
  change (msg_sender (ChatSync.enrich (currentUser w) msg)) with (msg_sender msg).
  unfold stored_messages, unread_count, messages_of, append_once.
  destruct (stored_chats w !! orderId) as [c|] eqn:Hc;
    destruct (String.eqb (msg_sender msg) "driver") eqn:Hs; simpl negb; cbv iota;
    step; simpl fst; simpl snd; autorewrite with world.
  all: splits; auto with healthy; try reflexivity.
  all: try (intros o Ho; rewrite lookup_insert_ne by congruence; reflexivity).
  all: rewrite lookup_insert_eq; simpl; try reflexivity.
  all: destruct (has_id _ _); reflexivity.
Qed.

Lemma Storage_addMessage_effect w orderId msg :
  healthy w ->
  let w' := exec (Storage.addMessage orderId msg) w in
  eval (Storage.addMessage orderId msg) w
    = Ok (negb (has_id (msg_id msg) (stored_messages w orderId))) /\
  healthy w' /\
  stored_messages w' orderId = append_once (stored_messages w orderId) msg /\
  (forall o, o <> orderId -> stored_chats w' !! o = stored_chats w !! o) /\
  stored_unread w' = stored_unread w.
Proof.
  intros Hw w'. subst w'.
  unfold eval, exec, Storage.addMessage. step.
  unfold stored_messages, messages_of, append_once.
  destruct (stored_chats w !! orderId) as [c|] eqn:Hc; step;
    [destruct (has_id (msg_id msg) (chat_messages c)) eqn:Hid
    |cbn [chat_messages has_id existsb]; cbv iota]; step;
    simpl fst; simpl snd; autorewrite with world.
  all: splits; auto with healthy; try reflexivity.
  all: try (intros o Ho; rewrite ?lookup_insert_ne by congruence; reflexivity).
  all: rewrite ?lookup_insert_eq, ?Hc; reflexivity.
Qed.

Lemma history_cleared_insert chats orderId c now :
  chats !! orderId = Some c ->
  history_cleared chats (<[orderId := clear_messages c now]> chats) orderId now.
Proof.
  intros Hc. unfold history_cleared. splits.
  - intros c0 Hc0. exists (clear_messages c now).
    rewrite lookup_insert_eq. assert (c0 = c) by congruence. subst c0.
    splits; reflexivity.
  - congruence.
  - intros other Hne. rewrite lookup_insert_ne by congruence. reflexivity.
Qed.

Lemma history_cleared_absent chats orderId now :
  chats !! orderId = None -> history_cleared chats chats orderId now.
Proof. intros Hc. unfold history_cleared. splits; [congruence|trivial|reflexivity]. Qed.

Lemma ChatSync_deleteChatHistory_effect w orderId :
  healthy w ->
  let w' := exec (ChatSync.deleteChatHistory orderId) w in
  eval (ChatSync.deleteChatHistory orderId) w = Ok tt /\
  healthy w' /\
  history_cleared (stored_chats w) (stored_chats w') orderId
    (clock w (ticks w)) /\
  stored_unread w' = stored_unread w /\
  sync w' = sync w /\ bridge w' = bridge w /\ trace w' = trace w.
Proof.
  intros Hw w'. subst w'.
  unfold eval, exec, ChatSync.deleteChatHistory. step.
  destruct (stored_chats w !! orderId) as [c|] eqn:Hc; step;
    simpl fst; simpl snd; autorewrite with world.
  all: splits; auto with healthy; try reflexivity.
  - apply history_cleared_insert, Hc.
  - apply history_cleared_absent, Hc.
Qed.

Lemma Bridge_deleteChatHistory_effect w orderId :
  healthy w ->
  orderId <> "" ->
  let w' := exec (ChatSyncBridge.deleteChatHistory (Some orderId)) w in
  eval (ChatSyncBridge.deleteChatHistory (Some orderId)) w = Ok tt /\
  healthy w' /\
  history_cleared (stored_chats w) (stored_chats w') orderId
    (clock w (ticks w)) /\
  stored_unread w' = stored_unread w /\
  _seenCount (bridge w') !! orderId = Some 0 /\
  sync w' = sync w /\ trace w' = trace w.
Proof.
  intros Hw Hne w'. subst w'.
  assert (Hfalsy : falsy (Some orderId) = false)
    by (destruct orderId; [congruence|reflexivity]).
  unfold eval, exec, ChatSyncBridge.deleteChatHistory. step.
  rewrite Hfalsy. cbv iota. rewrite Hfalsy. simpl ChatSyncBridge.property. step.
  destruct (stored_chats w !! orderId) as [c|] eqn:Hc; step;
    simpl fst; simpl snd; autorewrite with world.
  all: splits; auto with healthy; try reflexivity.
  all: try (simpl; apply lookup_insert_eq).
  - apply history_cleared_insert, Hc.
  - apply history_cleared_absent, Hc.
Qed.

Lemma bind_eval {A B} (c : M A) (k : A -> M B) w a :
  eval c w = Ok a -> bind c k w = k a (exec c w).
Proof.
  unfold eval, exec, bind. destruct (c w) as [r w']. simpl.
  intros ->. reflexivity.
Qed.

(** ** Failures of the store *)

(** C9, counterexample: with the quota exhausted, [_writeChats] of the channel
    does not return [false]; the exception of [setItem] reaches its caller. *)
Lemma writeChats_raises_when_full :
  write_fails full_world = true /\
  ChatSync._writeChats ∅ full_world = (Throw QuotaExceededError, full_world) /\
  ~ (exists r, eval (ChatSync._writeChats ∅) full_world = Ok r).
Proof.
  split; [reflexivity|]. split; [reflexivity|].
  intros [r Hr]. vm_compute in Hr. discriminate.
Qed.

(** C9, as amended: the storage module never raises.  [get] always returns,
    with [null] when the read fails; [getChats] and [getUnread] then return
    the empty map; [set] always returns, [false] with the store untouched when
    the write fails and [true] with the value readable afterwards when it
    succeeds.  The channel's own [_readChats] likewise returns the empty map
    on failure, while its [_writeChats] has no guard and raises the failure of
    the write to its caller. *)
Theorem storage_module_never_raises (key : Key) (value : val key) (w : World) :
  (exists r, Storage.get key w = (Ok r, w) /\
             (read_fails key w = true -> r = None)) /\
  (exists chats, Storage.getChats w = (Ok chats, w) /\
             (read_fails CHATS w = true -> chats = ∅)) /\
  (exists unread, Storage.getUnread w = (Ok unread, w) /\
             (read_fails UNREAD w = true -> unread = ∅)) /\
  (exists chats, ChatSync._readChats w = (Ok chats, w) /\
             (read_fails CHATS w = true -> chats = ∅)) /\
  (exists b w', Storage.set key value w = (Ok b, w') /\
             (write_fails w = true -> b = false /\ w' = w) /\
             (write_fails w = false ->
                b = true /\ Storage.get key w' = (Ok (Some value), w'))) /\
  (forall chats, write_fails w = true ->
             exists e, ChatSync._writeChats chats w = (Throw e, w)).
Proof.
  repeat apply conj.
  - eexists. split; [apply safeGet_run|].
    unfold read_fails. intros Hfail.
    destruct (denied (localStorage w)); [reflexivity|].
    destruct (text_at key (localStorage w)) as [[| |v]|];
      simpl in Hfail; congruence.
  - eexists. split; [apply Storage_getChats_run|].
    unfold read_fails, stored_chats. simpl. intros Hfail.
    destruct (denied (localStorage w)); [reflexivity|].
    destruct (chats_text (localStorage w)) as [[| |v]|];
      simpl in Hfail; congruence.
  - eexists. split; [apply Storage_getUnread_run|].
    unfold read_fails, stored_unread. simpl. intros Hfail.
    destruct (denied (localStorage w)); [reflexivity|].
    destruct (unread_text (localStorage w)) as [[| |v]|];
      simpl in Hfail; congruence.
  - eexists. split; [apply ChatSync_readChats_run|].
    unfold read_fails, stored_chats. simpl. intros Hfail.
    destruct (denied (localStorage w)); [reflexivity|].
    destruct (chats_text (localStorage w)) as [[| |v]|];
      simpl in Hfail; congruence.
  - unfold Storage.set. rewrite safeSet_run.
    destruct (write_fails w) eqn:Hfail.
    + exists false, w. repeat split; congruence.
    + eexists true, _. split; [reflexivity|]. split; [congruence|].
      intros _. split; [reflexivity|].
      unfold Storage.get. rewrite safeGet_run.
      unfold write_fails in Hfail. apply orb_false_elim in Hfail as [Hd _].
      destruct key as [| |name]; simpl; rewrite Hd; [reflexivity|reflexivity|].
      rewrite lookup_insert_eq. reflexivity.
  - intros chats Hfail. rewrite ChatSync_writeChats_run.
    unfold write_fails in Hfail.
    destruct (denied (localStorage w)); [eexists; reflexivity|].
    destruct (full (localStorage w)); [eexists; reflexivity|discriminate].
Qed.

(** With the quota exhausted. *)
Lemma storage_module_never_raises_witness :
  write_fails full_world = true /\
  Storage.set CHATS (demo_chat []) full_world = (Ok false, full_world) /\
  Storage.get CHATS full_world = (Ok None, full_world).
Proof.
  split; [reflexivity|].
  destruct (storage_module_never_raises CHATS (demo_chat []) full_world)
    as ((r & Hget & _) & _ & _ & _ & (b & w' & Hset & Hfail & _) & _).
  destruct (Hfail eq_refl) as [-> ->].
  split; [exact Hset|]. reflexivity.
Defined.

(** ** Appending with deduplication *)

Lemma has_id_app id l1 l2 : has_id id (l1 ++ l2) = has_id id l1 || has_id id l2.
Proof. apply existsb_app. Qed.

Lemma has_id_append_once l m : has_id (msg_id m) (append_once l m) = true.
Proof.
  unfold append_once. destruct (has_id (msg_id m) l) eqn:H; [exact H|].
  rewrite has_id_app. simpl. rewrite String.eqb_refl, orb_true_r. reflexivity.
Qed.

Lemma append_once_again l m again :
  msg_id again = msg_id m ->
  append_once (append_once l m) again = append_once l m.
Proof.
  intros Hid. unfold append_once at 1.
  rewrite Hid, has_id_append_once. reflexivity.
Qed.

Lemma count_id_app id l1 l2 :
  count_id id (l1 ++ l2) = count_id id l1 + count_id id l2.
Proof. unfold count_id. rewrite List.filter_app, length_app. reflexivity. Qed.

Lemma count_id_absent id l : has_id id l = false -> count_id id l = 0.
Proof.
  unfold has_id, count_id. induction l as [|m l IH]; simpl; [reflexivity|].
  destruct (String.eqb (msg_id m) id); simpl; [discriminate|exact IH].
Qed.

Lemma count_id_present id l : has_id id l = true -> 1 <= count_id id l.
Proof.
  unfold has_id, count_id. induction l as [|m l IH]; simpl; [discriminate|].
  destruct (String.eqb (msg_id m) id); simpl; [lia|exact IH].
Qed.

Lemma count_id_append_once l m :
  count_id (msg_id m) l <= 1 -> count_id (msg_id m) (append_once l m) = 1.
Proof.
  intros Hle. unfold append_once.
  destruct (has_id (msg_id m) l) eqn:H.
  - apply count_id_present in H. lia.
  - rewrite count_id_app, (count_id_absent _ _ H).
    unfold count_id. simpl. rewrite String.eqb_refl. reflexivity.
Qed.

(** C4: appending a message whose id is already stored changes nothing.  On
    a store that takes writes, for [ChatSync.sendMessage] and for
    [Storage.addMessage]: after two appends with the same message id to a
    conversation, the second append has left the stored message sequence
    unchanged, and the sequence holds exactly one message with that id (given
    that the id occurred at most once before the two appends). *)
Theorem append_same_id_twice (w : World) (orderId : string) (msg again : Message) :
  healthy w ->
  msg_id again = msg_id msg ->
  (let w1 := exec (ChatSync.sendMessage orderId msg) w in
   let w2 := exec (ChatSync.sendMessage orderId again) w1 in
   stored_messages w2 orderId = stored_messages w1 orderId /\
   (count_id (msg_id msg) (stored_messages w orderId) <= 1 ->
    count_id (msg_id msg) (stored_messages w2 orderId) = 1)) /\
  (let w1 := exec (Storage.addMessage orderId msg) w in
   let w2 := exec (Storage.addMessage orderId again) w1 in
   stored_messages w2 orderId = stored_messages w1 orderId /\
   (count_id (msg_id msg) (stored_messages w orderId) <= 1 ->
    count_id (msg_id msg) (stored_messages w2 orderId) = 1)).
Proof.
  intros Hw Hid. split.
  - intros w1 w2.
    destruct (ChatSync_sendMessage_effect w orderId msg Hw)
      as (_ & Hw1 & Hm1 & _ & _ & _ & _ & _ & Hu1).
    destruct (ChatSync_sendMessage_effect w1 orderId again Hw1)
      as (_ & _ & Hm2 & _).
    fold w1 in Hm1, Hu1. fold w2 in Hm2.
    assert (Heq : stored_messages w2 orderId = stored_messages w1 orderId).
    { rewrite Hm2, Hm1. apply append_once_again. exact Hid. }
    split; [exact Heq|].
    intros Hle. rewrite Heq, Hm1.
    apply (count_id_append_once _ (ChatSync.enrich (currentUser w) msg)).
    exact Hle.
  - intros w1 w2.
    destruct (Storage_addMessage_effect w orderId msg Hw)
      as (_ & Hw1 & Hm1 & _).
    destruct (Storage_addMessage_effect w1 orderId again Hw1)
      as (_ & _ & Hm2 & _).
    fold w1 in Hm1. fold w2 in Hm2.
    assert (Heq : stored_messages w2 orderId = stored_messages w1 orderId).
    { rewrite Hm2, Hm1. apply append_once_again. exact Hid. }
    split; [exact Heq|].
    intros Hle. rewrite Heq, Hm1. apply count_id_append_once. exact Hle.
Qed.

(** Two sends of the id [m1] on a page that has just loaded. *)
Lemma append_same_id_twice_witness :
  healthy fresh_world /\
  count_id "m1" (stored_messages fresh_world "ORD-DEMO") <= 1 /\
  count_id "m1"
    (stored_messages
       (exec (ChatSync.sendMessage "ORD-DEMO" (text_message "m1" "customer" T2))
          (exec (ChatSync.sendMessage "ORD-DEMO" (text_message "m1" "customer" T1))
             fresh_world))
       "ORD-DEMO") = 1.
Proof.
  assert (Hw : healthy fresh_world) by (split; reflexivity).
  assert (Hle : count_id "m1" (stored_messages fresh_world "ORD-DEMO") <= 1)
    by (vm_compute; lia).
  split; [exact Hw|]. split; [exact Hle|].
  destruct (append_same_id_twice fresh_world "ORD-DEMO"
              (text_message "m1" "customer" T1)
              (text_message "m1" "customer" T2) Hw eq_refl)
    as [[_ Hone] _].
  exact (Hone Hle).
Defined.

(** ** Clearing a history *)

(** C8: on a store that takes writes, [deleteChatHistory] of the channel, and
    of the bridge called with an order id, empties the message sequence of
    that conversation and sets its [lastMessageTime] to the clock reading of
    the call; the record stays, with its [orderId], [createdAt], [customerId]
    and [driverId]; conversations with other ids are unchanged; and for an id
    without a record none is created. *)
Theorem deleteChatHistory_keeps_record (w : World) (orderId : string) :
  healthy w ->
  history_cleared (stored_chats w)
    (stored_chats (exec (ChatSync.deleteChatHistory orderId) w))
    orderId (clock w (ticks w)) /\
  (orderId <> "" ->
   history_cleared (stored_chats w)
     (stored_chats (exec (ChatSyncBridge.deleteChatHistory (Some orderId)) w))
     orderId (clock w (ticks w))).
Proof.
  intros Hw. split.
  - apply (ChatSync_deleteChatHistory_effect w orderId Hw).
  - intros Hne. apply (Bridge_deleteChatHistory_effect w orderId Hw Hne).
Qed.

(** Clearing the one stored conversation. *)
Lemma deleteChatHistory_keeps_record_witness :
  healthy uninitialised_world /\
  history_cleared (stored_chats uninitialised_world)
    (stored_chats (exec (ChatSync.deleteChatHistory "ORD-DEMO") uninitialised_world))
    "ORD-DEMO" T9.
Proof.
  assert (Hw : healthy uninitialised_world) by (split; reflexivity).
  split; [exact Hw|].
  exact (proj1 (deleteChatHistory_keeps_record uninitialised_world "ORD-DEMO" Hw)).
Defined.

(** ** The customer facade before [init] *)

(** C10, counterexample: before [init], [deleteChatHistory] called with an
    order id (as the customer page calls it) empties that conversation in the
    shared store. *)
Lemma deleteChatHistory_before_init_clears :
  _activeOrderId (bridge uninitialised_world) = None /\
  stored_messages uninitialised_world "ORD-DEMO" <> [] /\
  stored_messages
    (exec (ChatSyncBridge.deleteChatHistory (Some "ORD-DEMO")) uninitialised_world)
    "ORD-DEMO" = [].
Proof.
  split; [reflexivity|]. split; [|vm_compute; reflexivity].
  vm_compute. discriminate.
Qed.

(** C10, as amended: while no active order id is set, [sendTextMessage] and
    [sendImageMessage] return without touching the world (store, clock, id
    supply, listeners), [getHistory] returns the empty list, and
    [deleteChatHistory] called without an order id returns without touching
    the world.  Called with an order id, on a store that takes writes, it
    clears the history of that conversation all the same. *)
Theorem bridge_without_active_order (w : World) :
  falsy (_activeOrderId (bridge w)) = true ->
  (forall text, ChatSyncBridge.sendTextMessage text w = (Ok tt, w)) /\
  (forall dataUrl fileName,
      ChatSyncBridge.sendImageMessage dataUrl fileName w = (Ok tt, w)) /\
  ChatSyncBridge.getHistory w = (Ok [], w) /\
  (forall orderId, falsy orderId = true ->
      ChatSyncBridge.deleteChatHistory orderId w = (Ok tt, w)) /\
  (forall orderId, healthy w -> orderId <> "" ->
      history_cleared (stored_chats w)
        (stored_chats (exec (ChatSyncBridge.deleteChatHistory (Some orderId)) w))
        orderId (clock w (ticks w))).
Proof.
  intros Hactive. splits.
  - intros text. unfold ChatSyncBridge.sendTextMessage, bind, gets.
    rewrite Hactive. reflexivity.
  - intros dataUrl fileName.
    unfold ChatSyncBridge.sendImageMessage, bind, gets.
    rewrite Hactive. reflexivity.
  - unfold ChatSyncBridge.getHistory, bind, gets. rewrite Hactive. reflexivity.
  - intros orderId Hnone.
    unfold ChatSyncBridge.deleteChatHistory, bind, gets.
    rewrite Hnone, Hactive. reflexivity.
  - intros orderId Hw Hne.
    apply (Bridge_deleteChatHistory_effect w orderId Hw Hne).
Qed.

(** On a page that has not called [init]. *)
Lemma bridge_without_active_order_witness :
  falsy (_activeOrderId (bridge uninitialised_world)) = true /\
  ChatSyncBridge.sendTextMessage "hello" uninitialised_world
    = (Ok tt, uninitialised_world) /\
  ChatSyncBridge.getHistory uninitialised_world = (Ok [], uninitialised_world) /\
  ChatSyncBridge.deleteChatHistory None uninitialised_world
    = (Ok tt, uninitialised_world).
Proof.
  split; [reflexivity|].
  destruct (bridge_without_active_order uninitialised_world eq_refl)
    as (Htext & _ & Hhist & Hdel & _).
  split; [apply Htext|]. split; [exact Hhist|]. apply Hdel. reflexivity.
Defined.

(** ** Unread counters *)

Lemma ChatSync_getUnreadCount_run w orderId :
  ChatSync.getUnreadCount orderId w = (Ok (unread_count w orderId), w).
Proof. unfold ChatSync.getUnreadCount. step. reflexivity. Qed.

Lemma ChatSync_markAllRead_effect w orderId :
  healthy w ->
  let w' := exec (ChatSync.markAllRead orderId) w in
  eval (ChatSync.markAllRead orderId) w = Ok tt /\
  stored_unread w' = delete orderId (stored_unread w) /\
  stored_chats w' = stored_chats w.
Proof.
  intros Hw w'. subst w'. unfold eval, exec, ChatSync.markAllRead. step.
  simpl fst; simpl snd; autorewrite with world. splits; reflexivity.
Qed.

Lemma unread_count_sendMessage w orderId msg :
  healthy w ->
  unread_count (exec (ChatSync.sendMessage orderId msg) w) orderId =
    if String.eqb (msg_sender msg) "driver" then unread_count w orderId
    else unread_count w orderId + 1.
Proof.
  intros Hw.
  destruct (ChatSync_sendMessage_effect w orderId msg Hw)
    as (_ & _ & _ & _ & Hu & _).
  unfold unread_count at 1. rewrite Hu.
  destruct (String.eqb (msg_sender msg) "driver"); [reflexivity|].
  rewrite lookup_insert_eq. reflexivity.
Qed.

Lemma sendAll_effect orderId msgs : forall w,
  healthy w ->
  let w' := exec (sendAll orderId msgs) w in
  eval (sendAll orderId msgs) w = Ok tt /\
  healthy w' /\
  stored_messages w' orderId =
    fold_left append_once (map (ChatSync.enrich (currentUser w)) msgs)
      (stored_messages w orderId) /\
  unread_count w' orderId =
    unread_count w orderId
    + length (List.filter (fun m => negb (String.eqb (msg_sender m) "driver")) msgs) /\
  sync w' = sync w /\ bridge w' = bridge w /\ trace w' = trace w.
Proof.
  induction msgs as [|m msgs IH]; intros w Hw.
  - unfold sendAll, eval, exec. simpl.
    splits; try reflexivity; [exact Hw|symmetry; apply Nat.add_0_r].
  - destruct (ChatSync_sendMessage_effect w orderId m Hw)
      as (Hev & Hw1 & Hm1 & _ & _ & Hs1 & Hb1 & Ht1 & Hu1).
    pose proof (unread_count_sendMessage w orderId m Hw) as Hc1.
    destruct (IH _ Hw1) as (Hev2 & Hw2 & Hm2 & Hc2 & Hs2 & Hb2 & Ht2).
    unfold sendAll in *. unfold eval, exec in *. simpl forEach.
    rewrite (bind_eval _ _ _ _ Hev). unfold exec.
    splits.
    + exact Hev2.
    + exact Hw2.
    + rewrite Hm2, Hm1, Hu1. reflexivity.
    + rewrite Hc2, Hc1. simpl.
      destruct (String.eqb (msg_sender m) "driver"); simpl; lia.
    + congruence.
    + congruence.
    + congruence.
Qed.

(** The bridge's counter update, inside its [try]: an absent key and the
    empty string count as no counters; nothing is counted when the stored
    counters are other text that does not parse. *)
Lemma Bridge_bump_unread_run w k :
  healthy w ->
  unread_text (localStorage w) <> Some Garbled ->
  try_catch
    (raw <- getItem UNREAD ;;
     unread <- JSON_parse (or_text raw (Encoded (empty_object UNREAD))) ;;
     text <- JSON_stringify
       (<[k := default 0 (unread !! k) + 1]> unread : val UNREAD) ;;
     setItem UNREAD text)
    (ret tt) w =
  (Ok tt, write_unread (<[k := unread_count w k + 1]> (stored_unread w)) w).
Proof.
  intros [Hd Hf] Hg.
  unfold try_catch, bind, getItem, setItem, unread_count, stored_unread.
  rewrite Hd. cbn [text_at default JSON_parse JSON_stringify ret].
  destruct (unread_text (localStorage w)) as [[| |u]|]; [|congruence| |];
    simpl (JSON_parse _ _); unfold ret; cbv beta iota; rewrite Hd, Hf;
    reflexivity.
Qed.

(** A customer message sent through the bridge is appended and counted. *)
Lemma Bridge_sendTextMessage_effect w orderId text :
  healthy w ->
  unread_text (localStorage w) <> Some Garbled ->
  _activeOrderId (bridge w) = Some orderId ->
  orderId <> "" ->
  let w' := exec (ChatSyncBridge.sendTextMessage text) w in
  eval (ChatSyncBridge.sendTextMessage text) w = Ok tt /\
  (exists msg,
     stored_messages w' orderId = stored_messages w orderId ++ [msg] /\
     msg_sender msg = "customer" /\ msg_content msg = text /\
     msg_id msg = id_supply w (draws w) /\
     msg_timestamp msg = clock w (ticks w)) /\
  unread_count w' orderId = unread_count w orderId + 1.
Proof.
  intros Hw Hg Hactive Hne w'. subst w'.
  assert (Hfalsy : falsy (Some orderId) = false)
    by (destruct orderId; [congruence|reflexivity]).
  unfold eval, exec, ChatSyncBridge.sendTextMessage. step.
  rewrite Hactive, Hfalsy. step.
  unfold ChatSyncBridge._persist. step.
  change (_activeOrderId (bridge (tick (draw w)))) with (_activeOrderId (bridge w)).
  rewrite Hactive. cbn [ChatSyncBridge.property default from_option id].
  unfold stored_messages, messages_of. autorewrite with world.
  destruct (stored_chats w !! orderId) as [c|] eqn:Hc; step;
    (rewrite Bridge_bump_unread_run; [|auto with healthy|exact Hg]);
    simpl fst; simpl snd; unfold unread_count; autorewrite with world;
    rewrite !lookup_insert_eq.
  all: splits; try reflexivity.
  all: eexists; splits; reflexivity.
Qed.

(** C7, counterexample: a send that repeats a stored id inserts nothing and
    still increments the counter: one stored message, count two. *)
Lemma duplicate_send_counts_twice :
  let m := text_message "m1" "customer" T1 in
  let w2 := exec (ChatSync.sendMessage "ORD-DEMO" m ;;;
                  ChatSync.sendMessage "ORD-DEMO" m) fresh_world in
  length (stored_messages w2 "ORD-DEMO") = 1 /\
  eval (ChatSync.getUnreadCount "ORD-DEMO") w2 = Ok 2.
Proof. split; vm_compute; reflexivity. Qed.

(** C7, as amended: on a store that takes writes, every call of
    [sendMessage] whose message is not authored by ['driver'] adds one to the
    stored unread count of the conversation, whether the message is inserted
    or dropped as a duplicate; a call with a driver's message leaves the count
    as it is, and so does [deleteChatHistory].  [N] such sends add [N], so
    from a state without an entry the count is [N].  [markAllRead] resets the
    count to 0 whatever it was, and [getUnreadCount] returns the stored count,
    0 when there is no entry. *)
Theorem unread_accounting (w : World) (orderId : string) :
  healthy w ->
  (forall msg,
     unread_count (exec (ChatSync.sendMessage orderId msg) w) orderId =
       if String.eqb (msg_sender msg) "driver" then unread_count w orderId
       else unread_count w orderId + 1) /\
  (forall msgs,
     Forall (fun m => msg_sender m <> "driver") msgs ->
     unread_count (exec (sendAll orderId msgs) w) orderId
       = unread_count w orderId + length msgs /\
     (stored_unread w !! orderId = None ->
      eval (ChatSync.getUnreadCount orderId) (exec (sendAll orderId msgs) w)
        = Ok (length msgs))) /\
  unread_count (exec (ChatSync.deleteChatHistory orderId) w) orderId
    = unread_count w orderId /\
  eval (ChatSync.getUnreadCount orderId) (exec (ChatSync.markAllRead orderId) w)
    = Ok 0 /\
  eval (ChatSync.getUnreadCount orderId) w = Ok (unread_count w orderId) /\
  (stored_unread w !! orderId = None ->
   eval (ChatSync.getUnreadCount orderId) w = Ok 0).
Proof.
  intros Hw. splits.
  - intros msg. apply unread_count_sendMessage, Hw.
  - intros msgs Hall.
    destruct (sendAll_effect orderId msgs w Hw) as (_ & _ & _ & Hc & _).
    assert (Hlen : length (List.filter
                     (fun m => negb (String.eqb (msg_sender m) "driver")) msgs)
                   = length msgs).
    { clear Hc. induction Hall as [|m l Hm _ IH]; [reflexivity|].
      simpl. apply String.eqb_neq in Hm. rewrite Hm. simpl. rewrite IH.
      reflexivity. }
    rewrite Hlen in Hc. split; [exact Hc|].
    intros Hnone. unfold eval. rewrite ChatSync_getUnreadCount_run. simpl.
    rewrite Hc. unfold unread_count. rewrite Hnone. reflexivity.
  - destruct (ChatSync_deleteChatHistory_effect w orderId Hw)
      as (_ & _ & _ & Hu & _).
    unfold unread_count. rewrite Hu. reflexivity.
  - destruct (ChatSync_markAllRead_effect w orderId Hw) as (_ & Hu & _).
    unfold eval. rewrite ChatSync_getUnreadCount_run. simpl.
    unfold unread_count. rewrite Hu, lookup_delete_eq. reflexivity.
  - unfold eval. rewrite ChatSync_getUnreadCount_run. reflexivity.
  - intros Hnone. unfold eval. rewrite ChatSync_getUnreadCount_run. simpl.
    unfold unread_count. rewrite Hnone. reflexivity.
Qed.

(** Three customer messages on a page that has just loaded. *)
Lemma unread_accounting_witness :
  healthy fresh_world /\
  stored_unread fresh_world !! "ORD-DEMO" = None /\
  eval (ChatSync.getUnreadCount "ORD-DEMO")
    (exec (sendAll "ORD-DEMO"
             [text_message "m1" "customer" T1; text_message "m2" "customer" T2;
              text_message "m3" "customer" T3])
       fresh_world) = Ok 3.
Proof.
  assert (Hw : healthy fresh_world) by (split; reflexivity).
  assert (Hnone : stored_unread fresh_world !! "ORD-DEMO" = None) by reflexivity.
  split; [exact Hw|]. split; [exact Hnone|].
  destruct (unread_accounting fresh_world "ORD-DEMO" Hw) as (_ & Hall & _).
  refine (proj2 (Hall _ _) Hnone).
  repeat constructor; discriminate.
Defined.

(** ** How a reconcile pass runs *)

Lemma trace_emit_all es : forall w, trace (emit_all es w) = trace w ++ es.
Proof.
  induction es as [|e es IH]; intros w; simpl.
  - symmetry. apply app_nil_r.
  - rewrite IH. simpl. rewrite <- app_assoc. reflexivity.
Qed.

Lemma sync_emit_all es : forall w, sync (emit_all es w) = sync w.
Proof. induction es as [|e es IH]; intros w; simpl; [|rewrite IH]; reflexivity. Qed.

Lemma bridge_emit_all es : forall w, bridge (emit_all es w) = bridge w.
Proof. induction es as [|e es IH]; intros w; simpl; [|rewrite IH]; reflexivity. Qed.

Lemma localStorage_emit_all es : forall w,
  localStorage (emit_all es w) = localStorage w.
Proof. induction es as [|e es IH]; intros w; simpl; [|rewrite IH]; reflexivity. Qed.

Lemma stored_chats_emit_all es w : stored_chats (emit_all es w) = stored_chats w.
Proof. unfold stored_chats. rewrite localStorage_emit_all. reflexivity. Qed.

Lemma forEach_notify_run l : forall w,
  forEach l ChatSync._notify w =
    (Ok tt, if _onNewMessage (sync w) then emit_all (map NewMessage l) w else w).
Proof.
  induction l as [|m l IH]; intros w; simpl.
  - destruct (_onNewMessage (sync w)); reflexivity.
  - unfold ChatSync._notify at 1. step.
    destruct (_onNewMessage (sync w)) eqn:Hreg; step; rewrite IH; simpl;
      rewrite Hreg; reflexivity.
Qed.

Lemma forEach_onDriverMessage_run l : forall w,
  forEach l (fun msg =>
    registered <- gets (fun w => _onDriverMessage (bridge w)) ;;
    if registered then modify (emit (DriverMessage msg)) else ret tt) w =
    (Ok tt,
     if _onDriverMessage (bridge w) then emit_all (map DriverMessage l) w else w).
Proof.
  induction l as [|m l IH]; intros w; simpl.
  - destruct (_onDriverMessage (bridge w)); reflexivity.
  - step.
    destruct (_onDriverMessage (bridge w)) eqn:Hreg; step; rewrite IH; simpl;
      rewrite Hreg; reflexivity.
Qed.

Lemma ChatSync_check_run w orderId :
  ChatSync._checkForNewMessages orderId w =
    (Ok tt,
     match last (A:=Message) (ChatSync_selected w orderId) with
     | None => w
     | Some newest =>
         let w1 :=
           set_sync
             (ChatSync.set_lastSeenTimestamp orderId (msg_timestamp newest)
                (sync w)) w in
         if _onNewMessage (sync w)
         then emit_all (map NewMessage (ChatSync_selected w orderId)) w1
         else w1
     end).
Proof.
  unfold ChatSync._checkForNewMessages. step.
  fold (stored_messages w orderId). fold (ChatSync_watermark w orderId).
  fold (ChatSync_selected w orderId).
  destruct (last (ChatSync_selected w orderId)) as [newest|]; [|reflexivity].
  step. rewrite forEach_notify_run. reflexivity.
Qed.

Lemma Bridge_check_run w orderId :
  ChatSyncBridge._checkForDriverMessages orderId w =
    (Ok tt,
     if clear_detected w orderId
     then
       let w1 :=
         set_bridge
           (ChatSyncBridge.set_seenCount orderId 0
              (ChatSyncBridge.set_lastSeenTs orderId epoch (bridge w))) w in
       if _onChatCleared (bridge w) then emit (ChatCleared orderId) w1 else w1
     else
       let w1 :=
         set_bridge
           (ChatSyncBridge.set_seenCount orderId
              (length (stored_messages w orderId)) (bridge w)) w in
       match last (A:=Message) (Bridge_selected w orderId) with
       | None => w1
       | Some newest =>
           let w2 :=
             set_bridge
               (ChatSyncBridge.set_lastSeenTs orderId (msg_timestamp newest)
                  (bridge w1)) w1 in
           if _onDriverMessage (bridge w)
           then emit_all (map DriverMessage (Bridge_selected w orderId)) w2
           else w2
       end).
Proof.
  unfold ChatSyncBridge._checkForDriverMessages. step.
  fold (stored_messages w orderId). fold (Bridge_watermark w orderId).
  fold (Bridge_seenCount w orderId). fold (clear_detected w orderId).
  fold (Bridge_selected w orderId).
  destruct (clear_detected w orderId).
  - step. simpl. destruct (_onChatCleared (bridge w)); reflexivity.
  - step.
    destruct (last (Bridge_selected w orderId)) as [newest|]; [|reflexivity].
    step. rewrite forEach_onDriverMessage_run. reflexivity.
Qed.

(** ** What a pass delivers *)

Lemma ChatSync_check_trace w orderId :
  trace (exec (ChatSync._checkForNewMessages orderId) w) =
    trace w ++
      (if _onNewMessage (sync w)
       then map NewMessage (ChatSync_selected w orderId) else []).
Proof.
  unfold exec. rewrite ChatSync_check_run. simpl.
  destruct (last (ChatSync_selected w orderId)) as [newest|] eqn:Hlast.
  - destruct (_onNewMessage (sync w)); simpl.
    + rewrite trace_emit_all. reflexivity.
    + symmetry. apply app_nil_r.
  - apply last_None in Hlast. rewrite Hlast.
    destruct (_onNewMessage (sync w)); symmetry; apply app_nil_r.
Qed.

Lemma Bridge_check_trace w orderId :
  trace (exec (ChatSyncBridge._checkForDriverMessages orderId) w) =
    trace w ++
      (if clear_detected w orderId
       then (if _onChatCleared (bridge w) then [ChatCleared orderId] else [])
       else if _onDriverMessage (bridge w)
            then map DriverMessage (Bridge_selected w orderId) else []).
Proof.
  unfold exec. rewrite Bridge_check_run. simpl.
  destruct (clear_detected w orderId).
  - destruct (_onChatCleared (bridge w)); simpl;
      [reflexivity|symmetry; apply app_nil_r].
  - destruct (last (Bridge_selected w orderId)) as [newest|] eqn:Hlast.
    + destruct (_onDriverMessage (bridge w)); simpl.
      * rewrite trace_emit_all. reflexivity.
      * symmetry. apply app_nil_r.
    + apply last_None in Hlast. rewrite Hlast.
      destruct (_onDriverMessage (bridge w)); symmetry; apply app_nil_r.
Qed.

(** C1, counterexample: the driver-side channel delivers to its listener a
    message whose sender is ['driver']. *)
Lemma driver_channel_delivers_own_message :
  let w := exec driver_sends fresh_world in
  exists m,
    trace (exec (ChatSync._checkForNewMessages "ORD-DEMO") w) = [NewMessage m] /\
    msg_sender m = "driver".
Proof. eexists. split; vm_compute; reflexivity. Qed.

(** C1, as amended: a pass of the driver-side channel delivers to a registered
    listener exactly the stored messages with timestamp strictly greater than
    its watermark, in stored order and whoever sent them.  A pass of the
    customer-side channel that detects a clear delivers no message (it calls
    the clear listener); any other pass delivers exactly the stored messages
    with sender ['driver'] and timestamp strictly greater than its watermark,
    in stored order, so the customer side is never delivered a message of its
    own role. *)
Theorem reconcile_delivers (w : World) (orderId : string) :
  trace (exec (ChatSync._checkForNewMessages orderId) w) =
    trace w ++
      (if _onNewMessage (sync w)
       then map NewMessage (ChatSync_selected w orderId) else []) /\
  (forall m, In m (ChatSync_selected w orderId) <->
     In m (stored_messages w orderId) /\
     str_gt (msg_timestamp m) (ChatSync_watermark w orderId) = true) /\
  trace (exec (ChatSyncBridge._checkForDriverMessages orderId) w) =
    trace w ++
      (if clear_detected w orderId
       then (if _onChatCleared (bridge w) then [ChatCleared orderId] else [])
       else if _onDriverMessage (bridge w)
            then map DriverMessage (Bridge_selected w orderId) else []) /\
  (forall m, In m (Bridge_selected w orderId) <->
     In m (stored_messages w orderId) /\
     msg_sender m = "driver" /\
     str_gt (msg_timestamp m) (Bridge_watermark w orderId) = true) /\
  (forall m, In m (Bridge_selected w orderId) -> msg_sender m <> "customer").
Proof.
  assert (Hsel : forall m, In m (Bridge_selected w orderId) <->
     In m (stored_messages w orderId) /\
     msg_sender m = "driver" /\
     str_gt (msg_timestamp m) (Bridge_watermark w orderId) = true).
  { intros m. unfold Bridge_selected, ChatSyncBridge.is_fresh.
    rewrite filter_In, andb_true_iff, String.eqb_eq. reflexivity. }
  splits.
  - apply ChatSync_check_trace.
  - intros m. unfold ChatSync_selected. rewrite filter_In. reflexivity.
  - apply Bridge_check_trace.
  - exact Hsel.
  - intros m Hm. apply Hsel in Hm as (_ & Hd & _). rewrite Hd. discriminate.
Qed.

(** ** Clear detection *)

(** C2, counterexample: two driver messages have been delivered, the driver
    deletes the history and sends the first message again.  The pass that
    detects the clear sets the watermark to the epoch, not to the present
    clock reading, and the pass after it delivers the first message a second
    time. *)
Lemma clear_detection_resets_to_epoch :
  let w := exec resend_after_clear fresh_world in
  let w1 := exec (ChatSyncBridge._checkForDriverMessages "ORD-DEMO") w in
  let w2 := exec (ChatSyncBridge._checkForDriverMessages "ORD-DEMO") w1 in
  let m1 := ChatSync.enrich None (text_message "init-1" "driver" T1) in
  let m2 := ChatSync.enrich None (text_message "init-2" "driver" T2) in
  trace w = [DriverMessage m1; DriverMessage m2] /\
  clear_detected w "ORD-DEMO" = true /\
  _lastSeenTs (bridge w1) !! "ORD-DEMO" = Some epoch /\
  epoch <> clock w (ticks w) /\
  trace w2 = [DriverMessage m1; DriverMessage m2; ChatCleared "ORD-DEMO";
              DriverMessage m1].
Proof.
  cbv zeta. splits; try (vm_compute; reflexivity).
  vm_compute. discriminate.
Qed.

Lemma ltb_0_r n : (n <? 0) = false.
Proof. destruct n; reflexivity. Qed.

(** C2, as amended: a pass of the customer-side channel that reads fewer
    messages than it has observed returns after resetting the watermark to
    the epoch and the observed count to 0 and calling the clear listener, when
    one is registered, exactly once; it delivers no message and leaves the
    store as it is.  The pass after it, with no write in between, calls no
    clear listener and delivers the driver messages then in the store with a
    timestamp later than the epoch: none when the history is empty. *)
Theorem clear_detection (w : World) (orderId : string) :
  clear_detected w orderId = true ->
  let w1 := exec (ChatSyncBridge._checkForDriverMessages orderId) w in
  let w2 := exec (ChatSyncBridge._checkForDriverMessages orderId) w1 in
  eval (ChatSyncBridge._checkForDriverMessages orderId) w = Ok tt /\
  _lastSeenTs (bridge w1) !! orderId = Some epoch /\
  _seenCount (bridge w1) !! orderId = Some 0 /\
  trace w1 =
    trace w ++ (if _onChatCleared (bridge w) then [ChatCleared orderId] else []) /\
  localStorage w1 = localStorage w /\
  trace w2 =
    trace w1 ++
      (if _onDriverMessage (bridge w)
       then map DriverMessage
              (List.filter (ChatSyncBridge.is_fresh epoch)
                 (stored_messages w orderId))
       else []) /\
  (stored_messages w orderId = [] -> trace w2 = trace w1).
Proof.
  intros Hclear w1 w2.
  assert (Hw1 : w1 =
    let w0 := set_bridge
                (ChatSyncBridge.set_seenCount orderId 0
                   (ChatSyncBridge.set_lastSeenTs orderId epoch (bridge w))) w in
    if _onChatCleared (bridge w) then emit (ChatCleared orderId) w0 else w0).
  { subst w1. unfold exec. rewrite Bridge_check_run, Hclear. reflexivity. }
  assert (Hts : _lastSeenTs (bridge w1) !! orderId = Some epoch).
  { rewrite Hw1. destruct (_onChatCleared (bridge w)); simpl;
      apply lookup_insert_eq. }
  assert (Hcount : _seenCount (bridge w1) !! orderId = Some 0).
  { rewrite Hw1. destruct (_onChatCleared (bridge w)); simpl;
      apply lookup_insert_eq. }
  assert (Hstore : localStorage w1 = localStorage w).
  { rewrite Hw1. destruct (_onChatCleared (bridge w)); reflexivity. }
  assert (Hreg : _onDriverMessage (bridge w1) = _onDriverMessage (bridge w)).
  { rewrite Hw1. destruct (_onChatCleared (bridge w)); reflexivity. }
  assert (Hmsgs : stored_messages w1 orderId = stored_messages w orderId).
  { unfold stored_messages, stored_chats. rewrite Hstore. reflexivity. }
  assert (Hsel : Bridge_selected w1 orderId =
                 List.filter (ChatSyncBridge.is_fresh epoch)
                   (stored_messages w orderId)).
  { unfold Bridge_selected, Bridge_watermark. rewrite Hts, Hmsgs. reflexivity. }
  assert (Hnoclear : clear_detected w1 orderId = false).
  { unfold clear_detected, Bridge_seenCount. rewrite Hcount. apply ltb_0_r. }
  assert (Htrace2 : trace w2 =
    trace w1 ++
      (if _onDriverMessage (bridge w)
       then map DriverMessage
              (List.filter (ChatSyncBridge.is_fresh epoch)
                 (stored_messages w orderId))
       else [])).
  { subst w2. rewrite Bridge_check_trace, Hnoclear, Hreg, Hsel. reflexivity. }
  splits.
  - unfold eval. rewrite Bridge_check_run. reflexivity.
  - exact Hts.
  - exact Hcount.
  - rewrite Hw1. destruct (_onChatCleared (bridge w)); simpl;
      [reflexivity|symmetry; apply app_nil_r].
  - exact Hstore.
  - exact Htrace2.
  - intros Hempty. rewrite Htrace2, Hempty. simpl.
    destruct (_onDriverMessage (bridge w)); apply app_nil_r.
Qed.

(** After the driver has deleted the history and sent a message again. *)
Lemma clear_detection_witness :
  clear_detected (exec resend_after_clear fresh_world) "ORD-DEMO" = true /\
  _seenCount
    (bridge (exec (ChatSyncBridge._checkForDriverMessages "ORD-DEMO")
               (exec resend_after_clear fresh_world))) !! "ORD-DEMO" = Some 0.
Proof.
  assert (H : clear_detected (exec resend_after_clear fresh_world) "ORD-DEMO"
              = true) by (vm_compute; reflexivity).
  split; [exact H|].
  destruct (clear_detection _ "ORD-DEMO" H) as (_ & _ & Hcount & _).
  exact Hcount.
Defined.

(** ** The order of timestamps *)

Lemma ltb_lt a b : String.ltb a b = true <-> String_as_OT.lt a b.
Proof.
  unfold String.ltb. rewrite <- String_as_OT.cmp_lt. unfold String_as_OT.cmp.
  destruct (String.compare a b); split; congruence.
Qed.

Lemma ltb_trans a b c :
  String.ltb a b = true -> String.ltb b c = true -> String.ltb a c = true.
Proof. rewrite !ltb_lt. apply String_as_OT.lt_trans. Qed.

Lemma ltb_irrefl a : String.ltb a a = false.
Proof.
  destruct (String.ltb a a) eqn:H; [|reflexivity].
  apply ltb_lt in H. exfalso. exact (String_as_OT.lt_not_eq _ _ H eq_refl).
Qed.

Lemma ltb_asym a b : String.ltb a b = true -> String.ltb b a = false.
Proof.
  intros Hab. destruct (String.ltb b a) eqn:Hba; [|reflexivity].
  pose proof (ltb_trans _ _ _ Hab Hba) as Haa.
  rewrite ltb_irrefl in Haa. discriminate.
Qed.

(** [b <= a] is [a = b] or [b < a]. *)
Lemma ltb_false_cases a b :
  String.ltb a b = false -> a = b \/ String.ltb b a = true.
Proof.
  unfold String.ltb. destruct (String.compare a b) eqn:Hc; intros H.
  - left. apply String.compare_eq_iff. exact Hc.
  - discriminate.
  - right. rewrite (String.compare_antisym b a), Hc. reflexivity.
Qed.

Lemma ltb_false_lt_trans a b c :
  String.ltb a b = false -> String.ltb a c = true -> String.ltb b c = true.
Proof.
  intros Hab Hac. destruct (ltb_false_cases _ _ Hab) as [->|Hba]; [exact Hac|].
  exact (ltb_trans _ _ _ Hba Hac).
Qed.

Lemma ltb_false_trans a b c :
  String.ltb b a = false -> String.ltb c b = false -> String.ltb c a = false.
Proof.
  intros Hba Hcb. destruct (String.ltb c a) eqn:Hca; [|reflexivity].
  pose proof (ltb_false_lt_trans _ _ _ Hcb Hca) as Hbc.
  congruence.
Qed.

Lemma ltb_empty_r a : String.ltb a "" = false.
Proof. destruct a; reflexivity. Qed.

Lemma gt_nonempty a b : str_gt a b = true -> or_else (Some a) epoch = a.
Proof.
  unfold str_gt. destruct a; [rewrite ltb_empty_r; discriminate|reflexivity].
Qed.

Lemma ltb_antisym_eq a b :
  String.ltb a b = false -> String.ltb b a = false -> a = b.
Proof.
  intros Hab Hba. destruct (ltb_false_cases _ _ Hab) as [->|H]; [reflexivity|].
  congruence.
Qed.

Lemma max_timestamp_upper l m :
  In m l -> String.ltb (max_timestamp l) (msg_timestamp m) = false.
Proof.
  induction l as [|x l IH]; [intros []|]. intros [->|Hin]; simpl.
  - destruct (String.ltb (max_timestamp l) (msg_timestamp m)) eqn:H;
      [apply ltb_irrefl|exact H].
  - destruct (String.ltb (max_timestamp l) (msg_timestamp x)) eqn:H;
      [|exact (IH Hin)].
    apply (ltb_false_trans _ (max_timestamp l)); [exact (IH Hin)|].
    apply ltb_asym. exact H.
Qed.

Lemma max_timestamp_attained l :
  l <> [] -> exists m, In m l /\ max_timestamp l = msg_timestamp m.
Proof.
  induction l as [|x l IH]; [congruence|]. intros _. simpl.
  destruct (String.ltb (max_timestamp l) (msg_timestamp x)) eqn:H.
  - exists x. split; [left; reflexivity|reflexivity].
  - destruct l as [|y l].
    + exists x. split; [left; reflexivity|]. simpl in *.
      destruct (msg_timestamp x); [reflexivity|discriminate].
    + destruct IH as (m & Hin & Hm); [discriminate|].
      exists m. split; [right; exact Hin|exact Hm].
Qed.

Lemma newest_last_max l newest :
  last l = Some newest -> newest_last l = true ->
  msg_timestamp newest = max_timestamp l.
Proof.
  intros Hlast Hnl. unfold newest_last in Hnl. rewrite Hlast in Hnl.
  rewrite forallb_forall in Hnl.
  assert (Hin : In newest l).
  { apply last_Some in Hlast as [l' ->]. apply in_or_app. right. left.
    reflexivity. }
  destruct (max_timestamp_attained l) as (m & Hm & Hmax).
  { intros ->. inversion Hin. }
  rewrite Hmax. apply ltb_antisym_eq.
  - specialize (Hnl m Hm). apply negb_true_iff in Hnl. exact Hnl.
  - rewrite <- Hmax. apply max_timestamp_upper. exact Hin.
Qed.

Lemma StronglySorted_filter {A} (R : A -> A -> Prop) (p : A -> bool) l :
  StronglySorted R l -> StronglySorted R (List.filter p l).
Proof.
  induction 1 as [|x l Hl IH Hx]; simpl; [constructor|].
  destruct (p x); [|exact IH].
  constructor; [exact IH|].
  rewrite List.Forall_forall in *. intros y Hy. apply Hx.
  apply filter_In in Hy. tauto.
Qed.

Lemma StronglySorted_last_bound (l : list Message) newest :
  StronglySorted
    (fun a b => String.ltb (msg_timestamp b) (msg_timestamp a) = false) l ->
  last l = Some newest ->
  forall m, In m l ->
    String.ltb (msg_timestamp newest) (msg_timestamp m) = false.
Proof.
  induction 1 as [|x l Hl IH Hx]; [discriminate|].
  intros Hlast m Hm. destruct l as [|y l].
  - simpl in Hlast. injection Hlast as <-. destruct Hm as [<-|[]].
    apply ltb_irrefl.
  - rewrite last_cons_cons in Hlast. destruct Hm as [<-|Hm].
    + rewrite List.Forall_forall in Hx. apply Hx.
      apply last_Some in Hlast as [l' Hl']. rewrite Hl'.
      apply in_or_app. right. left. reflexivity.
    + apply IH; assumption.
Qed.

Lemma nondecreasing_filter_newest_last (p : Message -> bool) l :
  nondecreasing l -> newest_last (List.filter p l) = true.
Proof.
  intros Hsorted. unfold newest_last.
  destruct (last (List.filter p l)) as [newest|] eqn:Hlast; [|reflexivity].
  apply forallb_forall. intros m Hm. apply negb_true_iff.
  apply (StronglySorted_last_bound (List.filter p l)); [|exact Hlast|exact Hm].
  apply StronglySorted_filter. apply Sorted_StronglySorted; [|exact Hsorted].
  intros a b c Hab Hbc. exact (ltb_false_trans _ _ _ Hab Hbc).
Qed.

(** ** The watermark after a pass *)

Lemma last_filter_gt (p : Message -> bool) wm l newest :
  last (List.filter (fun m => p m && str_gt (msg_timestamp m) wm) l) = Some newest ->
  str_gt (msg_timestamp newest) wm = true.
Proof.
  intros Hlast.
  assert (Hin : In newest (List.filter (fun m => p m && str_gt (msg_timestamp m) wm) l)).
  { apply last_Some in Hlast as [l' ->]. apply in_or_app. right. left.
    reflexivity. }
  apply filter_In in Hin as [_ Hin]. apply andb_true_iff in Hin. tauto.
Qed.

Lemma ChatSync_selected_gt w orderId newest :
  last (ChatSync_selected w orderId) = Some newest ->
  str_gt (msg_timestamp newest) (ChatSync_watermark w orderId) = true.
Proof.
  intros Hlast. apply (last_filter_gt (fun _ => true) _ (stored_messages w orderId)).
  exact Hlast.
Qed.

Lemma Bridge_selected_gt w orderId newest :
  last (Bridge_selected w orderId) = Some newest ->
  str_gt (msg_timestamp newest) (Bridge_watermark w orderId) = true.
Proof.
  intros Hlast.
  apply (last_filter_gt (fun m => String.eqb (msg_sender m) "driver") _
           (stored_messages w orderId)).
  exact Hlast.
Qed.

Lemma ChatSync_check_effect w orderId :
  let w' := exec (ChatSync._checkForNewMessages orderId) w in
  localStorage w' = localStorage w /\
  _onNewMessage (sync w') = _onNewMessage (sync w) /\
  bridge w' = bridge w /\
  match last (A:=Message) (ChatSync_selected w orderId) with
  | Some newest => ChatSync_watermark w' orderId = msg_timestamp newest
  | None => w' = w
  end.
Proof.
  intros w'. subst w'. unfold exec. rewrite ChatSync_check_run. simpl.
  destruct (last (ChatSync_selected w orderId)) as [newest|] eqn:Hlast;
    [|splits; reflexivity].
  apply ChatSync_selected_gt, gt_nonempty in Hlast.
  destruct (_onNewMessage (sync w)) eqn:Hreg;
    rewrite ?localStorage_emit_all, ?bridge_emit_all;
    unfold ChatSync_watermark; rewrite ?sync_emit_all; simpl;
    rewrite lookup_insert_eq; splits;
    first [reflexivity | exact Hlast | exact Hreg].
Qed.

Lemma Bridge_check_effect w orderId :
  clear_detected w orderId = false ->
  let w' := exec (ChatSyncBridge._checkForDriverMessages orderId) w in
  localStorage w' = localStorage w /\
  _onDriverMessage (bridge w') = _onDriverMessage (bridge w) /\
  Bridge_seenCount w' orderId = length (stored_messages w orderId) /\
  sync w' = sync w /\
  match last (A:=Message) (Bridge_selected w orderId) with
  | Some newest => Bridge_watermark w' orderId = msg_timestamp newest
  | None => Bridge_watermark w' orderId = Bridge_watermark w orderId
  end.
Proof.
  intros Hclear w'. subst w'. unfold exec.
  rewrite Bridge_check_run, Hclear. simpl.
  destruct (last (Bridge_selected w orderId)) as [newest|] eqn:Hlast.
  - apply Bridge_selected_gt, gt_nonempty in Hlast.
    destruct (_onDriverMessage (bridge w)) eqn:Hreg;
      rewrite ?localStorage_emit_all, ?sync_emit_all;
      unfold Bridge_watermark, Bridge_seenCount; rewrite ?bridge_emit_all; simpl;
      rewrite !lookup_insert_eq; splits;
      first [reflexivity | exact Hlast | exact Hreg].
  - unfold Bridge_seenCount. simpl. rewrite lookup_insert_eq.
    splits; reflexivity.
Qed.

(** C3, counterexample: with the later of two new messages stored first, the
    pass sets the watermark to the timestamp of the last selected message,
    which is not the greatest timestamp among the selected ones. *)
Lemma watermark_is_not_the_maximum :
  let w := exec out_of_order fresh_world in
  let w' := exec (ChatSync._checkForNewMessages "ORD-DEMO") w in
  length (ChatSync_selected w "ORD-DEMO") = 2 /\
  max_timestamp (ChatSync_selected w "ORD-DEMO") = T3 /\
  ChatSync_watermark w' "ORD-DEMO" = T2 /\
  ChatSync_watermark w' "ORD-DEMO"
    <> max_timestamp (ChatSync_selected w "ORD-DEMO").
Proof.
  cbv zeta. splits; try (vm_compute; reflexivity).
  vm_compute. discriminate.
Qed.

(** C3, as amended: a pass that selects some messages sets the watermark to
    the timestamp of the last selected message in stored order, in the
    driver-side channel and, when it detects no clear, in the customer-side
    channel.  That timestamp is the greatest among the selected messages
    whenever none of them is later than the last one, as is the case when
    stored timestamps never decrease. *)
Theorem watermark_advances_to_last_selected (w : World) (orderId : string) :
  (forall newest,
     last (ChatSync_selected w orderId) = Some newest ->
     let w' := exec (ChatSync._checkForNewMessages orderId) w in
     ChatSync_watermark w' orderId = msg_timestamp newest /\
     (newest_last (ChatSync_selected w orderId) = true ->
      ChatSync_watermark w' orderId
        = max_timestamp (ChatSync_selected w orderId))) /\
  (forall newest,
     clear_detected w orderId = false ->
     last (Bridge_selected w orderId) = Some newest ->
     let w' := exec (ChatSyncBridge._checkForDriverMessages orderId) w in
     Bridge_watermark w' orderId = msg_timestamp newest /\
     (newest_last (Bridge_selected w orderId) = true ->
      Bridge_watermark w' orderId
        = max_timestamp (Bridge_selected w orderId))) /\
  (nondecreasing (stored_messages w orderId) ->
   newest_last (ChatSync_selected w orderId) = true /\
   newest_last (Bridge_selected w orderId) = true).
Proof.
  splits.
  - intros newest Hlast w'.
    destruct (ChatSync_check_effect w orderId) as (_ & _ & _ & Hwm).
    fold w' in Hwm. rewrite Hlast in Hwm.
    split; [exact Hwm|].
    intros Hnl. rewrite Hwm. apply newest_last_max; assumption.
  - intros newest Hclear Hlast w'.
    destruct (Bridge_check_effect w orderId Hclear) as (_ & _ & _ & _ & Hwm).
    fold w' in Hwm. rewrite Hlast in Hwm.
    split; [exact Hwm|].
    intros Hnl. rewrite Hwm. apply newest_last_max; assumption.
  - intros Hsorted. split; apply nondecreasing_filter_newest_last; exact Hsorted.
Qed.

(** Both pages listen and the driver has sent two messages: each pass selects
    both, and moves the watermark to the timestamp of the second, the later
    of the two. *)
Lemma watermark_advances_to_last_selected_witness :
  let w := exec two_driver_messages fresh_world in
  let d1 := ChatSync.enrich None (text_message "d1" "driver" T1) in
  let d2 := ChatSync.enrich None (text_message "d2" "driver" T2) in
  ChatSync_selected w "ORD-DEMO" = [d1; d2] /\
  Bridge_selected w "ORD-DEMO" = [d1; d2] /\
  last (ChatSync_selected w "ORD-DEMO") = Some d2 /\
  newest_last (ChatSync_selected w "ORD-DEMO") = true /\
  clear_detected w "ORD-DEMO" = false /\
  last (Bridge_selected w "ORD-DEMO") = Some d2 /\
  newest_last (Bridge_selected w "ORD-DEMO") = true /\
  nondecreasing (stored_messages w "ORD-DEMO") /\
  ChatSync_watermark (exec (ChatSync._checkForNewMessages "ORD-DEMO") w)
    "ORD-DEMO" = T2 /\
  ChatSync_watermark (exec (ChatSync._checkForNewMessages "ORD-DEMO") w)
    "ORD-DEMO" = max_timestamp (ChatSync_selected w "ORD-DEMO") /\
  Bridge_watermark (exec (ChatSyncBridge._checkForDriverMessages "ORD-DEMO") w)
    "ORD-DEMO" = T2 /\
  Bridge_watermark (exec (ChatSyncBridge._checkForDriverMessages "ORD-DEMO") w)
    "ORD-DEMO" = max_timestamp (Bridge_selected w "ORD-DEMO").
Proof.
  intros w d1 d2.
  assert (S1 : ChatSync_selected w "ORD-DEMO" = [d1; d2])
    by (vm_compute; reflexivity).
  assert (S2 : Bridge_selected w "ORD-DEMO" = [d1; d2])
    by (vm_compute; reflexivity).
  assert (H1 : last (ChatSync_selected w "ORD-DEMO") = Some d2)
    by (vm_compute; reflexivity).
  assert (H2 : newest_last (ChatSync_selected w "ORD-DEMO") = true)
    by (vm_compute; reflexivity).
  assert (H3 : clear_detected w "ORD-DEMO" = false)
    by (vm_compute; reflexivity).
  assert (H4 : last (Bridge_selected w "ORD-DEMO") = Some d2)
    by (vm_compute; reflexivity).
  assert (H5 : newest_last (Bridge_selected w "ORD-DEMO") = true)
    by (vm_compute; reflexivity).
  assert (H6 : nondecreasing (stored_messages w "ORD-DEMO"))
    by (vm_compute; repeat constructor).
  destruct (watermark_advances_to_last_selected w "ORD-DEMO") as (Hd & Hc & _).
  splits; try assumption.
  - exact (proj1 (Hd d2 H1)).
  - exact (proj2 (Hd d2 H1) H2).
  - exact (proj1 (Hc d2 H3 H4)).
  - exact (proj2 (Hc d2 H3 H4) H5).
Defined.

(** ** Quiescence *)

Lemma filter_none {A} (p : A -> bool) l :
  (forall x, In x l -> p x = false) -> List.filter p l = [].
Proof.
  induction l as [|x l IH]; [reflexivity|]. intros H. simpl.
  rewrite (H x (or_introl eq_refl)). apply IH. intros y Hy. apply H.
  right. exact Hy.
Qed.

(** Once the watermark is the timestamp of the last selected message, and no
    selected message is later than it, nothing is left to select. *)
Lemma nothing_after_newest (p : Message -> bool) wm msgs newest :
  let sel := List.filter (fun m => p m && str_gt (msg_timestamp m) wm) msgs in
  last sel = Some newest ->
  newest_last sel = true ->
  List.filter (fun m => p m && str_gt (msg_timestamp m) (msg_timestamp newest)) msgs
    = [].
Proof.
  intros sel Hlast Hnl. apply filter_none. intros m Hm.
  pose proof (last_filter_gt p wm msgs newest Hlast) as Hnew.
  unfold newest_last in Hnl. fold sel in Hlast. rewrite Hlast in Hnl.
  rewrite forallb_forall in Hnl.
  destruct (p m) eqn:Hp; [simpl|reflexivity].
  destruct (str_gt (msg_timestamp m) wm) eqn:Hgt.
  - assert (Hsel : In m sel).
    { unfold sel. apply filter_In. split; [exact Hm|]. rewrite Hp, Hgt.
      reflexivity. }
    specialize (Hnl m Hsel). apply negb_true_iff in Hnl. exact Hnl.
  - unfold str_gt in *.
    destruct (String.ltb (msg_timestamp newest) (msg_timestamp m)) eqn:Hlt;
      [|reflexivity].
    rewrite (ltb_trans _ _ _ Hnew Hlt) in Hgt. discriminate.
Qed.

(** C5, counterexample: with the later of two new messages stored first, the
    pass that follows a delivering pass, with no write in between, delivers
    the first message again. *)
Lemma second_pass_redelivers :
  let w := exec out_of_order fresh_world in
  let w1 := exec (ChatSync._checkForNewMessages "ORD-DEMO") w in
  let w2 := exec (ChatSync._checkForNewMessages "ORD-DEMO") w1 in
  let c1 := ChatSync.enrich None (text_message "c1" "customer" T3) in
  let c2 := ChatSync.enrich None (text_message "c2" "customer" T2) in
  trace w1 = [NewMessage c1; NewMessage c2] /\
  localStorage w1 = localStorage w /\
  trace w2 = [NewMessage c1; NewMessage c2; NewMessage c1].
Proof. cbv zeta. splits; vm_compute; reflexivity. Qed.

(** C5, as amended: when no message selected by a pass is later than the last
    selected one (as when stored timestamps never decrease), the pass that
    follows it with no write in between delivers nothing; for the
    customer-side channel, provided the first pass detected no clear. *)
Theorem second_pass_delivers_nothing (w : World) (orderId : string) :
  (newest_last (ChatSync_selected w orderId) = true ->
   let w1 := exec (ChatSync._checkForNewMessages orderId) w in
   trace (exec (ChatSync._checkForNewMessages orderId) w1) = trace w1) /\
  (clear_detected w orderId = false ->
   newest_last (Bridge_selected w orderId) = true ->
   let w1 := exec (ChatSyncBridge._checkForDriverMessages orderId) w in
   trace (exec (ChatSyncBridge._checkForDriverMessages orderId) w1) = trace w1) /\
  (nondecreasing (stored_messages w orderId) ->
   newest_last (ChatSync_selected w orderId) = true /\
   newest_last (Bridge_selected w orderId) = true).
Proof.
  splits.
  - intros Hnl w1.
    destruct (ChatSync_check_effect w orderId) as (Hls & Hreg & _ & Hwm).
    fold w1 in Hls, Hreg, Hwm.
    destruct (last (ChatSync_selected w orderId)) as [newest|] eqn:Hlast.
    + rewrite ChatSync_check_trace.
      assert (Hsel : ChatSync_selected w1 orderId = []).
      { unfold ChatSync_selected. rewrite Hwm.
        unfold stored_messages, stored_chats. rewrite Hls.
        fold (stored_chats w). fold (stored_messages w orderId).
        apply (nothing_after_newest (fun _ => true)
                 (ChatSync_watermark w orderId)); assumption. }
      rewrite Hsel. destruct (_onNewMessage (sync w1)); apply app_nil_r.
    + rewrite Hwm. rewrite ChatSync_check_trace.
      apply last_None in Hlast. rewrite Hlast.
      destruct (_onNewMessage (sync w)); apply app_nil_r.
  - intros Hclear Hnl w1.
    destruct (Bridge_check_effect w orderId Hclear)
      as (Hls & Hreg & Hcount & _ & Hwm).
    fold w1 in Hls, Hreg, Hcount, Hwm.
    assert (Hmsgs : stored_messages w1 orderId = stored_messages w orderId).
    { unfold stored_messages, stored_chats. rewrite Hls. reflexivity. }
    assert (Hnoclear : clear_detected w1 orderId = false).
    { unfold clear_detected. rewrite Hcount, Hmsgs. apply Nat.ltb_irrefl. }
    rewrite Bridge_check_trace, Hnoclear.
    assert (Hsel : Bridge_selected w1 orderId = []).
    { unfold Bridge_selected. rewrite Hmsgs.
      destruct (last (Bridge_selected w orderId)) as [newest|] eqn:Hlast.
      - rewrite Hwm.
        apply (nothing_after_newest
                 (fun m => String.eqb (msg_sender m) "driver")
                 (Bridge_watermark w orderId)); assumption.
      - rewrite Hwm. apply last_None in Hlast. exact Hlast. }
    rewrite Hsel. destruct (_onDriverMessage (bridge w1)); apply app_nil_r.
  - intros Hsorted. split; apply nondecreasing_filter_newest_last; exact Hsorted.
Qed.

(** Both pages listen and the driver has sent one message. *)
Lemma second_pass_delivers_nothing_witness :
  let w := exec both_listening fresh_world in
  let w1 := exec (ChatSync._checkForNewMessages "ORD-DEMO") w in
  let b1 := exec (ChatSyncBridge._checkForDriverMessages "ORD-DEMO") w in
  nondecreasing (stored_messages w "ORD-DEMO") /\
  clear_detected w "ORD-DEMO" = false /\
  trace w1 <> trace w /\
  trace (exec (ChatSync._checkForNewMessages "ORD-DEMO") w1) = trace w1 /\
  trace (exec (ChatSyncBridge._checkForDriverMessages "ORD-DEMO") b1) = trace b1.
Proof.
  intros w w1 b1.
  assert (Hs : nondecreasing (stored_messages w "ORD-DEMO"))
    by (vm_compute; repeat constructor).
  assert (Hc : clear_detected w "ORD-DEMO" = false) by (vm_compute; reflexivity).
  destruct (second_pass_delivers_nothing w "ORD-DEMO") as (Hd & Hb & Hnl).
  destruct (Hnl Hs) as [Hnd Hnb].
  splits.
  - exact Hs.
  - exact Hc.
  - vm_compute. discriminate.
  - exact (Hd Hnd).
  - exact (Hb Hc Hnb).
Defined.

(** ** Delivery order *)

Lemma ChatSync_init_effect w orderId f :
  let w' := exec (ChatSync.init orderId f) w in
  eval (ChatSync.init orderId f) w = Ok tt /\
  localStorage w' = localStorage w /\
  _onNewMessage (sync w') = f /\
  ChatSync_watermark w' orderId =
    or_else (Some (last_timestamp (stored_messages w orderId))) epoch /\
  bridge w' = bridge w /\ trace w' = trace w /\ currentUser w' = currentUser w.
Proof.
  intros w'. subst w'. unfold eval, exec, ChatSync.init. step.
  unfold modify. simpl. unfold ChatSync_watermark. simpl.
  rewrite lookup_insert_eq. splits; reflexivity.
Qed.

Lemma StronglySorted_remove {A} (R : A -> A -> Prop) l1 x l2 :
  StronglySorted R (l1 ++ x :: l2) -> StronglySorted R (l1 ++ l2).
Proof.
  induction l1 as [|y l1 IH]; simpl; intros H; inversion H; subst.
  - assumption.
  - constructor; [apply IH; assumption|].
    rewrite List.Forall_forall in *. intros z Hz. apply H3.
    apply in_app_or in Hz as [Hz|Hz]; apply in_or_app; [left|right; right];
      exact Hz.
Qed.

Lemma StronglySorted_fold_append_once (R : Message -> Message -> Prop) l :
  forall acc,
    StronglySorted R (acc ++ l) ->
    StronglySorted R (fold_left append_once l acc).
Proof.
  induction l as [|m l IH]; intros acc H; simpl.
  - rewrite app_nil_r in H. exact H.
  - apply IH. unfold append_once. destruct (has_id (msg_id m) acc).
    + exact (StronglySorted_remove R acc m l H).
    + rewrite <- app_assoc. exact H.
Qed.

Lemma StronglySorted_map_enrich user l :
  StronglySorted
    (fun a b => String.ltb (msg_timestamp a) (msg_timestamp b) = true) l ->
  StronglySorted
    (fun a b => String.ltb (msg_timestamp a) (msg_timestamp b) = true)
    (map (ChatSync.enrich user) l).
Proof.
  induction 1 as [|x l Hl IH Hx]; simpl; constructor; [exact IH|].
  rewrite List.Forall_forall in *. intros y Hy.
  apply in_map_iff in Hy as (z & <- & Hz). exact (Hx z Hz).
Qed.

Lemma has_id_false id l : ~ In id (map msg_id l) -> has_id id l = false.
Proof.
  intros Hnot. unfold has_id.
  destruct (existsb (fun m => String.eqb (msg_id m) id) l) eqn:H; [|reflexivity].
  apply existsb_exists in H as (m & Hm & Heq). apply String.eqb_eq in Heq.
  exfalso. apply Hnot. apply in_map_iff. exists m. split; assumption.
Qed.

Lemma fold_append_once_distinct l : forall acc,
  List.NoDup (map msg_id (acc ++ l)) -> fold_left append_once l acc = acc ++ l.
Proof.
  induction l as [|m l IH]; intros acc H; simpl.
  - symmetry. apply app_nil_r.
  - unfold append_once. rewrite has_id_false.
    + rewrite IH; rewrite <- app_assoc; [reflexivity|exact H].
    + rewrite map_app in H. simpl in H. apply List.NoDup_remove_2 in H.
      intros Hin. apply H. apply in_or_app. left. exact Hin.
Qed.

Lemma filter_all {A} (p : A -> bool) l :
  Forall (fun x => p x = true) l -> List.filter p l = l.
Proof.
  induction 1 as [|x l Hx _ IH]; [reflexivity|]. simpl. rewrite Hx, IH.
  reflexivity.
Qed.

(** C6: a listener is initialised on an empty conversation of a store that
    takes writes, and messages with strictly increasing timestamps are then
    appended.  The next pass calls the listener once for each selected
    message and for nothing else, the calls being in stored order, which is
    strictly ascending timestamp order; the selected messages are the stored
    ones later than the epoch, and they are all the appended messages when
    those have distinct ids and timestamps later than the epoch. *)
Theorem ascending_appends_delivered_in_order
    (w : World) (orderId : string) (msgs : list Message) :
  healthy w ->
  stored_messages w orderId = [] ->
  ascending msgs ->
  let w1 := exec (ChatSync.init orderId true) w in
  let w2 := exec (sendAll orderId msgs) w1 in
  let w3 := exec (ChatSync._checkForNewMessages orderId) w2 in
  let delivered := ChatSync_selected w2 orderId in
  trace w3 = trace w ++ map NewMessage delivered /\
  StronglySorted
    (fun a b => String.ltb (msg_timestamp a) (msg_timestamp b) = true)
    delivered /\
  (forall m, In m delivered <->
     In m (stored_messages w2 orderId) /\ str_gt (msg_timestamp m) epoch = true) /\
  (List.NoDup (map msg_id msgs) ->
   Forall (fun m => str_gt (msg_timestamp m) epoch = true) msgs ->
   delivered = map (ChatSync.enrich (currentUser w)) msgs).
Proof.
  intros Hw Hempty Hasc w1 w2 w3 delivered.
  destruct (ChatSync_init_effect w orderId true)
    as (_ & Hls1 & Hreg1 & Hwm1 & _ & Htr1 & Hu1).
  fold w1 in Hls1, Hreg1, Hwm1, Htr1, Hu1.
  assert (Hw1 : healthy w1) by (unfold healthy; rewrite Hls1; exact Hw).
  assert (Hm1 : stored_messages w1 orderId = []).
  { unfold stored_messages, stored_chats. rewrite Hls1. exact Hempty. }
  rewrite Hempty in Hwm1. change (or_else (Some (last_timestamp [])) epoch)
    with epoch in Hwm1.
  destruct (sendAll_effect orderId msgs w1 Hw1)
    as (_ & _ & Hm2 & _ & Hs2 & _ & Htr2).
  fold w2 in Hm2, Hs2, Htr2. rewrite Hm1, Hu1 in Hm2.
  assert (Hwm2 : ChatSync_watermark w2 orderId = epoch).
  { unfold ChatSync_watermark. rewrite Hs2. exact Hwm1. }
  assert (Hdel : delivered =
            List.filter (fun m => str_gt (msg_timestamp m) epoch)
              (stored_messages w2 orderId)).
  { unfold delivered, ChatSync_selected. rewrite Hwm2. reflexivity. }
  splits.
  - unfold w3. rewrite ChatSync_check_trace, Hs2, Hreg1, Htr2, Htr1.
    reflexivity.
  - rewrite Hdel, Hm2. apply StronglySorted_filter.
    apply StronglySorted_fold_append_once. simpl.
    apply StronglySorted_map_enrich.
    apply Sorted_StronglySorted; [|exact Hasc].
    intros a b c Hab Hbc. exact (ltb_trans _ _ _ Hab Hbc).
  - intros m. rewrite Hdel, filter_In. reflexivity.
  - intros Hnodup Hlate. rewrite Hdel, Hm2.
    rewrite fold_append_once_distinct.
    + simpl. apply filter_all. rewrite List.Forall_forall in *.
      intros m Hm. apply in_map_iff in Hm as (m0 & <- & Hm0).
      exact (Hlate m0 Hm0).
    + simpl. rewrite map_map. exact Hnodup.
Qed.

(** Three messages with increasing timestamps on a page that has just
    loaded. *)
Lemma ascending_appends_delivered_in_order_witness :
  let msgs := [text_message "m1" "customer" T1; text_message "m2" "customer" T2;
               text_message "m3" "customer" T3] in
  let w1 := exec (ChatSync.init "ORD-DEMO" true) fresh_world in
  let w2 := exec (sendAll "ORD-DEMO" msgs) w1 in
  let w3 := exec (ChatSync._checkForNewMessages "ORD-DEMO") w2 in
  healthy fresh_world /\
  stored_messages fresh_world "ORD-DEMO" = [] /\
  ascending msgs /\
  trace w3 =
    trace fresh_world ++
      map NewMessage (map (ChatSync.enrich (currentUser fresh_world)) msgs).
Proof.
  intros msgs w1 w2 w3.
  assert (Hw : healthy fresh_world) by (split; reflexivity).
  assert (He : stored_messages fresh_world "ORD-DEMO" = []) by reflexivity.
  assert (Ha : ascending msgs) by (repeat constructor).
  splits; [exact Hw|exact He|exact Ha|].
  destruct (ascending_appends_delivered_in_order fresh_world "ORD-DEMO" msgs
              Hw He Ha) as (Htrace & _ & _ & Hall).
  fold w1 w2 w3 in Htrace, Hall.
  rewrite Hall in Htrace.
  - exact Htrace.
  - repeat constructor; simpl; intuition discriminate.
  - repeat constructor.
Defined.

(** * Further properties of the storage module, the channels and the API *)

(** ** The unread counters of the storage module *)

Lemma Storage_getUnreadCount_run w orderId :
  Storage.getUnreadCount orderId w = (Ok (unread_count w orderId), w).
Proof. unfold Storage.getUnreadCount. step. reflexivity. Qed.

Lemma Storage_getMessages_run w orderId :
  Storage.getMessages orderId w = (Ok (stored_messages w orderId), w).
Proof. unfold Storage.getMessages. step. reflexivity. Qed.

Lemma ChatSync_getMessages_run w orderId :
  ChatSync.getMessages orderId w = (Ok (stored_messages w orderId), w).
Proof. unfold ChatSync.getMessages. step. reflexivity. Qed.

Lemma Storage_incrementUnread_run w orderId :
  Storage.incrementUnread orderId w =
    if write_fails w then (Ok false, w)
    else (Ok true,
          write_unread (<[orderId := unread_count w orderId + 1]> (stored_unread w)) w).
Proof.
  unfold Storage.incrementUnread. rewrite bind_Storage_getUnread.
  unfold Storage.setUnread. rewrite safeSet_run. reflexivity.
Qed.

Lemma Storage_clearUnread_run w orderId :
  Storage.clearUnread orderId w =
    if write_fails w then (Ok false, w)
    else (Ok true, write_unread (delete orderId (stored_unread w)) w).
Proof.
  unfold Storage.clearUnread. rewrite bind_Storage_getUnread.
  unfold Storage.setUnread. rewrite safeSet_run. reflexivity.
Qed.

Lemma healthy_write_fails w : healthy w <-> write_fails w = false.
Proof.
  unfold healthy, write_fails. rewrite orb_false_iff. reflexivity.
Qed.

(** X1: The counter of the storage module: an increment adds one to the count of
    its order and a clear resets it to 0, each leaving the counts of the other
    orders and the conversations as they were and returning [true]; when the
    write fails each returns [false] and changes nothing. *)
Theorem Storage_unread_counter (w : World) (orderId : string) :
  (healthy w ->
   let w1 := exec (Storage.incrementUnread orderId) w in
   let w2 := exec (Storage.clearUnread orderId) w in
   eval (Storage.incrementUnread orderId) w = Ok true /\
   eval (Storage.getUnreadCount orderId) w1 = Ok (unread_count w orderId + 1) /\
   eval (Storage.clearUnread orderId) w = Ok true /\
   eval (Storage.getUnreadCount orderId) w2 = Ok 0 /\
   (forall other, other <> orderId ->
      unread_count w1 other = unread_count w other /\
      unread_count w2 other = unread_count w other) /\
   stored_chats w1 = stored_chats w /\ stored_chats w2 = stored_chats w) /\
  (write_fails w = true ->
   Storage.incrementUnread orderId w = (Ok false, w) /\
   Storage.clearUnread orderId w = (Ok false, w)).
Proof.
  split.
  - intros Hw w1 w2. subst w1 w2. unfold eval, exec.
    rewrite !Storage_getUnreadCount_run, Storage_incrementUnread_run,
      Storage_clearUnread_run.
    rewrite (proj1 (healthy_write_fails w) Hw). simpl fst; simpl snd.
    unfold unread_count. autorewrite with world.
    rewrite lookup_insert_eq, lookup_delete_eq.
    splits; try reflexivity.
    intros other Hne.
    rewrite lookup_insert_ne, lookup_delete_ne by congruence.
    split; reflexivity.
  - intros Hfail.
    rewrite Storage_incrementUnread_run, Storage_clearUnread_run, Hfail.
    split; reflexivity.
Qed.

(** On a page that has just loaded, and with the quota exhausted. *)
Lemma Storage_unread_counter_witness :
  healthy fresh_world /\
  write_fails full_world = true /\
  eval (Storage.getUnreadCount "ORD-DEMO")
    (exec (Storage.incrementUnread "ORD-DEMO") fresh_world) = Ok 1 /\
  Storage.incrementUnread "ORD-DEMO" full_world = (Ok false, full_world).
Proof.
  assert (Hw : healthy fresh_world) by (split; reflexivity).
  assert (Hf : write_fails full_world = true) by reflexivity.
  split; [exact Hw|]. split; [exact Hf|].
  destruct (Storage_unread_counter fresh_world "ORD-DEMO") as [Hok _].
  destruct (Storage_unread_counter full_world "ORD-DEMO") as [_ Hbad].
  destruct (Hok Hw) as (_ & Hcount & _).
  split; [exact Hcount|]. exact (proj1 (Hbad Hf)).
Defined.

(** ** What [addMessage] returns, and [remove] *)

Lemma write_fails_tick w : write_fails (tick w) = write_fails w.
Proof. reflexivity. Qed.

Lemma Storage_setChats_fails chats w :
  write_fails w = true -> Storage.setChats chats w = (Ok false, w).
Proof.
  intros Hfail. unfold Storage.setChats. rewrite safeSet_run, Hfail.
  reflexivity.
Qed.

(** X2: [addMessage] returns [true] exactly when it has stored a new message:
    on a store that takes writes it returns [false] for an id already in the
    conversation and [true] otherwise, and the message is then read back by
    [getMessages]; when the write fails it returns [false] as well, with
    nothing stored. *)
Theorem Storage_addMessage_result (w : World) (orderId : string) (msg : Message) :
  (healthy w ->
   let w' := exec (Storage.addMessage orderId msg) w in
   eval (Storage.addMessage orderId msg) w
     = Ok (negb (has_id (msg_id msg) (stored_messages w orderId))) /\
   eval (Storage.getMessages orderId) w'
     = Ok (append_once (stored_messages w orderId) msg) /\
   has_id (msg_id msg) (stored_messages w' orderId) = true) /\
  (write_fails w = true ->
   eval (Storage.addMessage orderId msg) w = Ok false /\
   localStorage (exec (Storage.addMessage orderId msg) w) = localStorage w).
Proof.
  split.
  - intros Hw w'.
    destruct (Storage_addMessage_effect w orderId msg Hw) as (Hev & _ & Hm & _).
    fold w' in Hm. splits.
    + exact Hev.
    + unfold eval. rewrite Storage_getMessages_run. simpl. rewrite Hm.
      reflexivity.
    + rewrite Hm. apply has_id_append_once.
  - intros Hfail. unfold eval, exec, Storage.addMessage.
    rewrite bind_Storage_getChats.
    destruct (stored_chats w !! orderId) as [c|].
    + rewrite bind_ret.
      destruct (has_id (msg_id msg) (chat_messages c)); [split; reflexivity|].
      rewrite Storage_setChats_fails by exact Hfail. split; reflexivity.
    + rewrite bind_new_chat. cbn [chat_messages has_id existsb]. cbv iota.
      rewrite Storage_setChats_fails by exact Hfail. split; reflexivity.
Qed.

(** A new message on a page that has just loaded, and with the quota
    exhausted. *)
Lemma Storage_addMessage_result_witness :
  healthy fresh_world /\
  write_fails full_world = true /\
  eval (Storage.addMessage "ORD-DEMO" (text_message "m1" "customer" T1)) fresh_world
    = Ok true /\
  eval (Storage.addMessage "ORD-DEMO" (text_message "m1" "customer" T1)) full_world
    = Ok false.
Proof.
  assert (Hw : healthy fresh_world) by (split; reflexivity).
  assert (Hf : write_fails full_world = true) by reflexivity.
  split; [exact Hw|]. split; [exact Hf|].
  destruct (Storage_addMessage_result fresh_world "ORD-DEMO"
              (text_message "m1" "customer" T1)) as [Hok _].
  destruct (Storage_addMessage_result full_world "ORD-DEMO"
              (text_message "m1" "customer" T1)) as [_ Hbad].
  split; [exact (proj1 (Hok Hw))|exact (proj1 (Hbad Hf))].
Defined.

Lemma safeRemove_run w key :
  Storage._safeRemove key w =
    if denied (localStorage w) then (Ok false, w)
    else (Ok true, set_localStorage (drop_text key (localStorage w)) w).
Proof.
  unfold Storage._safeRemove, try_catch, bind, removeItem.
  destruct (denied (localStorage w)); reflexivity.
Qed.

Lemma text_at_drop_text_ne (key other : Key) ls :
  other <> key -> text_at other (drop_text key ls) = text_at other ls.
Proof.
  intros Hne. destruct key as [| |name], other as [| |name']; simpl;
    try reflexivity; try congruence.
  apply lookup_delete_ne. congruence.
Qed.

Lemma text_at_drop_text_eq (key : Key) ls : text_at key (drop_text key ls) = None.
Proof. destruct key as [| |name]; simpl; try reflexivity. apply lookup_delete_eq. Qed.

Lemma denied_drop_text (key : Key) ls : denied (drop_text key ls) = denied ls.
Proof. destruct key; reflexivity. Qed.

(** X3: [remove] never raises.  Unless access to the store is denied it returns
    [true], also when the quota is exhausted, and afterwards [get] of the key
    returns [null] while [get] of any other key returns what it returned
    before; when access is denied it returns [false] and changes nothing. *)
Theorem Storage_remove_then_get (w : World) (key other : Key) :
  (denied (localStorage w) = false ->
   let w' := exec (Storage.remove key) w in
   eval (Storage.remove key) w = Ok true /\
   eval (Storage.get key) w' = Ok None /\
   (other <> key -> eval (Storage.get other) w' = eval (Storage.get other) w)) /\
  (denied (localStorage w) = true ->
   Storage.remove key w = (Ok false, w)).
Proof.
  unfold Storage.remove, Storage.get, eval, exec. split.
  - intros Hd. rewrite safeRemove_run, Hd. simpl fst; simpl snd.
    rewrite !safeGet_run. simpl fst.
    cbn [localStorage set_localStorage].
    rewrite denied_drop_text, Hd, text_at_drop_text_eq.
    splits; try reflexivity.
    intros Hne. rewrite text_at_drop_text_ne by exact Hne. reflexivity.
  - intros Hd. rewrite safeRemove_run, Hd. reflexivity.
Qed.

(** Removing the stored conversations with the quota exhausted. *)
Lemma Storage_remove_then_get_witness :
  denied (localStorage full_world) = false /\
  UNREAD <> CHATS /\
  eval (Storage.remove CHATS) full_world = Ok true /\
  eval (Storage.get CHATS) (exec (Storage.remove CHATS) full_world) = Ok None.
Proof.
  assert (Hd : denied (localStorage full_world) = false) by reflexivity.
  split; [exact Hd|]. split; [discriminate|].
  destruct (Storage_remove_then_get full_world CHATS UNREAD) as [Hok _].
  destruct (Hok Hd) as (Hrem & Hget & _).
  split; [exact Hrem|exact Hget].
Defined.

(** ** The conversation record kept by [sendMessage] *)

Lemma ChatSync_sendMessage_record w orderId msg :
  healthy w ->
  let m := ChatSync.enrich (currentUser w) msg in
  let c :=
    default
      {| chat_orderId := orderId; chat_customerId := None;
         chat_driverId := None; chat_messages := [];
         chat_createdAt := clock w (ticks w);
         chat_lastMessageTime := clock w (S (ticks w)) |}
      (stored_chats w !! orderId) in
  stored_chats (exec (ChatSync.sendMessage orderId msg) w) !! orderId =
    Some (if has_id (msg_id msg) (chat_messages c) then c else push_message c m).
Proof.
  intros Hw m c. subst m c.
  unfold exec, ChatSync.sendMessage. step.
  change (msg_sender (ChatSync.enrich (currentUser w) msg)) with (msg_sender msg).
  change (msg_id (ChatSync.enrich (currentUser w) msg)) with (msg_id msg).
  destruct (stored_chats w !! orderId) as [c|] eqn:Hc;
    destruct (String.eqb (msg_sender msg) "driver") eqn:Hs; simpl negb; cbv iota;
    step; simpl snd; autorewrite with world; auto with healthy.
  all: rewrite lookup_insert_eq; reflexivity.
Qed.

(** X4: What [sendMessage] keeps in the record of a conversation, on a store that
    takes writes.  For an order without a record it creates one, with the
    order id, the clock reading of the call as [createdAt], the message as its
    only message and the timestamp of the message, not the clock, as
    [lastMessageTime].  For an order with a record it appends a message with
    a new id and sets [lastMessageTime] to its timestamp, keeping the other
    fields, and leaves the record as it is for an id already there.  The
    stored message is the one sent, with the name and e-mail of the session
    filled in where the message carries none. *)
Theorem sendMessage_bookkeeping (w : World) (orderId : string) (msg : Message) :
  healthy w ->
  let m := ChatSync.enrich (currentUser w) msg in
  let w' := exec (ChatSync.sendMessage orderId msg) w in
  (stored_chats w !! orderId = None ->
   stored_chats w' !! orderId =
     Some {| chat_orderId := orderId; chat_customerId := None;
             chat_driverId := None; chat_messages := [m];
             chat_createdAt := clock w (ticks w);
             chat_lastMessageTime := msg_timestamp msg |}) /\
  (forall c, stored_chats w !! orderId = Some c ->
     stored_chats w' !! orderId =
       Some (if has_id (msg_id msg) (chat_messages c) then c
             else {| chat_orderId := chat_orderId c;
                     chat_customerId := chat_customerId c;
                     chat_driverId := chat_driverId c;
                     chat_messages := chat_messages c ++ [m];
                     chat_createdAt := chat_createdAt c;
                     chat_lastMessageTime := msg_timestamp msg |})) /\
  eval (ChatSync.getMessages orderId) w'
    = Ok (append_once (stored_messages w orderId) m) /\
  (msg_id m, msg_sender m, msg_type m, msg_content m, msg_timestamp m, msg_read m)
    = (msg_id msg, msg_sender msg, msg_type msg, msg_content msg,
       msg_timestamp msg, msg_read msg) /\
  (forall name, msg_senderName msg = Some name -> msg_senderName m = Some name) /\
  (msg_senderName msg = None -> currentUser w = None ->
   msg_senderName m = Some "Guest").
Proof.
  intros Hw m w'.
  pose proof (ChatSync_sendMessage_record w orderId msg Hw) as Hrec.
  cbv zeta in Hrec. fold w' in Hrec.
  destruct (ChatSync_sendMessage_effect w orderId msg Hw) as (_ & _ & Hm & _).
  fold w' in Hm. splits.
  - intros Hnone. rewrite Hrec, Hnone. reflexivity.
  - intros c Hc. rewrite Hrec, Hc. reflexivity.
  - unfold eval. rewrite ChatSync_getMessages_run. simpl. rewrite Hm.
    reflexivity.
  - reflexivity.
  - intros name Hname. subst m. simpl. rewrite Hname. reflexivity.
  - intros Hnone Huser. subst m. simpl. rewrite Hnone, Huser. reflexivity.
Qed.

(** The first message of a conversation, on a page that has just loaded. *)
Lemma sendMessage_bookkeeping_witness :
  let msg := text_message "m1" "customer" T1 in
  let w' := exec (ChatSync.sendMessage "ORD-DEMO" msg) fresh_world in
  healthy fresh_world /\
  stored_chats fresh_world !! "ORD-DEMO" = None /\
  stored_chats w' !! "ORD-DEMO" =
    Some {| chat_orderId := "ORD-DEMO"; chat_customerId := None;
            chat_driverId := None;
            chat_messages := [ChatSync.enrich (currentUser fresh_world) msg];
            chat_createdAt := clock fresh_world (ticks fresh_world);
            chat_lastMessageTime := msg_timestamp msg |}.
Proof.
  intros msg w'.
  assert (Hw : healthy fresh_world) by (split; reflexivity).
  assert (Hn : stored_chats fresh_world !! "ORD-DEMO" = None) by reflexivity.
  split; [exact Hw|]. split; [exact Hn|].
  exact (proj1 (sendMessage_bookkeeping fresh_world "ORD-DEMO" msg Hw) Hn).
Defined.

(** ** Other orders are left alone *)

(** X5: On a store that takes writes, a send, a history deletion and a
    mark-all-read for one order leave the conversation and the unread count of
    every other order as they were. *)
Theorem other_orders_untouched
    (w : World) (orderId other : string) (msg : Message) :
  healthy w ->
  other <> orderId ->
  let unchanged w' :=
    stored_chats w' !! other = stored_chats w !! other /\
    unread_count w' other = unread_count w other in
  unchanged (exec (ChatSync.sendMessage orderId msg) w) /\
  unchanged (exec (ChatSync.deleteChatHistory orderId) w) /\
  unchanged (exec (ChatSync.markAllRead orderId) w).
Proof.
  intros Hw Hne unchanged. subst unchanged. cbv beta. splits.
  - destruct (ChatSync_sendMessage_effect w orderId msg Hw)
      as (_ & _ & _ & Hc & Hu & _). apply Hc. exact Hne.
  - destruct (ChatSync_sendMessage_effect w orderId msg Hw)
      as (_ & _ & _ & _ & Hu & _).
    unfold unread_count at 1. rewrite Hu.
    destruct (String.eqb (msg_sender msg) "driver"); [reflexivity|].
    rewrite lookup_insert_ne by congruence. reflexivity.
  - destruct (ChatSync_deleteChatHistory_effect w orderId Hw)
      as (_ & _ & (_ & _ & Hc) & _). apply Hc. exact Hne.
  - destruct (ChatSync_deleteChatHistory_effect w orderId Hw)
      as (_ & _ & _ & Hu & _).
    unfold unread_count. rewrite Hu. reflexivity.
  - destruct (ChatSync_markAllRead_effect w orderId Hw) as (_ & _ & Hc).
    rewrite Hc. reflexivity.
  - destruct (ChatSync_markAllRead_effect w orderId Hw) as (_ & Hu & _).
    unfold unread_count. rewrite Hu, lookup_delete_ne by congruence.
    reflexivity.
Qed.

(** A message for another order leaves the stored demo conversation alone. *)
Lemma other_orders_untouched_witness :
  healthy uninitialised_world /\
  "ORD-DEMO" <> "ORD-2" /\
  let unchanged w' :=
    stored_chats w' !! "ORD-DEMO" = stored_chats uninitialised_world !! "ORD-DEMO" /\
    unread_count w' "ORD-DEMO" = unread_count uninitialised_world "ORD-DEMO" in
  unchanged (exec (ChatSync.sendMessage "ORD-2" (text_message "x1" "customer" T2))
               uninitialised_world) /\
  unchanged (exec (ChatSync.deleteChatHistory "ORD-2") uninitialised_world) /\
  unchanged (exec (ChatSync.markAllRead "ORD-2") uninitialised_world).
Proof.
  assert (Hw : healthy uninitialised_world) by (split; reflexivity).
  assert (Hne : "ORD-DEMO" <> "ORD-2") by discriminate.
  split; [exact Hw|]. split; [exact Hne|].
  exact (other_orders_untouched uninitialised_world "ORD-2" "ORD-DEMO"
           (text_message "x1" "customer" T2) Hw Hne).
Defined.

(** ** A store that refuses writes *)

Create Rewrite HintDb run.
#[export] Hint Rewrite @bind_bind @bind_ret @bind_gets @bind_modify @bind_Date_now
  @bind_genId @bind_new_chat @bind_ChatSync_readChats @bind_Bridge_readChats
  @bind_ChatSync_readUnread @bind_Storage_getChats @bind_Storage_getUnread
  : run.

(** Stepping without assuming that the store takes writes. *)
Ltac run := autorewrite with run.

Lemma ChatSync_writeChats_fails chats w :
  write_fails w = true ->
  ChatSync._writeChats chats w = (Throw (write_error w), w).
Proof.
  unfold write_fails, write_error. intros Hf. rewrite ChatSync_writeChats_run.
  destruct (denied (localStorage w)); [reflexivity|].
  destruct (full (localStorage w)); [reflexivity|discriminate].
Qed.

Lemma ChatSync_writeUnread_fails unread w :
  write_fails w = true ->
  ChatSync._writeUnread unread w = (Throw (write_error w), w).
Proof.
  unfold write_fails, write_error. intros Hf. rewrite ChatSync_writeUnread_run.
  destruct (denied (localStorage w)); [reflexivity|].
  destruct (full (localStorage w)); [reflexivity|discriminate].
Qed.

Lemma bind_ChatSync_writeChats_fails {B} chats (k : unit -> M B) w :
  write_fails w = true ->
  bind (ChatSync._writeChats chats) k w = (Throw (write_error w), w).
Proof.
  intros Hf. unfold bind. rewrite ChatSync_writeChats_fails by exact Hf.
  reflexivity.
Qed.

Lemma bind_Bridge_writeChats_fails {B} chats (k : unit -> M B) w :
  write_fails w = true ->
  bind (ChatSyncBridge._writeChats chats) k w = (Throw (write_error w), w).
Proof. exact (bind_ChatSync_writeChats_fails chats k w). Qed.

(** X6: On a store that refuses writes (access denied or quota exhausted) every
    mutating operation of the two channels raises the exception of [setItem]
    to its caller, and leaves the store, the watermarks and observed counts of
    both channels and the listener calls as they were.  In particular a
    failed [deleteChatHistory] of the customer-side channel does not reset
    its watermark or its observed count. *)
Theorem channel_writes_raise
    (w : World) (orderId text : string) (msg : Message) :
  write_fails w = true ->
  orderId <> "" ->
  let raises (c : M unit) :=
    eval c w = Throw (write_error w) /\ same_store_and_channels w (exec c w) in
  raises (ChatSync.sendMessage orderId msg) /\
  raises (ChatSync.deleteChatHistory orderId) /\
  raises (ChatSync.markAllRead orderId) /\
  raises (ChatSyncBridge.deleteChatHistory (Some orderId)) /\
  (_activeOrderId (bridge w) = Some orderId ->
   raises (ChatSyncBridge.sendTextMessage text)).
Proof.
  intros Hf Hne raises. subst raises. cbv beta.
  assert (Hfalsy : falsy (Some orderId) = false)
    by (destruct orderId; [congruence|reflexivity]).
  unfold eval, exec.
  refine (conj _ (conj _ (conj _ (conj _ _)))).
  - unfold ChatSync.sendMessage. run.
    destruct (stored_chats w !! orderId) as [c|]; run;
      rewrite bind_ChatSync_writeChats_fails by exact Hf;
      (split; [reflexivity|repeat split]).
  - unfold ChatSync.deleteChatHistory. run.
    destruct (stored_chats w !! orderId) as [c|]; run;
      rewrite ChatSync_writeChats_fails by exact Hf;
      (split; [reflexivity|repeat split]).
  - unfold ChatSync.markAllRead. run.
    rewrite ChatSync_writeUnread_fails by exact Hf.
    split; [reflexivity|repeat split].
  - unfold ChatSyncBridge.deleteChatHistory. run.
    rewrite Hfalsy. cbv iota. rewrite Hfalsy.
    simpl ChatSyncBridge.property. run.
    destruct (stored_chats w !! orderId) as [c|]; run;
      rewrite bind_Bridge_writeChats_fails by exact Hf;
      (split; [reflexivity|repeat split]).
  - intros Hactive. unfold ChatSyncBridge.sendTextMessage. run.
    rewrite Hactive, Hfalsy. run. unfold ChatSyncBridge._persist. run.
    change (_activeOrderId (bridge (tick (draw w))))
      with (_activeOrderId (bridge w)).
    rewrite Hactive. cbn [ChatSyncBridge.property default from_option id].
    autorewrite with world.
    destruct (stored_chats w !! orderId) as [c|]; run;
      rewrite bind_Bridge_writeChats_fails by exact Hf;
      (split; [reflexivity|repeat split]).
Qed.

(** With the quota exhausted. *)
Lemma channel_writes_raise_witness :
  write_fails full_world = true /\
  "ORD-DEMO" <> "" /\
  eval (ChatSync.sendMessage "ORD-DEMO" (text_message "m1" "customer" T1))
    full_world = Throw (write_error full_world) /\
  same_store_and_channels full_world
    (exec (ChatSync.sendMessage "ORD-DEMO" (text_message "m1" "customer" T1))
       full_world).
Proof.
  assert (Hf : write_fails full_world = true) by reflexivity.
  assert (Hne : "ORD-DEMO" <> "") by discriminate.
  split; [exact Hf|]. split; [exact Hne|].
  exact (proj1 (channel_writes_raise full_world "ORD-DEMO" "hello"
                  (text_message "m1" "customer" T1) Hf Hne)).
Defined.

(** ** Messages sent by the customer page *)

(** The bridge's counter update leaves counters that do not parse alone. *)
Lemma Bridge_bump_unread_garbled w k :
  healthy w ->
  unread_text (localStorage w) = Some Garbled ->
  try_catch
    (raw <- getItem UNREAD ;;
     unread <- JSON_parse (or_text raw (Encoded (empty_object UNREAD))) ;;
     text <- JSON_stringify
       (<[k := default 0 (unread !! k) + 1]> unread : val UNREAD) ;;
     setItem UNREAD text)
    (ret tt) w = (Ok tt, w).
Proof.
  intros [Hd Hf] Hg. unfold try_catch, bind, getItem. rewrite Hd.
  cbn [text_at]. rewrite Hg. reflexivity.
Qed.

Lemma Bridge_persist_effect w orderId msg :
  healthy w ->
  _activeOrderId (bridge w) = Some orderId ->
  let w' := exec (ChatSyncBridge._persist msg) w in
  eval (ChatSyncBridge._persist msg) w = Ok tt /\
  healthy w' /\
  stored_messages w' orderId = stored_messages w orderId ++ [msg] /\
  (forall o, o <> orderId -> stored_chats w' !! o = stored_chats w !! o) /\
  (unread_text (localStorage w) <> Some Garbled ->
   stored_unread w' = <[orderId := unread_count w orderId + 1]> (stored_unread w)) /\
  (unread_text (localStorage w) = Some Garbled ->
   unread_text (localStorage w') = Some Garbled) /\
  sync w' = sync w /\ bridge w' = bridge w /\ trace w' = trace w.
Proof.
  intros Hw Hactive w'. subst w'.
  unfold eval, exec, ChatSyncBridge._persist. step.
  rewrite Hactive. cbn [ChatSyncBridge.property default from_option id].
  unfold stored_messages, messages_of.
  destruct (unread_text (localStorage w)) as [[| |u]|] eqn:Hu.
  - destruct (stored_chats w !! orderId) as [c|] eqn:Hc; step;
      (rewrite Bridge_bump_unread_run;
       [|auto with healthy|simpl; rewrite Hu; discriminate]);
      simpl fst; simpl snd; autorewrite with world;
      rewrite ?lookup_insert_eq.
    all: splits; auto with healthy; try reflexivity; try congruence.
    all: intros o Ho; rewrite lookup_insert_ne by congruence; reflexivity.
  - destruct (stored_chats w !! orderId) as [c|] eqn:Hc; step;
      (rewrite Bridge_bump_unread_garbled; [|auto with healthy|exact Hu]);
      simpl fst; simpl snd; autorewrite with world;
      rewrite ?lookup_insert_eq.
    all: splits; auto with healthy; try reflexivity; try congruence.
    all: intros o Ho; rewrite lookup_insert_ne by congruence; reflexivity.
  - destruct (stored_chats w !! orderId) as [c|] eqn:Hc; step;
      (rewrite Bridge_bump_unread_run;
       [|auto with healthy|simpl; rewrite Hu; discriminate]);
      simpl fst; simpl snd; autorewrite with world;
      rewrite ?lookup_insert_eq.
    all: splits; auto with healthy; try reflexivity; try congruence.
    all: intros o Ho; rewrite lookup_insert_ne by congruence; reflexivity.
  - destruct (stored_chats w !! orderId) as [c|] eqn:Hc; step;
      (rewrite Bridge_bump_unread_run;
       [|auto with healthy|simpl; rewrite Hu; discriminate]);
      simpl fst; simpl snd; autorewrite with world;
      rewrite ?lookup_insert_eq.
    all: splits; auto with healthy; try reflexivity; try congruence.
    all: intros o Ho; rewrite lookup_insert_ne by congruence; reflexivity.
Qed.

(** X7: With an active order on a store that takes writes, [sendTextMessage] and
    [sendImageMessage] of the customer-side channel each append exactly one
    message to the conversation of the active order, whether or not the
    generated id is already there: sender ["customer"], the next id of the
    supply, the clock reading of the call, unread.  An image message carries
    the data URL, and the file name, or ["image"] when none (or an empty one)
    is given, both as its content and as its file name.  Each send adds one
    to the unread count of the order when the stored counters parse, and
    also when the key is absent or holds the empty string, which
    [getItem(...) || '{}'] reads as no counters, so that the count is then 1;
    when the key holds other text that does not parse, the message is stored
    all the same, nothing is raised and the counters are left as they
    are. *)
Theorem customer_sends_append
    (w : World) (orderId text dataUrl : string) (fileName : option string) :
  healthy w ->
  _activeOrderId (bridge w) = Some orderId ->
  orderId <> "" ->
  let sent (c : M unit) (type content : string)
           (imageUrl name : option string) :=
    let w' := exec c w in
    eval c w = Ok tt /\
    stored_messages w' orderId =
      stored_messages w orderId ++
        [{| msg_id := id_supply w (draws w); msg_orderId := Some orderId;
            msg_sender := "customer";
            msg_senderName :=
              Some (ChatSyncBridge.senderName_of (currentUser w)
                      (_userId (bridge w)));
            msg_senderEmail :=
              Some (ChatSyncBridge.senderEmail_of (currentUser w));
            msg_type := type; msg_content := content;
            msg_imageUrl := imageUrl; msg_fileName := name;
            msg_timestamp := clock w (ticks w); msg_read := false |}] /\
    (forall o, o <> orderId -> stored_chats w' !! o = stored_chats w !! o) /\
    (unread_text (localStorage w) <> Some Garbled ->
     unread_count w' orderId = unread_count w orderId + 1) /\
    (unread_text (localStorage w) = Some Blank ->
     unread_count w' orderId = 1) /\
    (unread_text (localStorage w) = Some Garbled ->
     unread_text (localStorage w') = Some Garbled /\
     unread_count w' orderId = 0) in
  sent (ChatSyncBridge.sendTextMessage text) "text" text None None /\
  sent (ChatSyncBridge.sendImageMessage dataUrl fileName) "image"
    (or_else fileName "image") (Some dataUrl)
    (Some (or_else fileName "image")) /\
  or_else None "image" = "image" /\ or_else (Some "") "image" = "image".
Proof.
  intros Hw Hactive Hne sent. subst sent. cbv beta zeta.
  assert (Hfalsy : falsy (Some orderId) = false)
    by (destruct orderId; [congruence|reflexivity]).
  assert (Hw' : healthy (tick (draw w))) by auto with healthy.
  assert (Hactive' : _activeOrderId (bridge (tick (draw w))) = Some orderId)
    by exact Hactive.
  refine (conj _ (conj _ (conj eq_refl eq_refl))).
  - unfold eval, exec, ChatSyncBridge.sendTextMessage. step.
    rewrite Hactive, Hfalsy. step.
    match goal with |- context [ChatSyncBridge._persist ?m _] =>
      destruct (Bridge_persist_effect (tick (draw w)) orderId m Hw' Hactive')
        as (Hev & Hh & Hm & Hc & Hu & Hg & _)
    end.
    unfold eval, exec in *. splits.
    + exact Hev.
    + exact Hm.
    + exact Hc.
    + intros Hp. unfold unread_count at 1. rewrite (Hu Hp).
      rewrite lookup_insert_eq. reflexivity.
    + intros Hp.
      assert (Hng : unread_text (localStorage w) <> Some Garbled)
        by congruence.
      unfold unread_count at 1. rewrite (Hu Hng), lookup_insert_eq.
      unfold unread_count, stored_unread.
      change (localStorage (tick (draw w))) with (localStorage w).
      rewrite Hp. destruct (denied _); reflexivity.
    + intros Hp. split; [exact (Hg Hp)|].
      unfold unread_count, stored_unread. rewrite (Hg Hp).
      destruct (denied _); reflexivity.
  - unfold eval, exec, ChatSyncBridge.sendImageMessage. step.
    rewrite Hactive, Hfalsy. step.
    match goal with |- context [ChatSyncBridge._persist ?m _] =>
      destruct (Bridge_persist_effect (tick (draw w)) orderId m Hw' Hactive')
        as (Hev & Hh & Hm & Hc & Hu & Hg & _)
    end.
    unfold eval, exec in *. splits.
    + exact Hev.
    + exact Hm.
    + exact Hc.
    + intros Hp. unfold unread_count at 1. rewrite (Hu Hp).
      rewrite lookup_insert_eq. reflexivity.
    + intros Hp.
      assert (Hng : unread_text (localStorage w) <> Some Garbled)
        by congruence.
      unfold unread_count at 1. rewrite (Hu Hng), lookup_insert_eq.
      unfold unread_count, stored_unread.
      change (localStorage (tick (draw w))) with (localStorage w).
      rewrite Hp. destruct (denied _); reflexivity.
    + intros Hp. split; [exact (Hg Hp)|].
      unfold unread_count, stored_unread. rewrite (Hg Hp).
      destruct (denied _); reflexivity.
Qed.

(** The first message of a customer whose page has been initialised, on a
    store whose counters are the empty string and on one whose counters do
    not parse. *)
Lemma customer_sends_append_witness :
  let w := exec (ChatSyncBridge.init "ORD-DEMO" (Some "Ann") true true)
             blank_counters_world in
  let g := exec (ChatSyncBridge.init "ORD-DEMO" (Some "Ann") true true)
             garbled_world in
  healthy w /\ healthy g /\
  _activeOrderId (bridge w) = Some "ORD-DEMO" /\
  _activeOrderId (bridge g) = Some "ORD-DEMO" /\
  "ORD-DEMO" <> "" /\
  unread_text (localStorage w) = Some Blank /\
  unread_text (localStorage g) = Some Garbled /\
  unread_count (exec (ChatSyncBridge.sendTextMessage "hello") w) "ORD-DEMO" = 1 /\
  unread_count (exec (ChatSyncBridge.sendTextMessage "hello") g) "ORD-DEMO" = 0 /\
  eval (ChatSyncBridge.sendImageMessage "data:image/png;base64,AAAA" None) g
    = Ok tt.
Proof.
  intros w g.
  assert (Hw : healthy w) by (split; reflexivity).
  assert (Hg : healthy g) by (split; reflexivity).
  assert (Ha : _activeOrderId (bridge w) = Some "ORD-DEMO") by reflexivity.
  assert (Hb : _activeOrderId (bridge g) = Some "ORD-DEMO") by reflexivity.
  assert (Hne : "ORD-DEMO" <> "") by discriminate.
  assert (Hblank : unread_text (localStorage w) = Some Blank) by reflexivity.
  assert (Hgarbled : unread_text (localStorage g) = Some Garbled)
    by reflexivity.
  destruct (customer_sends_append w "ORD-DEMO" "hello"
              "data:image/png;base64,AAAA" None Hw Ha Hne)
    as ((_ & _ & _ & _ & Hone & _) & _).
  destruct (customer_sends_append g "ORD-DEMO" "hello"
              "data:image/png;base64,AAAA" None Hg Hb Hne)
    as ((_ & _ & _ & _ & _ & Hzero) & (Himg & _) & _).
  splits; try assumption.
  - exact (Hone Hblank).
  - exact (proj2 (Hzero Hgarbled)).
Defined.

(** ** One page writes, the other polls *)

Lemma Bridge_sendTextMessage_views w orderId text :
  healthy w ->
  _activeOrderId (bridge w) = Some orderId ->
  orderId <> "" ->
  let w' := exec (ChatSyncBridge.sendTextMessage text) w in
  eval (ChatSyncBridge.sendTextMessage text) w = Ok tt /\
  healthy w' /\
  stored_messages w' orderId =
    stored_messages w orderId ++ [customer_text w orderId text] /\
  sync w' = sync w /\ bridge w' = bridge w /\ trace w' = trace w.
Proof.
  intros Hw Hactive Hne w'. subst w'.
  assert (Hfalsy : falsy (Some orderId) = false)
    by (destruct orderId; [congruence|reflexivity]).
  assert (Hw' : healthy (tick (draw w))) by auto with healthy.
  assert (Hactive' : _activeOrderId (bridge (tick (draw w))) = Some orderId)
    by exact Hactive.
  unfold eval, exec, ChatSyncBridge.sendTextMessage. step.
  rewrite Hactive, Hfalsy. step.
  match goal with |- context [ChatSyncBridge._persist ?m _] =>
    destruct (Bridge_persist_effect (tick (draw w)) orderId m Hw' Hactive')
      as (Hev & Hh & Hm & _ & _ & _ & Hs & Hb & Ht)
  end.
  unfold eval, exec in *. splits.
  - exact Hev.
  - exact Hh.
  - exact Hm.
  - exact Hs.
  - exact Hb.
  - exact Ht.
Qed.

(** X8: A text message of the customer page and the next pass of the driver page,
    which had nothing left to deliver and has a listener.  The pass hands the
    listener exactly that message and moves the watermark to its timestamp,
    when the clock reading of the send is later than the watermark of the
    driver page.  When it is not (the customer's clock is behind the last
    message seen by the driver), the message is stored and counted but the
    pass delivers nothing and leaves the watermark, and so does every later
    pass while nothing else is written. *)
Theorem customer_text_reaches_driver (w : World) (orderId text : string) :
  healthy w ->
  _activeOrderId (bridge w) = Some orderId ->
  orderId <> "" ->
  _onNewMessage (sync w) = true ->
  ChatSync_selected w orderId = [] ->
  let sent := exec (ChatSyncBridge.sendTextMessage text) w in
  let polled := exec (ChatSync._checkForNewMessages orderId) sent in
  let m := customer_text w orderId text in
  stored_messages polled orderId = stored_messages w orderId ++ [m] /\
  (str_gt (clock w (ticks w)) (ChatSync_watermark w orderId) = true ->
   trace polled = trace w ++ [NewMessage m] /\
   ChatSync_watermark polled orderId = clock w (ticks w)) /\
  (str_gt (clock w (ticks w)) (ChatSync_watermark w orderId) = false ->
   polled = sent /\ trace polled = trace w /\
   ChatSync_watermark polled orderId = ChatSync_watermark w orderId).
Proof.
  intros Hw Hactive Hne Hreg Hnone sent polled m.
  destruct (Bridge_sendTextMessage_views w orderId text Hw Hactive Hne)
    as (_ & Hh & Hm & Hs & _ & Ht).
  fold sent in Hh, Hm, Hs, Ht. fold m in Hm.
  assert (Hwm : ChatSync_watermark sent orderId = ChatSync_watermark w orderId)
    by (unfold ChatSync_watermark; rewrite Hs; reflexivity).
  assert (Hsel : ChatSync_selected sent orderId =
                 if str_gt (clock w (ticks w)) (ChatSync_watermark w orderId)
                 then [m] else []).
  { unfold ChatSync_selected. rewrite Hm, Hwm, List.filter_app.
    fold (ChatSync_selected w orderId). rewrite Hnone. simpl.
    destruct (str_gt _ _); reflexivity. }
  pose proof (ChatSync_check_trace sent orderId) as Htr.
  destruct (ChatSync_check_effect sent orderId) as (Hls & _ & _ & Hlast).
  fold polled in Htr, Hls, Hlast.
  rewrite Hs, Hreg, Hsel, Ht in Htr. rewrite Hsel in Hlast.
  splits.
  - unfold stored_messages, stored_chats in *. rewrite Hls. exact Hm.
  - intros Hgt. rewrite Hgt in Htr, Hlast. split; [exact Htr|exact Hlast].
  - intros Hgt. rewrite Hgt in Htr, Hlast. simpl in Hlast, Htr.
    rewrite app_nil_r in Htr. splits.
    + exact Hlast.
    + exact Htr.
    + rewrite Hlast. exact Hwm.
Qed.

(** The customer of the demo order writes to a driver who is listening. *)
Lemma customer_text_reaches_driver_witness :
  let w := exec (ChatSyncBridge.init "ORD-DEMO" (Some "Ann") true true ;;;
                 ChatSync.init "ORD-DEMO" true) fresh_world in
  let sent := exec (ChatSyncBridge.sendTextMessage "hello") w in
  let polled := exec (ChatSync._checkForNewMessages "ORD-DEMO") sent in
  healthy w /\
  _activeOrderId (bridge w) = Some "ORD-DEMO" /\
  "ORD-DEMO" <> "" /\
  _onNewMessage (sync w) = true /\
  ChatSync_selected w "ORD-DEMO" = [] /\
  str_gt (clock w (ticks w)) (ChatSync_watermark w "ORD-DEMO") = true /\
  trace polled = trace w ++ [NewMessage (customer_text w "ORD-DEMO" "hello")] /\
  ChatSync_watermark polled "ORD-DEMO" = clock w (ticks w).
Proof.
  intros w sent polled.
  assert (Hw : healthy w) by (split; reflexivity).
  assert (Ha : _activeOrderId (bridge w) = Some "ORD-DEMO") by reflexivity.
  assert (Hne : "ORD-DEMO" <> "") by discriminate.
  assert (Hreg : _onNewMessage (sync w) = true) by reflexivity.
  assert (Hnone : ChatSync_selected w "ORD-DEMO" = [])
    by (vm_compute; reflexivity).
  assert (Hgt : str_gt (clock w (ticks w)) (ChatSync_watermark w "ORD-DEMO")
                = true) by (vm_compute; reflexivity).
  splits; try assumption.
  - exact (proj1 (proj1 (proj2
      (customer_text_reaches_driver w "ORD-DEMO" "hello" Hw Ha Hne Hreg Hnone))
      Hgt)).
  - exact (proj2 (proj1 (proj2
      (customer_text_reaches_driver w "ORD-DEMO" "hello" Hw Ha Hne Hreg Hnone))
      Hgt)).
Defined.

Lemma length_append_once msgs m : length msgs <= length (append_once msgs m).
Proof.
  unfold append_once. destruct (has_id _ _); [lia|].
  rewrite length_app. simpl. lia.
Qed.

(** X9: A message stored by [sendMessage] and the next pass of the customer page,
    which had nothing left to deliver, has observed no more messages than are
    stored and has a listener.  The pass hands the listener exactly that
    message, with the sender name filled in, when its id is new to the
    conversation, its sender is ["driver"] and its timestamp is later than
    the watermark of the customer page; in every other case it delivers
    nothing.  Either way the page has then observed every stored message. *)
Theorem driver_message_reaches_customer
    (w : World) (orderId : string) (msg : Message) :
  healthy w ->
  _onDriverMessage (bridge w) = true ->
  Bridge_selected w orderId = [] ->
  clear_detected w orderId = false ->
  let sent := exec (ChatSync.sendMessage orderId msg) w in
  let polled := exec (ChatSyncBridge._checkForDriverMessages orderId) sent in
  let m := ChatSync.enrich (currentUser w) msg in
  trace polled =
    trace w ++
      (if negb (has_id (msg_id msg) (stored_messages w orderId))
          && String.eqb (msg_sender msg) "driver"
          && str_gt (msg_timestamp msg) (Bridge_watermark w orderId)
       then [DriverMessage m] else []) /\
  Bridge_seenCount polled orderId = length (stored_messages polled orderId) /\
  stored_messages polled orderId = append_once (stored_messages w orderId) m.
Proof.
  intros Hw Hreg Hnone Hclear sent polled m.
  destruct (ChatSync_sendMessage_effect w orderId msg Hw)
    as (_ & _ & Hm & _ & _ & _ & Hb & Ht & _).
  fold sent in Hm, Hb, Ht. fold m in Hm.
  assert (Hwm : Bridge_watermark sent orderId = Bridge_watermark w orderId)
    by (unfold Bridge_watermark; rewrite Hb; reflexivity).
  assert (Hclear' : clear_detected sent orderId = false).
  { unfold clear_detected, Bridge_seenCount in *. rewrite Hm, Hb.
    apply Nat.ltb_ge. apply Nat.ltb_ge in Hclear.
    pose proof (length_append_once (stored_messages w orderId) m). lia. }
  assert (Hsel : Bridge_selected sent orderId =
                 if negb (has_id (msg_id msg) (stored_messages w orderId))
                    && String.eqb (msg_sender msg) "driver"
                    && str_gt (msg_timestamp msg) (Bridge_watermark w orderId)
                 then [m] else []).
  { unfold Bridge_selected. rewrite Hm, Hwm. unfold append_once.
    change (msg_id m) with (msg_id msg).
    destruct (has_id (msg_id msg) (stored_messages w orderId)).
    - exact Hnone.
    - rewrite List.filter_app. fold (Bridge_selected w orderId).
      rewrite Hnone. simpl. unfold ChatSyncBridge.is_fresh.
      change (msg_sender m) with (msg_sender msg).
      change (msg_timestamp m) with (msg_timestamp msg).
      destruct (String.eqb (msg_sender msg) "driver" &&
                str_gt (msg_timestamp msg) (Bridge_watermark w orderId));
        reflexivity. }
  pose proof (Bridge_check_trace sent orderId) as Htr.
  destruct (Bridge_check_effect sent orderId Hclear') as (Hls & _ & Hcount & _).
  fold polled in Htr, Hls, Hcount.
  rewrite Hclear', Hb, Hreg, Hsel, Ht in Htr.
  assert (Hstored : stored_messages polled orderId = stored_messages sent orderId)
    by (unfold stored_messages, stored_chats; rewrite Hls; reflexivity).
  splits.
  - rewrite Htr. f_equal.
    destruct (negb (has_id (msg_id msg) (stored_messages w orderId))
              && String.eqb (msg_sender msg) "driver"
              && str_gt (msg_timestamp msg) (Bridge_watermark w orderId));
      reflexivity.
  - rewrite Hcount, Hstored. reflexivity.
  - rewrite Hstored. exact Hm.
Qed.

(** The driver of the demo order writes to a customer who is listening. *)
Lemma driver_message_reaches_customer_witness :
  let w := exec (ChatSyncBridge.init "ORD-DEMO" (Some "Ann") true true)
             fresh_world in
  let msg := text_message "d1" "driver" T1 in
  let sent := exec (ChatSync.sendMessage "ORD-DEMO" msg) w in
  let polled := exec (ChatSyncBridge._checkForDriverMessages "ORD-DEMO") sent in
  healthy w /\
  _onDriverMessage (bridge w) = true /\
  Bridge_selected w "ORD-DEMO" = [] /\
  clear_detected w "ORD-DEMO" = false /\
  trace polled =
    trace w ++
      (if negb (has_id (msg_id msg) (stored_messages w "ORD-DEMO"))
          && String.eqb (msg_sender msg) "driver"
          && str_gt (msg_timestamp msg) (Bridge_watermark w "ORD-DEMO")
       then [DriverMessage (ChatSync.enrich (currentUser w) msg)] else []).
Proof.
  intros w msg sent polled.
  assert (Hw : healthy w) by (split; reflexivity).
  assert (Hreg : _onDriverMessage (bridge w) = true) by reflexivity.
  assert (Hnone : Bridge_selected w "ORD-DEMO" = [])
    by (vm_compute; reflexivity).
  assert (Hclear : clear_detected w "ORD-DEMO" = false)
    by (vm_compute; reflexivity).
  splits; try assumption.
  exact (proj1
    (driver_message_reaches_customer w "ORD-DEMO" msg Hw Hreg Hnone Hclear)).
Defined.

(** ** Opening a conversation *)

Lemma Bridge_init_effect w orderId userId g h :
  let w' := exec (ChatSyncBridge.init orderId userId g h) w in
  eval (ChatSyncBridge.init orderId userId g h) w = Ok tt /\
  localStorage w' = localStorage w /\
  _activeOrderId (bridge w') = Some orderId /\
  _onDriverMessage (bridge w') = g /\
  _onChatCleared (bridge w') = h /\
  Bridge_watermark w' orderId =
    or_else (Some (last_timestamp (stored_messages w orderId))) epoch /\
  Bridge_seenCount w' orderId = length (stored_messages w orderId) /\
  sync w' = sync w /\ trace w' = trace w.
Proof.
  intros w'. subst w'. unfold eval, exec, ChatSyncBridge.init. step.
  unfold modify. simpl. unfold Bridge_watermark, Bridge_seenCount. simpl.
  rewrite !lookup_insert_eq. splits; reflexivity.
Qed.

(** Where timestamps never decrease, no message is later than the last. *)
Lemma nothing_after_last (p : Message -> bool) msgs :
  nondecreasing msgs ->
  List.filter
    (fun m => p m && str_gt (msg_timestamp m)
                       (or_else (Some (last_timestamp msgs)) epoch)) msgs = [].
Proof.
  intros Hsorted. apply filter_none. intros m Hm.
  destruct (p m); [simpl|reflexivity].
  unfold last_timestamp.
  destruct (last msgs) as [newest|] eqn:Hlast.
  - assert (Hb : String.ltb (msg_timestamp newest) (msg_timestamp m) = false).
    { apply (StronglySorted_last_bound msgs); [|exact Hlast|exact Hm].
      apply Sorted_StronglySorted; [|exact Hsorted].
      intros a b c Hab Hbc. exact (ltb_false_trans _ _ _ Hab Hbc). }
    unfold str_gt. destruct (msg_timestamp newest) as [|c r] eqn:Hts.
    + destruct (msg_timestamp m); [reflexivity|discriminate].
    + exact Hb.
  - apply last_None in Hlast. subst msgs. inversion Hm.
Qed.

(** X10: Opening a conversation whose stored timestamps never decrease delivers
    none of its history: [init] of either channel calls no listener, and the
    first pass after it, with nothing written in between, calls none either.
    The driver-side pass changes nothing at all; the customer-side channel
    has observed every stored message, so its pass detects no clear. *)
Theorem init_delivers_no_history
    (w : World) (orderId : string) (userId : option string) (f g h : bool) :
  nondecreasing (stored_messages w orderId) ->
  (let opened := exec (ChatSync.init orderId f) w in
   trace opened = trace w /\
   exec (ChatSync._checkForNewMessages orderId) opened = opened) /\
  (let opened := exec (ChatSyncBridge.init orderId userId g h) w in
   trace opened = trace w /\
   clear_detected opened orderId = false /\
   trace (exec (ChatSyncBridge._checkForDriverMessages orderId) opened)
     = trace w).
Proof.
  intros Hsorted. split.
  - intros opened.
    destruct (ChatSync_init_effect w orderId f)
      as (_ & Hls & _ & Hwm & _ & Ht & _).
    fold opened in Hls, Hwm, Ht. split; [exact Ht|].
    assert (Hmsgs : stored_messages opened orderId = stored_messages w orderId)
      by (unfold stored_messages, stored_chats; rewrite Hls; reflexivity).
    assert (Hsel : ChatSync_selected opened orderId = []).
    { unfold ChatSync_selected. rewrite Hwm, Hmsgs.
      exact (nothing_after_last (fun _ => true) _ Hsorted). }
    destruct (ChatSync_check_effect opened orderId) as (_ & _ & _ & Hlast).
    rewrite Hsel in Hlast. exact Hlast.
  - intros opened.
    destruct (Bridge_init_effect w orderId userId g h)
      as (_ & Hls & _ & _ & _ & Hwm & Hcount & _ & Ht).
    fold opened in Hls, Hwm, Hcount, Ht.
    assert (Hmsgs : stored_messages opened orderId = stored_messages w orderId)
      by (unfold stored_messages, stored_chats; rewrite Hls; reflexivity).
    assert (Hclear : clear_detected opened orderId = false)
      by (unfold clear_detected; rewrite Hcount, Hmsgs; apply Nat.ltb_irrefl).
    assert (Hsel : Bridge_selected opened orderId = []).
    { unfold Bridge_selected. rewrite Hwm, Hmsgs.
      exact (nothing_after_last
               (fun m => String.eqb (msg_sender m) "driver") _ Hsorted). }
    splits; [exact Ht|exact Hclear|].
    rewrite Bridge_check_trace, Hclear, Hsel, Ht.
    destruct (_onDriverMessage (bridge opened)); apply app_nil_r.
Qed.

(** Both pages open the conversation that holds one driver message. *)
Lemma init_delivers_no_history_witness :
  nondecreasing (stored_messages uninitialised_world "ORD-DEMO") /\
  (let opened := exec (ChatSync.init "ORD-DEMO" true) uninitialised_world in
   trace opened = trace uninitialised_world /\
   exec (ChatSync._checkForNewMessages "ORD-DEMO") opened = opened) /\
  (let opened := exec (ChatSyncBridge.init "ORD-DEMO" (Some "Ann") true true)
                   uninitialised_world in
   trace opened = trace uninitialised_world /\
   clear_detected opened "ORD-DEMO" = false /\
   trace (exec (ChatSyncBridge._checkForDriverMessages "ORD-DEMO") opened)
     = trace uninitialised_world).
Proof.
  assert (Hs : nondecreasing (stored_messages uninitialised_world "ORD-DEMO"))
    by (vm_compute; repeat constructor).
  split; [exact Hs|].
  exact (init_delivers_no_history uninitialised_world "ORD-DEMO" (Some "Ann")
           true true true Hs).
Defined.

(** ** Who hears of a deletion *)

Lemma history_cleared_messages before after orderId now :
  history_cleared before after orderId now -> messages_of after orderId = [].
Proof.
  intros (Hsome & Hnone & _). unfold messages_of.
  destruct (before !! orderId) as [c|] eqn:Hc.
  - destruct (Hsome c eq_refl) as (c' & -> & Hm & _). exact Hm.
  - rewrite (Hnone eq_refl). reflexivity.
Qed.

(** X11: After a deletion of a conversation on a store that takes writes, the next
    pass of either channel delivers no message.  The customer page that
    deleted the history itself is not told of a clear by its own pass.  When
    the driver page deleted it, the pass of the customer page calls the clear
    listener once, provided one is registered and the page had observed at
    least one message; a page that had observed none is not told.  The
    driver page has no clear listener: its pass after a deletion by the
    customer changes nothing. *)
Theorem deletion_and_the_next_pass (w : World) (orderId : string) :
  healthy w ->
  orderId <> "" ->
  let by_customer := exec (ChatSyncBridge.deleteChatHistory (Some orderId)) w in
  let by_driver := exec (ChatSync.deleteChatHistory orderId) w in
  trace (exec (ChatSyncBridge._checkForDriverMessages orderId) by_customer)
    = trace w /\
  trace (exec (ChatSyncBridge._checkForDriverMessages orderId) by_driver)
    = trace w ++
        (if (0 <? Bridge_seenCount w orderId) && _onChatCleared (bridge w)
         then [ChatCleared orderId] else []) /\
  exec (ChatSync._checkForNewMessages orderId) by_customer = by_customer /\
  trace by_customer = trace w /\ trace by_driver = trace w.
Proof.
  intros Hw Hne by_customer by_driver.
  destruct (Bridge_deleteChatHistory_effect w orderId Hw Hne)
    as (_ & _ & Hcl & _ & Hcount & _ & Ht).
  fold by_customer in Hcl, Hcount, Ht.
  apply history_cleared_messages in Hcl. fold (stored_messages by_customer orderId) in Hcl.
  destruct (ChatSync_deleteChatHistory_effect w orderId Hw)
    as (_ & _ & Hcl' & _ & _ & Hb' & Ht').
  fold by_driver in Hcl', Hb', Ht'.
  apply history_cleared_messages in Hcl'. fold (stored_messages by_driver orderId) in Hcl'.
  splits.
  - rewrite Bridge_check_trace.
    unfold clear_detected, Bridge_seenCount, Bridge_selected.
    rewrite Hcl, Hcount, Ht. simpl.
    destruct (_onDriverMessage (bridge by_customer)); apply app_nil_r.
  - rewrite Bridge_check_trace.
    unfold clear_detected, Bridge_seenCount, Bridge_selected.
    rewrite Hcl', Hb', Ht'. simpl.
    destruct (0 <? default 0 (_seenCount (bridge w) !! orderId)); simpl.
    + reflexivity.
    + destruct (_onDriverMessage (bridge w)); reflexivity.
  - destruct (ChatSync_check_effect by_customer orderId) as (_ & _ & _ & Hlast).
    unfold ChatSync_selected in Hlast. rewrite Hcl in Hlast. exact Hlast.
  - exact Ht.
  - exact Ht'.
Qed.

(** The customer has been shown two messages when the driver deletes the
    history. *)
Lemma deletion_and_the_next_pass_witness :
  let w := exec (ChatSyncBridge.init "ORD-DEMO" (Some "Ann") true true ;;;
                 ChatSync.sendMessage "ORD-DEMO" (text_message "d1" "driver" T1) ;;;
                 ChatSync.sendMessage "ORD-DEMO" (text_message "d2" "driver" T2) ;;;
                 ChatSyncBridge._checkForDriverMessages "ORD-DEMO")
             fresh_world in
  healthy w /\
  "ORD-DEMO" <> "" /\
  Bridge_seenCount w "ORD-DEMO" = 2 /\
  trace (exec (ChatSyncBridge._checkForDriverMessages "ORD-DEMO")
           (exec (ChatSync.deleteChatHistory "ORD-DEMO") w))
    = trace w ++
        (if (0 <? Bridge_seenCount w "ORD-DEMO") && _onChatCleared (bridge w)
         then [ChatCleared "ORD-DEMO"] else []).
Proof.
  intros w.
  assert (Hw : healthy w) by (split; reflexivity).
  assert (Hne : "ORD-DEMO" <> "") by discriminate.
  split; [exact Hw|]. split; [exact Hne|].
  split; [vm_compute; reflexivity|].
  exact (proj1 (proj2 (deletion_and_the_next_pass w "ORD-DEMO" Hw Hne))).
Defined.

(** ** The watermark only moves forward *)

(** X12: A pass of the driver-side channel never moves its watermark back: the
    watermark is strictly later after the pass when the pass selected a
    message, and the pass changes nothing otherwise.  The same holds for a
    pass of the customer-side channel that detects no clear; one that does
    detect a clear puts the watermark back to the epoch. *)
Theorem watermark_moves_forward (w : World) (orderId : string) :
  (let w' := exec (ChatSync._checkForNewMessages orderId) w in
   (ChatSync_selected w orderId <> [] ->
    str_gt (ChatSync_watermark w' orderId) (ChatSync_watermark w orderId) = true) /\
   (ChatSync_selected w orderId = [] -> w' = w)) /\
  (let w' := exec (ChatSyncBridge._checkForDriverMessages orderId) w in
   (clear_detected w orderId = false ->
    Bridge_selected w orderId <> [] ->
    str_gt (Bridge_watermark w' orderId) (Bridge_watermark w orderId) = true) /\
   (clear_detected w orderId = false ->
    Bridge_selected w orderId = [] ->
    Bridge_watermark w' orderId = Bridge_watermark w orderId) /\
   (clear_detected w orderId = true -> Bridge_watermark w' orderId = epoch)).
Proof.
  split.
  - intros w'.
    destruct (ChatSync_check_effect w orderId) as (_ & _ & _ & Hlast).
    fold w' in Hlast.
    destruct (last (ChatSync_selected w orderId)) as [newest|] eqn:Hl.
    + split.
      * intros _. rewrite Hlast. apply ChatSync_selected_gt. exact Hl.
      * intros Hnil. rewrite Hnil in Hl. discriminate.
    + split.
      * intros Hne. apply last_None in Hl. contradiction.
      * intros _. exact Hlast.
  - intros w'. splits.
    + intros Hclear Hne.
      destruct (Bridge_check_effect w orderId Hclear) as (_ & _ & _ & _ & Hlast).
      fold w' in Hlast.
      destruct (last (Bridge_selected w orderId)) as [newest|] eqn:Hl.
      * rewrite Hlast. apply Bridge_selected_gt. exact Hl.
      * apply last_None in Hl. contradiction.
    + intros Hclear Hnil.
      destruct (Bridge_check_effect w orderId Hclear) as (_ & _ & _ & _ & Hlast).
      fold w' in Hlast. rewrite Hnil in Hlast. exact Hlast.
    + intros Hclear. subst w'. unfold exec.
      rewrite Bridge_check_run, Hclear. unfold Bridge_watermark.
      destruct (_onChatCleared (bridge w)); simpl;
        rewrite lookup_insert_eq; reflexivity.
Qed.

(** Both pages listen and the driver has sent one message. *)
Lemma watermark_moves_forward_witness :
  let w := exec both_listening fresh_world in
  ChatSync_selected w "ORD-DEMO" <> [] /\
  clear_detected w "ORD-DEMO" = false /\
  Bridge_selected w "ORD-DEMO" <> [] /\
  str_gt (ChatSync_watermark (exec (ChatSync._checkForNewMessages "ORD-DEMO") w)
            "ORD-DEMO")
         (ChatSync_watermark w "ORD-DEMO") = true /\
  str_gt (Bridge_watermark
            (exec (ChatSyncBridge._checkForDriverMessages "ORD-DEMO") w)
            "ORD-DEMO")
         (Bridge_watermark w "ORD-DEMO") = true.
Proof.
  intros w.
  assert (H1 : ChatSync_selected w "ORD-DEMO" <> [])
    by (vm_compute; discriminate).
  assert (H2 : clear_detected w "ORD-DEMO" = false)
    by (vm_compute; reflexivity).
  assert (H3 : Bridge_selected w "ORD-DEMO" <> [])
    by (vm_compute; discriminate).
  splits; try assumption.
  - exact (proj1 (proj1 (watermark_moves_forward w "ORD-DEMO")) H1).
  - exact (proj1 (proj2 (watermark_moves_forward w "ORD-DEMO")) H2 H3).
Defined.

(** ** The chat interface of the API module *)

Lemma bind_run {A B} (c : M A) (k : A -> M B) w a w' :
  c w = (Ok a, w') -> bind c k w = k a w'.
Proof. intros H. unfold bind. rewrite H. reflexivity. Qed.

Lemma Storage_addMessage_fails w orderId msg :
  write_fails w = true ->
  exists w', Storage.addMessage orderId msg w = (Ok false, w') /\
             localStorage w' = localStorage w /\ sync w' = sync w /\
             bridge w' = bridge w /\ trace w' = trace w.
Proof.
  intros Hfail. unfold Storage.addMessage. rewrite bind_Storage_getChats.
  destruct (stored_chats w !! orderId) as [c|].
  - rewrite bind_ret.
    destruct (has_id (msg_id msg) (chat_messages c)).
    + eexists. split; [reflexivity|]. repeat split.
    + rewrite Storage_setChats_fails by exact Hfail.
      eexists. split; [reflexivity|]. repeat split.
  - rewrite bind_new_chat. cbn [chat_messages has_id existsb]. cbv iota.
    rewrite Storage_setChats_fails by exact Hfail.
    eexists. split; [reflexivity|]. repeat split.
Qed.

(** Storing and counting, the last steps of [API.Chat.sendMessage]. *)
Lemma API_store_and_count_healthy w orderId msg (counted : bool) (id : string) :
  healthy w ->
  let c :=
    Storage.addMessage orderId msg ;;;
    (if counted then Storage.incrementUnread orderId ;;; ret tt else ret tt) ;;;
    ret id in
  eval c w = Ok id /\
  stored_messages (exec c w) orderId = append_once (stored_messages w orderId) msg /\
  unread_count (exec c w) orderId =
    unread_count w orderId + (if counted then 1 else 0) /\
  (forall o, o <> orderId ->
     stored_chats (exec c w) !! o = stored_chats w !! o /\
     unread_count (exec c w) o = unread_count w o).
Proof.
  intros Hw c. subst c.
  destruct (Storage_addMessage_effect w orderId msg Hw)
    as (Hev & Hw1 & Hm & Hc & Hu).
  unfold eval, exec in *.
  destruct (Storage.addMessage orderId msg w) as [r w1] eqn:Hrun.
  simpl in Hev, Hw1, Hm, Hc, Hu. subst r.
  rewrite (bind_run _ _ _ _ _ Hrun).
  destruct counted.
  - pose proof (Storage_incrementUnread_run w1 orderId) as Hinc.
    rewrite (proj1 (healthy_write_fails w1) Hw1) in Hinc.
    rewrite bind_bind, (bind_run _ _ _ _ _ Hinc), !bind_ret.
    simpl fst; simpl snd.
    unfold stored_messages, unread_count in *. autorewrite with world.
    rewrite lookup_insert_eq, Hu. splits; try reflexivity; try assumption.
    intros o Ho. rewrite lookup_insert_ne by congruence.
    split; [apply Hc; exact Ho|reflexivity].
  - rewrite !bind_ret. simpl fst; simpl snd.
    unfold unread_count. rewrite Hu.
    splits; try assumption; try reflexivity; try lia.
    intros o Ho. split; [apply Hc; exact Ho|reflexivity].
Qed.

Lemma API_store_and_count_fails w orderId msg (counted : bool) (id : string) :
  write_fails w = true ->
  let c :=
    Storage.addMessage orderId msg ;;;
    (if counted then Storage.incrementUnread orderId ;;; ret tt else ret tt) ;;;
    ret id in
  eval c w = Ok id /\
  same_store_and_channels w (exec c w).
Proof.
  intros Hfail c. subst c.
  destruct (Storage_addMessage_fails w orderId msg Hfail)
    as (w1 & Hrun & Hls & Hs & Hb & Ht).
  assert (Hfail1 : write_fails w1 = true)
    by (unfold write_fails in *; rewrite Hls; exact Hfail).
  unfold eval, exec, same_store_and_channels.
  rewrite (bind_run _ _ _ _ _ Hrun).
  destruct counted.
  - pose proof (Storage_incrementUnread_run w1 orderId) as Hinc.
    rewrite Hfail1 in Hinc.
    rewrite bind_bind, (bind_run _ _ _ _ _ Hinc), !bind_ret.
    simpl. splits; try reflexivity; assumption.
  - rewrite !bind_ret. simpl. splits; try reflexivity; assumption.
Qed.

(** X13: [API.Chat.sendMessage], in the version that uses the storage module
    alone, never raises and returns the id of the message: the id the caller
    supplied, or the next generated one when the caller supplied none (or an
    empty one).  On a store that takes writes it appends the message to the
    conversation unless the id is already there, with the sender's name and
    e-mail as given, the supplied timestamp or else the clock reading, and
    [read] false unless given; it adds one to the unread count of the order
    exactly when the sender is ["customer"], whether or not the message was
    appended.  On a store that refuses writes it still returns the id, and
    nothing is stored or counted. *)
Theorem API_sendMessage_returns_id
    (w : World) (orderId : string) (messageData : MessageData) :
  let id := or_else (data_id messageData) (id_supply w (draws w)) in
  let timestamp := or_else (data_timestamp messageData) (clock w (ticks w)) in
  let c := APIChat.sendMessage orderId messageData in
  eval c w = Ok id /\
  (write_fails w = true -> same_store_and_channels w (exec c w)) /\
  (healthy w ->
   exists msg,
     stored_messages (exec c w) orderId
       = append_once (stored_messages w orderId) msg /\
     msg_id msg = id /\ msg_orderId msg = Some orderId /\
     msg_sender msg = data_sender messageData /\
     msg_senderName msg = data_senderName messageData /\
     msg_senderEmail msg = data_senderEmail messageData /\
     msg_type msg = data_type messageData /\
     msg_content msg = data_content messageData /\
     msg_timestamp msg = timestamp /\
     msg_read msg = default false (data_read messageData) /\
     unread_count (exec c w) orderId =
       unread_count w orderId +
       (if String.eqb (data_sender messageData) "customer" then 1 else 0)).
Proof.
  intros id timestamp c. subst id timestamp c.
  unfold APIChat.sendMessage, APIChat.id_of, APIChat.timestamp_of.
  assert (Hcases : write_fails w = true \/ healthy w).
  { destruct (write_fails w) eqn:Hwf; [left; reflexivity|right].
    apply healthy_write_fails. exact Hwf. }
  unfold eval, exec. run.
  destruct (data_id messageData) as [[|a r]|];
    destruct (data_timestamp messageData) as [[|b t]|];
    cbn [falsy or_else]; run.
  all: match goal with
       | |- context [bind (Storage.addMessage ?o ?m) _ ?w0] =>
           pose proof (API_store_and_count_healthy w0 o m
                         (String.eqb (data_sender messageData) "customer")
                         (msg_id m)) as Hh;
           pose proof (API_store_and_count_fails w0 o m
                         (String.eqb (data_sender messageData) "customer")
                         (msg_id m)) as Hf
       end;
       cbv zeta in Hh, Hf; unfold eval, exec in Hh, Hf;
       cbn [msg_id] in Hh, Hf;
       destruct Hcases as [Hwf|Hw];
       [ destruct (Hf Hwf) as [Hev Hsame];
         split; [exact Hev|];
         split; [intros _; exact Hsame|];
         intros Hw; apply healthy_write_fails in Hw; congruence
       | destruct (Hh Hw) as (Hev & Hm & Hu & _);
         split; [exact Hev|];
         split; [intros Hwf; apply healthy_write_fails in Hw; congruence|];
         intros _; eexists; splits; [exact Hm|reflexivity..|exact Hu] ].
Qed.

(** A customer message without an id on a page that has just loaded, and
    with the quota exhausted. *)
Lemma API_sendMessage_returns_id_witness :
  let messageData :=
    {| data_id := None; data_sender := "customer"; data_senderName := None;
       data_senderEmail := None; data_type := "text"; data_content := "hello";
       data_imageUrl := None; data_fileName := None; data_timestamp := None;
       data_read := None |} in
  write_fails full_world = true /\
  healthy fresh_world /\
  eval (APIChat.sendMessage "ORD-DEMO" messageData) full_world
    = Ok "msg-1714557609000-k3x9q" /\
  same_store_and_channels full_world
    (exec (APIChat.sendMessage "ORD-DEMO" messageData) full_world) /\
  unread_count (exec (APIChat.sendMessage "ORD-DEMO" messageData) fresh_world)
    "ORD-DEMO" = 1.
Proof.
  intros messageData.
  assert (Hf : write_fails full_world = true) by reflexivity.
  assert (Hw : healthy fresh_world) by (split; reflexivity).
  split; [exact Hf|]. split; [exact Hw|].
  destruct (API_sendMessage_returns_id full_world "ORD-DEMO" messageData)
    as (Hid & Hfail & _).
  destruct (API_sendMessage_returns_id fresh_world "ORD-DEMO" messageData)
    as (_ & _ & Hok).
  destruct (Hok Hw)
    as (msg & _ & _ & _ & _ & _ & _ & _ & _ & _ & _ & Hcount).
  split; [exact Hid|]. split; [exact (Hfail Hf)|]. exact Hcount.
Defined.

(** X14: [API.Chat.deleteChatHistory] and [API.Chat.markAllRead] never raise.  A
    deletion for an order without a stored conversation does nothing at all:
    it neither writes nor reads the clock.  On a store that takes writes a
    deletion empties the conversation, keeping its record and the unread
    counters, and [markAllRead] makes [getUnreadCount] return 0; on a store
    that refuses writes both return normally and leave the store as it
    was. *)
Theorem API_delete_and_markAllRead (w : World) (orderId : string) :
  let deleted := exec (APIChat.deleteChatHistory orderId) w in
  let marked := exec (APIChat.markAllRead orderId) w in
  eval (APIChat.deleteChatHistory orderId) w = Ok tt /\
  eval (APIChat.markAllRead orderId) w = Ok tt /\
  (stored_chats w !! orderId = None ->
   APIChat.deleteChatHistory orderId w = (Ok tt, w)) /\
  (healthy w ->
   history_cleared (stored_chats w) (stored_chats deleted) orderId
     (clock w (ticks w)) /\
   eval (APIChat.getMessages orderId) deleted = Ok [] /\
   stored_unread deleted = stored_unread w /\
   eval (APIChat.getUnreadCount orderId) marked = Ok 0 /\
   stored_chats marked = stored_chats w) /\
  (write_fails w = true ->
   localStorage deleted = localStorage w /\ marked = w).
Proof.
  intros deleted marked. subst deleted marked.
  unfold eval, exec, APIChat.deleteChatHistory, APIChat.markAllRead,
    APIChat.getMessages, APIChat.getUnreadCount.
  rewrite bind_Storage_getChats.
  pose proof (Storage_clearUnread_run w orderId) as Hclr.
  assert (Hcases : write_fails w = true \/ healthy w).
  { destruct (write_fails w) eqn:Hwf; [left; reflexivity|right].
    apply healthy_write_fails. exact Hwf. }
  destruct Hcases as [Hf|Hw].
  - rewrite Hf in Hclr. rewrite (bind_run _ _ _ _ _ Hclr). cbv beta.
    destruct (stored_chats w !! orderId) as [c|] eqn:Hc.
    + rewrite bind_Date_now.
      rewrite (bind_run _ _ _ _ _ (Storage_setChats_fails _ (tick w) Hf)).
      cbv beta. splits; try reflexivity; try discriminate.
      * intros Hw. apply healthy_write_fails in Hw. congruence.
      * intros _. split; reflexivity.
    + splits; try reflexivity.
      * intros Hw. apply healthy_write_fails in Hw. congruence.
      * intros _. split; reflexivity.
  - rewrite (proj1 (healthy_write_fails w) Hw) in Hclr.
    rewrite (bind_run _ _ _ _ _ Hclr). cbv beta.
    assert (Hw' : healthy (tick w)) by auto with healthy.
    destruct (stored_chats w !! orderId) as [c|] eqn:Hc.
    + rewrite bind_Date_now.
      rewrite (bind_run _ _ _ _ _ (Storage_setChats_healthy _ (tick w) Hw')).
      cbv beta. simpl fst; simpl snd.
      rewrite Storage_getMessages_run, Storage_getUnreadCount_run. simpl fst.
      unfold stored_messages, unread_count, messages_of.
      autorewrite with world.
      rewrite lookup_insert_eq, lookup_delete_eq.
      splits; try reflexivity; try discriminate.
      * intros _. splits; try reflexivity.
        apply history_cleared_insert. exact Hc.
      * intros Hf. apply healthy_write_fails in Hw. congruence.
    + simpl fst; simpl snd.
      rewrite Storage_getMessages_run, Storage_getUnreadCount_run. simpl fst.
      unfold stored_messages, unread_count, messages_of.
      autorewrite with world.
      rewrite Hc, lookup_delete_eq.
      splits; try reflexivity.
      * intros _. splits; try reflexivity.
        apply history_cleared_absent. exact Hc.
      * intros Hf. apply healthy_write_fails in Hw. congruence.
Qed.

(** The stored demo conversation, and the quota exhausted. *)
Lemma API_delete_and_markAllRead_witness :
  healthy uninitialised_world /\
  write_fails full_world = true /\
  stored_chats full_world !! "ORD-DEMO" = None /\
  eval (APIChat.getMessages "ORD-DEMO")
    (exec (APIChat.deleteChatHistory "ORD-DEMO") uninitialised_world) = Ok [] /\
  APIChat.deleteChatHistory "ORD-DEMO" full_world = (Ok tt, full_world) /\
  exec (APIChat.markAllRead "ORD-DEMO") full_world = full_world.
Proof.
  assert (Hw : healthy uninitialised_world) by (split; reflexivity).
  assert (Hf : write_fails full_world = true) by reflexivity.
  assert (Hn : stored_chats full_world !! "ORD-DEMO" = None) by reflexivity.
  split; [exact Hw|]. split; [exact Hf|]. split; [exact Hn|].
  destruct (API_delete_and_markAllRead uninitialised_world "ORD-DEMO")
    as (_ & _ & _ & Hok & _).
  destruct (API_delete_and_markAllRead full_world "ORD-DEMO")
    as (_ & _ & Hnone & _ & Hfail).
  destruct (Hok Hw) as (_ & Hget & _).
  split; [exact Hget|]. split; [exact (Hnone Hn)|]. exact (proj2 (Hfail Hf)).
Defined.

(** ** Escaping text for the page *)

Lemma append_nil_l (s : string) : "" +:+ s = s.
Proof. reflexivity. Qed.

Lemma append_cons a (s t : string) : String a s +:+ t = String a (s +:+ t).
Proof. reflexivity. Qed.

Lemma string_app_assoc (s1 s2 s3 : string) :
  (s1 +:+ s2) +:+ s3 = s1 +:+ (s2 +:+ s3).
Proof.
  induction s1 as [|a s1 IH]; [reflexivity|].
  rewrite !append_cons, IH. reflexivity.
Qed.

Lemma list_ascii_of_string_app (s1 s2 : string) :
  list_ascii_of_string (s1 +:+ s2)
    = list_ascii_of_string s1 ++ list_ascii_of_string s2.
Proof.
  induction s1 as [|a s1 IH]; [reflexivity|].
  rewrite append_cons. simpl. rewrite IH. reflexivity.
Qed.

Lemma replace_char_app c by_ s1 s2 :
  replace_char c by_ (s1 +:+ s2)
    = replace_char c by_ s1 +:+ replace_char c by_ s2.
Proof.
  induction s1 as [|a s1 IH]; [reflexivity|].
  rewrite append_cons. simpl. rewrite IH.
  destruct (Ascii.eqb a c); [|reflexivity].
  symmetry. apply string_app_assoc.
Qed.

Lemma escHtml_app s t : escHtml (s +:+ t) = escHtml s +:+ escHtml t.
Proof. unfold escHtml. rewrite !replace_char_app. reflexivity. Qed.

Lemma escHtml_cons a s :
  escHtml (String a s) = escHtml (String a "") +:+ escHtml s.
Proof. exact (escHtml_app (String a "") s). Qed.

(** What [escHtml] makes of one character. *)
Lemma escHtml_char a :
  escHtml (String a "") =
    if Ascii.eqb a "&" then "&amp;"
    else if Ascii.eqb a "<" then "&lt;"
    else if Ascii.eqb a ">" then "&gt;"
    else if Ascii.eqb a dquote then "&quot;"
    else if Ascii.eqb a "'" then "&#39;"
    else String a "".
Proof. destruct a as [[] [] [] [] [] [] [] []]; reflexivity. Qed.

Ltac by_character a :=
  rewrite (escHtml_char a);
  destruct (Ascii.eqb a "&") eqn:?Hamp;
  [|destruct (Ascii.eqb a "<") eqn:?Hlt;
    [|destruct (Ascii.eqb a ">") eqn:?Hgt;
      [|destruct (Ascii.eqb a dquote) eqn:?Hquot;
        [|destruct (Ascii.eqb a "'") eqn:?Hapos]]]].

(** X15: The text [escHtml] returns holds none of the characters [<], [>], the
    double quote and the single quote, whatever its argument, so it opens no
    tag and closes no attribute value; and escaping a concatenation is
    concatenating the escaped parts. *)
Theorem escHtml_leaves_no_markup (s t : string) :
  (forall c, In c (list_ascii_of_string (escHtml s)) -> markup_char c = false) /\
  escHtml (s +:+ t) = escHtml s +:+ escHtml t.
Proof.
  split; [|apply escHtml_app].
  induction s as [|a s IH]; [intros c []|].
  intros c. rewrite escHtml_cons, list_ascii_of_string_app, in_app_iff.
  intros [Hc|Hc]; [|exact (IH c Hc)].
  revert Hc. by_character a; rewrite ?append_cons, ?append_nil_l; simpl;
    intros Hc; repeat (destruct Hc as [<-|Hc]; [try reflexivity|]);
    try contradiction.
  unfold markup_char. rewrite Hlt, Hgt, Hquot, Hapos. reflexivity.
Qed.

(** A tag with a quoted attribute. *)
Lemma escHtml_leaves_no_markup_witness :
  In "&"%char (list_ascii_of_string (escHtml "<a href='x'>")) /\
  markup_char "&" = false.
Proof.
  assert (Hin : In "&"%char (list_ascii_of_string (escHtml "<a href='x'>")))
    by (left; reflexivity).
  split; [exact Hin|].
  exact (proj1 (escHtml_leaves_no_markup "<a href='x'>" "") "&"%char Hin).
Defined.

Lemma escHtml_nil_cons a s : escHtml (String a s) <> "".
Proof.
  rewrite escHtml_cons. by_character a; rewrite append_cons; discriminate.
Qed.

(** X16: [escHtml] loses nothing: two texts with the same escaped form are the
    same text.  A text that holds none of [&], [<], [>] and the two quotes
    is returned as it is. *)
Theorem escHtml_injective (s t : string) :
  (escHtml s = escHtml t -> s = t) /\
  ((forall c, In c (list_ascii_of_string s) ->
      Ascii.eqb c "&" || markup_char c = false) ->
   escHtml s = s).
Proof.
  split.
  - revert t. induction s as [|a s IH]; intros [|b t] Heq.
    + reflexivity.
    + symmetry in Heq. apply escHtml_nil_cons in Heq. contradiction.
    + apply escHtml_nil_cons in Heq. contradiction.
    + rewrite (escHtml_cons a s), (escHtml_cons b t) in Heq.
      revert Heq. by_character a; by_character b;
        rewrite ?append_cons, ?append_nil_l; intros Heq;
        try discriminate;
        repeat match goal with
               | H : Ascii.eqb _ _ = true |- _ => apply Ascii.eqb_eq in H
               end;
        subst;
        try (injection Heq as Heq; f_equal; apply IH; exact Heq);
        try (f_equal; apply IH;
             repeat (injection Heq as _ Heq); exact Heq);
        try (injection Heq as Hab _; subst; discriminate).
      * injection Heq as Hab Heq. subst. f_equal. apply IH. exact Heq.
  - induction s as [|a s IH]; [reflexivity|]. intros Hplain.
    rewrite escHtml_cons, IH by (intros c Hc; apply Hplain; right; exact Hc).
    assert (Ha : Ascii.eqb a "&" || markup_char a = false)
      by (apply Hplain; left; reflexivity).
    unfold markup_char in Ha. rewrite !orb_false_iff in Ha.
    destruct Ha as (Hamp & ((Hlt & Hgt) & Hquot) & Hapos).
    rewrite escHtml_char, Hamp, Hlt, Hgt, Hquot, Hapos, append_cons.
    reflexivity.
Qed.

(** A text with markup, and a plain one. *)
Lemma escHtml_injective_witness :
  escHtml "a<b" = escHtml "a<b" /\
  (forall c, In c (list_ascii_of_string "ok") ->
     Ascii.eqb c "&" || markup_char c = false) /\
  escHtml "ok" = "ok".
Proof.
  assert (Heq : escHtml "a<b" = escHtml "a<b") by reflexivity.
  assert (Hplain : forall c, In c (list_ascii_of_string "ok") ->
                     Ascii.eqb c "&" || markup_char c = false).
  { intros c [<-|[<-|[]]]; reflexivity. }
  split; [exact Heq|]. split; [exact Hplain|].
  pose proof (proj1 (escHtml_injective "a<b" "a<b") Heq) as _.
  exact (proj2 (escHtml_injective "ok" "") Hplain).
Defined.

(** ** Several polls *)

Lemma currentUser_emit_all es : forall w,
  currentUser (emit_all es w) = currentUser w.
Proof. induction es as [|e es IH]; intros w; simpl; [|rewrite IH]; reflexivity. Qed.

Lemma ChatSync_check_currentUser w orderId :
  currentUser (exec (ChatSync._checkForNewMessages orderId) w) = currentUser w.
Proof.
  unfold exec. rewrite ChatSync_check_run. simpl.
  destruct (last (ChatSync_selected w orderId)); [|reflexivity].
  destruct (_onNewMessage (sync w)); [|reflexivity].
  rewrite currentUser_emit_all. reflexivity.
Qed.

Lemma sendAll_currentUser orderId msgs : forall w,
  healthy w -> currentUser (exec (sendAll orderId msgs) w) = currentUser w.
Proof.
  induction msgs as [|m msgs IH]; intros w Hw; [reflexivity|].
  destruct (ChatSync_sendMessage_effect w orderId m Hw)
    as (Hev & Hw1 & _ & _ & _ & _ & _ & _ & Hu).
  unfold sendAll, exec in *. simpl forEach.
  rewrite (bind_eval _ _ _ _ Hev). unfold exec.
  rewrite (IH _ Hw1). exact Hu.
Qed.

Lemma map_msg_id_enrich user l :
  map msg_id (map (ChatSync.enrich user) l) = map msg_id l.
Proof. rewrite map_map. reflexivity. Qed.

Lemma StronglySorted_app_inv {A} (R : A -> A -> Prop) l1 l2 :
  StronglySorted R (l1 ++ l2) ->
  StronglySorted R l1 /\ StronglySorted R l2 /\
  (forall a b, In a l1 -> In b l2 -> R a b).
Proof.
  induction l1 as [|x l1 IH]; simpl; intros H.
  - splits; [constructor|exact H|intros a b []].
  - inversion H as [|? ? Hs Hf]; subst.
    destruct (IH Hs) as (H1 & H2 & H12).
    rewrite List.Forall_forall in Hf. splits.
    + constructor; [exact H1|]. rewrite List.Forall_forall.
      intros y Hy. apply Hf. apply in_or_app. left. exact Hy.
    + exact H2.
    + intros a b [<-|Ha] Hb.
      * apply Hf. apply in_or_app. right. exact Hb.
      * exact (H12 a b Ha Hb).
Qed.

Lemma ascending_newest_last l :
  StronglySorted
    (fun a b => String.ltb (msg_timestamp a) (msg_timestamp b) = true) l ->
  newest_last l = true.
Proof.
  intros Hs. unfold newest_last.
  destruct (last l) as [newest|] eqn:Hlast; [|reflexivity].
  apply last_Some in Hlast as [l' ->].
  apply StronglySorted_app_inv in Hs as (_ & _ & Hlt).
  apply forallb_forall. intros m Hm. apply negb_true_iff.
  apply in_app_or in Hm as [Hm|[<-|[]]].
  - apply ltb_asym. apply Hlt; [exact Hm|left; reflexivity].
  - apply ltb_irrefl.
Qed.

Lemma poll_rounds_cons orderId batch rest w :
  healthy w ->
  poll_rounds orderId (batch :: rest) w =
    poll_rounds orderId rest
      (exec (ChatSync._checkForNewMessages orderId)
         (exec (sendAll orderId batch) w)).
Proof.
  intros Hw.
  destruct (sendAll_effect orderId batch w Hw) as (Hev & _).
  unfold poll_rounds. simpl forEach.
  rewrite bind_bind, (bind_eval _ _ _ _ Hev).
  rewrite (bind_eval _ _ (exec (sendAll orderId batch) w) tt);
    [reflexivity|].
  unfold eval. rewrite ChatSync_check_run. reflexivity.
Qed.

Lemma poll_rounds_effect orderId batches : forall w,
  healthy w ->
  _onNewMessage (sync w) = true ->
  ChatSync_selected w orderId = [] ->
  StronglySorted
    (fun a b => String.ltb (msg_timestamp a) (msg_timestamp b) = true)
    (concat batches) ->
  Forall (fun m => str_gt (msg_timestamp m) (ChatSync_watermark w orderId) = true)
    (concat batches) ->
  List.NoDup (map msg_id (stored_messages w orderId ++ concat batches)) ->
  let w' := exec (poll_rounds orderId batches) w in
  let sent := map (ChatSync.enrich (currentUser w)) (concat batches) in
  eval (poll_rounds orderId batches) w = Ok tt /\
  trace w' = trace w ++ map NewMessage sent /\
  stored_messages w' orderId = stored_messages w orderId ++ sent /\
  ChatSync_selected w' orderId = [].
Proof.
  induction batches as [|batch rest IH]; intros w Hw Hreg Hnone Hsorted Hlate Hnodup.
  - cbv zeta. simpl. rewrite !app_nil_r. splits; try reflexivity. exact Hnone.
  - cbv zeta. unfold eval, exec. rewrite (poll_rounds_cons _ _ _ _ Hw).
    simpl concat in *.
    set (w1 := exec (sendAll orderId batch) w).
    set (w2 := exec (ChatSync._checkForNewMessages orderId) w1).
    destruct (sendAll_effect orderId batch w Hw)
      as (_ & Hw1 & Hm1 & _ & Hs1 & _ & Ht1).
    pose proof (sendAll_currentUser orderId batch w Hw) as Hu1.
    fold w1 in Hw1, Hm1, Hs1, Ht1, Hu1.
    apply StronglySorted_app_inv in Hsorted as (Hsb & Hsr & Hbr).
    apply Forall_app in Hlate as [Hlb Hlr].
    set (user := currentUser w) in *.
    assert (Hstored1 : stored_messages w1 orderId =
                       stored_messages w orderId ++ map (ChatSync.enrich user) batch).
    { rewrite Hm1. apply fold_append_once_distinct.
      rewrite map_app, map_msg_id_enrich, <- map_app.
      pose proof Hnodup as Hn. rewrite app_assoc, map_app in Hn.
      apply List.NoDup_app_remove_r in Hn. exact Hn. }
    assert (Hwm1 : ChatSync_watermark w1 orderId = ChatSync_watermark w orderId)
      by (unfold ChatSync_watermark; rewrite Hs1; reflexivity).
    assert (Hsel1 : ChatSync_selected w1 orderId = map (ChatSync.enrich user) batch).
    { unfold ChatSync_selected. rewrite Hstored1, Hwm1, List.filter_app.
      fold (ChatSync_selected w orderId). rewrite Hnone. simpl.
      apply filter_all. rewrite List.Forall_forall in *.
      intros m Hm. apply in_map_iff in Hm as (m0 & <- & Hm0).
      exact (Hlb m0 Hm0). }
    pose proof (ChatSync_check_trace w1 orderId) as Ht2.
    destruct (ChatSync_check_effect w1 orderId) as (Hls2 & Hreg2 & _ & Hlast2).
    pose proof (ChatSync_check_currentUser w1 orderId) as Hu2.
    fold w2 in Ht2, Hls2, Hreg2, Hlast2, Hu2.
    rewrite Hs1, Hreg, Hsel1, Ht1 in Ht2. rewrite Hs1, Hreg in Hreg2.
    assert (Hw2 : healthy w2) by (unfold healthy; rewrite Hls2; exact Hw1).
    assert (Hstored2 : stored_messages w2 orderId = stored_messages w1 orderId)
      by (unfold stored_messages, stored_chats; rewrite Hls2; reflexivity).
    assert (Hsb' : StronglySorted
              (fun a b => String.ltb (msg_timestamp a) (msg_timestamp b) = true)
              (map (ChatSync.enrich user) batch))
      by (apply StronglySorted_map_enrich; exact Hsb).
    assert (Hnone2 : ChatSync_selected w2 orderId = []).
    { rewrite Hsel1 in Hlast2.
      destruct (last (map (ChatSync.enrich user) batch)) as [newest|] eqn:Hl.
      - unfold ChatSync_selected. rewrite Hlast2, Hstored2.
        apply (nothing_after_newest (fun _ => true)
                 (ChatSync_watermark w1 orderId)).
        + change (last (ChatSync_selected w1 orderId) = Some newest).
          rewrite Hsel1. exact Hl.
        + change (newest_last (ChatSync_selected w1 orderId) = true).
          rewrite Hsel1. apply ascending_newest_last. exact Hsb'.
      - rewrite Hlast2. apply last_None in Hl.
        rewrite Hsel1. exact Hl. }
    assert (Hlate2 : Forall
              (fun m => str_gt (msg_timestamp m) (ChatSync_watermark w2 orderId) = true)
              (concat rest)).
    { rewrite Hsel1 in Hlast2.
      destruct (last (map (ChatSync.enrich user) batch)) as [newest|] eqn:Hl.
      - rewrite Hlast2. rewrite List.Forall_forall. intros m Hm.
        apply last_Some in Hl as [l' Hl'].
        assert (Hin : In newest (map (ChatSync.enrich user) batch))
          by (rewrite Hl'; apply in_or_app; right; left; reflexivity).
        apply in_map_iff in Hin as (m0 & <- & Hm0).
        exact (Hbr m0 m Hm0 Hm).
      - rewrite Hlast2, Hwm1. exact Hlr. }
    assert (Hnodup2 : List.NoDup
              (map msg_id (stored_messages w2 orderId ++ concat rest))).
    { rewrite Hstored2, Hstored1, <- app_assoc, !map_app, map_msg_id_enrich,
        <- !map_app. exact Hnodup. }
    destruct (IH w2 Hw2 Hreg2 Hnone2 Hsr Hlate2 Hnodup2)
      as (Hev & Htr & Hst & Hsel).
    unfold eval, exec in Hev, Htr, Hst, Hsel.
    rewrite Hu2, Hu1 in Htr, Hst. fold user in Htr, Hst.
    splits.
    + exact Hev.
    + rewrite Htr, Ht2, map_app, map_app, app_assoc. reflexivity.
    + rewrite Hst, Hstored2, Hstored1, map_app, app_assoc. reflexivity.
    + exact Hsel.
Qed.

(** X17: Polling delivers every message exactly once and in order.  The driver
    page has a listener and nothing left to deliver; batches of messages are
    then appended by [sendMessage], with one pass of the driver page after
    each batch.  When the timestamps of the appended messages strictly
    increase and are later than the watermark, and their ids are distinct and
    new to the conversation, the listener is called once for each appended
    message, in the order of appending, however the messages are spread over
    the batches; afterwards the conversation holds the old messages followed
    by the appended ones and nothing is left to deliver. *)
Theorem polling_delivers_each_message_once
    (w : World) (orderId : string) (batches : list (list Message)) :
  healthy w ->
  _onNewMessage (sync w) = true ->
  ChatSync_selected w orderId = [] ->
  ascending (concat batches) ->
  Forall (fun m => str_gt (msg_timestamp m) (ChatSync_watermark w orderId) = true)
    (concat batches) ->
  List.NoDup (map msg_id (stored_messages w orderId ++ concat batches)) ->
  let w' := exec (poll_rounds orderId batches) w in
  let sent := map (ChatSync.enrich (currentUser w)) (concat batches) in
  eval (poll_rounds orderId batches) w = Ok tt /\
  trace w' = trace w ++ map NewMessage sent /\
  stored_messages w' orderId = stored_messages w orderId ++ sent /\
  ChatSync_selected w' orderId = [].
Proof.
  intros Hw Hreg Hnone Hasc Hlate Hnodup.
  apply poll_rounds_effect; try assumption.
  apply Sorted_StronglySorted; [|exact Hasc].
  intros a b c Hab Hbc. exact (ltb_trans _ _ _ Hab Hbc).
Qed.

(** Three messages in two batches, with an idle poll in between. *)
Lemma polling_delivers_each_message_once_witness :
  let w := exec (ChatSync.init "ORD-DEMO" true) fresh_world in
  let m1 := text_message "m1" "customer" T1 in
  let m2 := text_message "m2" "customer" T2 in
  let m3 := text_message "m3" "customer" T3 in
  let batches := [[m1; m2]; []; [m3]] in
  healthy w /\
  _onNewMessage (sync w) = true /\
  ChatSync_selected w "ORD-DEMO" = [] /\
  ascending (concat batches) /\
  Forall (fun m => str_gt (msg_timestamp m) (ChatSync_watermark w "ORD-DEMO") = true)
    (concat batches) /\
  List.NoDup (map msg_id (stored_messages w "ORD-DEMO" ++ concat batches)) /\
  trace (exec (poll_rounds "ORD-DEMO" batches) w) =
    trace w ++
      map NewMessage (map (ChatSync.enrich (currentUser w)) (concat batches)).
Proof.
  intros w m1 m2 m3 batches.
  assert (Hw : healthy w) by (split; reflexivity).
  assert (Hreg : _onNewMessage (sync w) = true) by reflexivity.
  assert (Hnone : ChatSync_selected w "ORD-DEMO" = [])
    by (vm_compute; reflexivity).
  assert (Hasc : ascending (concat batches)) by (repeat constructor).
  assert (Hlate : Forall
            (fun m => str_gt (msg_timestamp m) (ChatSync_watermark w "ORD-DEMO")
                      = true) (concat batches))
    by (repeat constructor).
  assert (Hnodup : List.NoDup
            (map msg_id (stored_messages w "ORD-DEMO" ++ concat batches)))
    by (repeat constructor; simpl; intuition discriminate).
  splits; try assumption.
  exact (proj1 (proj2
    (polling_delivers_each_message_once w "ORD-DEMO" batches
       Hw Hreg Hnone Hasc Hlate Hnodup))).
Defined.

(** ** What a page is not told *)

(** X18: The customer page is not told of its own text message: on a store that
    takes writes, with nothing left to deliver and no clear pending, the pass
    of the customer-side channel that follows [sendTextMessage] calls no
    listener and leaves the watermark, and counts the message among those it
    has observed. *)
Theorem customer_not_told_of_own_text (w : World) (orderId text : string) :
  healthy w ->
  _activeOrderId (bridge w) = Some orderId ->
  orderId <> "" ->
  Bridge_selected w orderId = [] ->
  clear_detected w orderId = false ->
  let sent := exec (ChatSyncBridge.sendTextMessage text) w in
  let polled := exec (ChatSyncBridge._checkForDriverMessages orderId) sent in
  trace polled = trace w /\
  Bridge_watermark polled orderId = Bridge_watermark w orderId /\
  Bridge_seenCount polled orderId = S (length (stored_messages w orderId)) /\
  eval (ChatSyncBridge.getHistory) polled
    = Ok (stored_messages w orderId ++ [customer_text w orderId text]).
Proof.
  intros Hw Hactive Hne Hnone Hclear sent polled.
  assert (Hfalsy : falsy (Some orderId) = false)
    by (destruct orderId; [congruence|reflexivity]).
  destruct (Bridge_sendTextMessage_views w orderId text Hw Hactive Hne)
    as (_ & _ & Hm & _ & Hb & Ht).
  fold sent in Hm, Hb, Ht.
  assert (Hwm : Bridge_watermark sent orderId = Bridge_watermark w orderId)
    by (unfold Bridge_watermark; rewrite Hb; reflexivity).
  assert (Hclear' : clear_detected sent orderId = false).
  { unfold clear_detected, Bridge_seenCount in *. rewrite Hm, Hb, length_app.
    apply Nat.ltb_ge. apply Nat.ltb_ge in Hclear. simpl. lia. }
  assert (Hsel : Bridge_selected sent orderId = []).
  { unfold Bridge_selected. rewrite Hm, Hwm, List.filter_app.
    fold (Bridge_selected w orderId). rewrite Hnone. reflexivity. }
  pose proof (Bridge_check_trace sent orderId) as Htr.
  destruct (Bridge_check_effect sent orderId Hclear')
    as (Hls & _ & Hcount & _ & Hlast).
  fold polled in Htr, Hls, Hcount, Hlast.
  rewrite Hclear', Hsel in Htr. rewrite Hsel in Hlast. simpl in Hlast.
  splits.
  - rewrite Htr, Ht. destruct (_onDriverMessage (bridge sent)); apply app_nil_r.
  - rewrite Hlast. exact Hwm.
  - rewrite Hcount, Hm, length_app. simpl. lia.
  - assert (Hact : _activeOrderId (bridge polled) = Some orderId).
    { subst polled. unfold exec. rewrite Bridge_check_run, Hclear'. simpl.
      destruct (last (Bridge_selected sent orderId));
        [destruct (_onDriverMessage (bridge sent));
         rewrite ?bridge_emit_all|]; simpl; rewrite Hb; exact Hactive. }
    unfold eval, ChatSyncBridge.getHistory. run. rewrite Hact, Hfalsy. run.
    simpl. unfold stored_messages, stored_chats in *. rewrite Hls.
    rewrite Hm. reflexivity.
Qed.

(** The customer of the demo order sends a first message. *)
Lemma customer_not_told_of_own_text_witness :
  let w := exec (ChatSyncBridge.init "ORD-DEMO" (Some "Ann") true true)
             fresh_world in
  let sent := exec (ChatSyncBridge.sendTextMessage "hello") w in
  healthy w /\
  _activeOrderId (bridge w) = Some "ORD-DEMO" /\
  "ORD-DEMO" <> "" /\
  Bridge_selected w "ORD-DEMO" = [] /\
  clear_detected w "ORD-DEMO" = false /\
  trace (exec (ChatSyncBridge._checkForDriverMessages "ORD-DEMO") sent)
    = trace w.
Proof.
  intros w sent.
  assert (Hw : healthy w) by (split; reflexivity).
  assert (Ha : _activeOrderId (bridge w) = Some "ORD-DEMO") by reflexivity.
  assert (Hne : "ORD-DEMO" <> "") by discriminate.
  assert (Hnone : Bridge_selected w "ORD-DEMO" = [])
    by (vm_compute; reflexivity).
  assert (Hclear : clear_detected w "ORD-DEMO" = false)
    by (vm_compute; reflexivity).
  splits; try assumption.
  exact (proj1 (customer_not_told_of_own_text w "ORD-DEMO" "hello"
                  Hw Ha Hne Hnone Hclear)).
Defined.

(** ** A store that does not parse *)

Lemma stored_chats_garbled w :
  read_fails CHATS w = true -> stored_chats w = ∅.
Proof.
  unfold read_fails, stored_chats. simpl.
  destruct (denied (localStorage w)); [reflexivity|].
  destruct (chats_text (localStorage w)) as [[| |c]|]; simpl;
    intros H; congruence.
Qed.

Lemma stored_unread_garbled w :
  read_fails UNREAD w = true -> stored_unread w = ∅.
Proof.
  unfold read_fails, stored_unread. simpl.
  destruct (denied (localStorage w)); [reflexivity|].
  destruct (unread_text (localStorage w)) as [[| |c]|]; simpl;
    intros H; congruence.
Qed.

(** X19: Stored text that does not parse is read as the empty object and
    overwritten by the next write of the driver-side channel.  After a
    [sendMessage] on a store that takes writes whose conversations do not
    parse, the store holds the conversation of that order, with that message
    alone, and nothing else; when the counters do not parse, a counted send
    leaves the count 1 for its order and no other count.  Either text parses
    afterwards. *)
Theorem sendMessage_overwrites_unparsed_store
    (w : World) (orderId : string) (msg : Message) :
  healthy w ->
  let w' := exec (ChatSync.sendMessage orderId msg) w in
  (read_fails CHATS w = true ->
   stored_chats w' =
     {[ orderId :=
          {| chat_orderId := orderId; chat_customerId := None;
             chat_driverId := None;
             chat_messages := [ChatSync.enrich (currentUser w) msg];
             chat_createdAt := clock w (ticks w);
             chat_lastMessageTime := msg_timestamp msg |} ]}) /\
  read_fails CHATS w' = false /\
  (String.eqb (msg_sender msg) "driver" = false ->
   read_fails UNREAD w' = false /\
   (read_fails UNREAD w = true -> stored_unread w' = {[ orderId := 1 ]})).
Proof.
  intros Hw w'. pose proof Hw as [Hd Hf].
  assert (Hchats : stored_chats w' =
            <[orderId :=
                let c := default
                  {| chat_orderId := orderId; chat_customerId := None;
                     chat_driverId := None; chat_messages := [];
                     chat_createdAt := clock w (ticks w);
                     chat_lastMessageTime := clock w (S (ticks w)) |}
                  (stored_chats w !! orderId) in
                if has_id (msg_id msg) (chat_messages c) then c
                else push_message c (ChatSync.enrich (currentUser w) msg)]>
              (stored_chats w)).
  { apply map_eq. intros o. destruct (decide (o = orderId)) as [->|Hne].
    - rewrite lookup_insert_eq.
      exact (ChatSync_sendMessage_record w orderId msg Hw).
    - rewrite lookup_insert_ne by congruence.
      destruct (ChatSync_sendMessage_effect w orderId msg Hw)
        as (_ & _ & _ & Hc & _). exact (Hc o Hne). }
  destruct (ChatSync_sendMessage_effect w orderId msg Hw)
    as (_ & _ & _ & _ & Hu & _).
  fold w' in Hu.
  assert (Htexts :
    read_fails CHATS w' = false /\
    (String.eqb (msg_sender msg) "driver" = false -> read_fails UNREAD w' = false)).
  { subst w'. unfold exec, ChatSync.sendMessage. step.
    change (msg_sender (ChatSync.enrich (currentUser w) msg)) with (msg_sender msg).
    destruct (stored_chats w !! orderId) as [c|];
      destruct (String.eqb (msg_sender msg) "driver"); simpl negb; cbv iota;
      step; simpl snd; unfold read_fails; simpl; rewrite Hd;
      split; try reflexivity; intros; discriminate. }
  destruct Htexts as [Hc' Hu']. splits.
  - intros Hg. rewrite Hchats, (stored_chats_garbled w Hg).
    rewrite lookup_empty. reflexivity.
  - exact Hc'.
  - intros Hs. split; [exact (Hu' Hs)|].
    intros Hg. rewrite Hu, Hs. unfold unread_count.
    rewrite (stored_unread_garbled w Hg), lookup_empty. reflexivity.
Qed.

(** Both stored texts are damaged. *)
Lemma sendMessage_overwrites_unparsed_store_witness :
  let msg := text_message "m1" "customer" T1 in
  let w' := exec (ChatSync.sendMessage "ORD-DEMO" msg) garbled_world in
  healthy garbled_world /\
  read_fails CHATS garbled_world = true /\
  String.eqb (msg_sender msg) "driver" = false /\
  read_fails UNREAD garbled_world = true /\
  read_fails CHATS w' = false /\
  stored_unread w' = {[ "ORD-DEMO" := 1 ]}.
Proof.
  intros msg w'.
  assert (Hw : healthy garbled_world) by (split; reflexivity).
  assert (Hc : read_fails CHATS garbled_world = true) by reflexivity.
  assert (Hs : String.eqb (msg_sender msg) "driver" = false) by reflexivity.
  assert (Hu : read_fails UNREAD garbled_world = true) by reflexivity.
  destruct (sendMessage_overwrites_unparsed_store garbled_world "ORD-DEMO" msg Hw)
    as (_ & Hparse & Hcount).
  splits; try assumption.
  exact (proj2 (Hcount Hs) Hu).
Defined.

(** ** Reading *)

(** X20: The readers of the storage module, of the two channels and of the API
    agree on the stores of the model: access denied or not, and the key
    absent, holding the empty string, holding other text that does not
    parse, or holding the image of an object of conversations (of counters).
    In each of these states they return normally and change nothing, and
    they give the same messages and the same unread count for an order: the
    messages of the stored conversation and the stored count when the text
    is such an image and access is not denied, the empty list and 0 in every
    other state and when the object has no entry for the order. *)
Theorem readers_agree (w : World) (orderId : string) :
  (exists msgs,
     Storage.getMessages orderId w = (Ok msgs, w) /\
     ChatSync.getMessages orderId w = (Ok msgs, w) /\
     APIChat.getMessages orderId w = (Ok msgs, w) /\
     (_activeOrderId (bridge w) = Some orderId -> orderId <> "" ->
      ChatSyncBridge.getHistory w = (Ok msgs, w)) /\
     (denied (localStorage w) = true -> msgs = []) /\
     match chats_text (localStorage w) with
     | None => msgs = []
     | Some Blank => msgs = []
     | Some Garbled => msgs = []
     | Some (Encoded chats) =>
         denied (localStorage w) = false ->
         msgs = match chats !! orderId with
                | Some c => chat_messages c
                | None => []
                end
     end) /\
  (exists n,
     Storage.getUnreadCount orderId w = (Ok n, w) /\
     ChatSync.getUnreadCount orderId w = (Ok n, w) /\
     APIChat.getUnreadCount orderId w = (Ok n, w) /\
     (denied (localStorage w) = true -> n = 0) /\
     match unread_text (localStorage w) with
     | None => n = 0
     | Some Blank => n = 0
     | Some Garbled => n = 0
     | Some (Encoded unread) =>
         denied (localStorage w) = false ->
         n = match unread !! orderId with
             | Some count => count
             | None => 0
             end
     end).
Proof.
  split.
  - exists (stored_messages w orderId). splits.
    + apply Storage_getMessages_run.
    + apply ChatSync_getMessages_run.
    + apply Storage_getMessages_run.
    + intros Hactive Hne.
      assert (Hfalsy : falsy (Some orderId) = false)
        by (destruct orderId; [congruence|reflexivity]).
      unfold ChatSyncBridge.getHistory. run. rewrite Hactive, Hfalsy. run.
      reflexivity.
    + intros Hd. unfold stored_messages, stored_chats. rewrite Hd.
      reflexivity.
    + unfold stored_messages, stored_chats, messages_of.
      destruct (chats_text (localStorage w)) as [[| |chats]|];
        destruct (denied (localStorage w)); try reflexivity;
        intros; try discriminate; reflexivity.
  - exists (unread_count w orderId). splits.
    + apply Storage_getUnreadCount_run.
    + apply ChatSync_getUnreadCount_run.
    + apply Storage_getUnreadCount_run.
    + intros Hd. unfold unread_count, stored_unread. rewrite Hd.
      reflexivity.
    + unfold unread_count, stored_unread.
      destruct (unread_text (localStorage w)) as [[| |unread]|];
        destruct (denied (localStorage w)); try reflexivity;
        intros; try discriminate; reflexivity.
Qed.

(** The damaged store, and the store with one driver message. *)
Lemma readers_agree_witness :
  chats_text (localStorage garbled_world) = Some Garbled /\
  ChatSync.getMessages "ORD-DEMO" garbled_world = (Ok [], garbled_world) /\
  Storage.getUnreadCount "ORD-DEMO" garbled_world = (Ok 0, garbled_world) /\
  denied (localStorage uninitialised_world) = false /\
  Storage.getMessages "ORD-DEMO" uninitialised_world
    = (Ok [text_message "m1" "driver" T1], uninitialised_world).
Proof.
  assert (Hc : chats_text (localStorage garbled_world) = Some Garbled)
    by reflexivity.
  assert (Hd : denied (localStorage uninitialised_world) = false)
    by reflexivity.
  destruct (readers_agree garbled_world "ORD-DEMO")
    as ((msgs & _ & Hm & _ & _ & _ & Hmg) & (n & Hn & _ & _ & _ & Hng)).
  destruct (readers_agree uninitialised_world "ORD-DEMO")
    as ((msgs' & Hm' & _ & _ & _ & _ & Hme) & _).
  simpl in Hmg, Hng, Hme. rewrite Hmg in Hm. rewrite Hng in Hn.
  rewrite (Hme Hd) in Hm'.
  splits; assumption.
Defined.

(** ** The basic versions of the two channels *)

Lemma enrich_named user msg n e :
  msg_senderName msg = Some n -> msg_senderEmail msg = Some e ->
  ChatSync.enrich user msg = msg.
Proof.
  destruct msg. simpl. intros -> ->. reflexivity.
Qed.

Lemma Bridge_basic_check_run w orderId :
  ChatSyncBridge_basic._checkForDriverMessages orderId w =
    (Ok tt,
     match last (A:=Message) (Bridge_selected w orderId) with
     | None => w
     | Some newest =>
         let w1 :=
           set_bridge
             (ChatSyncBridge.set_lastSeenTs orderId (msg_timestamp newest)
                (bridge w)) w in
         if _onDriverMessage (bridge w)
         then emit_all (map DriverMessage (Bridge_selected w orderId)) w1
         else w1
     end).
Proof.
  unfold ChatSyncBridge_basic._checkForDriverMessages. step.
  fold (stored_messages w orderId). fold (Bridge_watermark w orderId).
  fold (Bridge_selected w orderId).
  destruct (last (Bridge_selected w orderId)) as [newest|]; [|reflexivity].
  step. rewrite forEach_onDriverMessage_run. reflexivity.
Qed.

(** X21: The two versions of the channels.  [sendMessage] of the version that
    fills in the sender is [sendMessage] of the basic version applied to the
    message with the sender's name and e-mail filled in, for every state of
    the store, and the two agree on a message that carries both.  The pass
    of the basic customer-side channel delivers the driver messages later
    than the watermark and never reports a clear; it delivers what the pass
    of the version with clear detection delivers, and leaves the same
    watermark, whenever that pass detects no clear. *)
Theorem basic_versions_agree (w : World) (orderId : string) (msg : Message) :
  ChatSync.sendMessage orderId msg w =
    ChatSync_basic.sendMessage orderId (ChatSync.enrich (currentUser w) msg) w /\
  (forall n e, msg_senderName msg = Some n -> msg_senderEmail msg = Some e ->
     ChatSync.sendMessage orderId msg w = ChatSync_basic.sendMessage orderId msg w) /\
  (let basic := exec (ChatSyncBridge_basic._checkForDriverMessages orderId) w in
   let extended := exec (ChatSyncBridge._checkForDriverMessages orderId) w in
   trace basic =
     trace w ++
       (if _onDriverMessage (bridge w)
        then map DriverMessage (Bridge_selected w orderId) else []) /\
   (clear_detected w orderId = false ->
    trace extended = trace basic /\
    Bridge_watermark extended orderId = Bridge_watermark basic orderId) /\
   (clear_detected w orderId = true ->
    _onChatCleared (bridge w) = true ->
    trace extended = trace w ++ [ChatCleared orderId])).
Proof.
  assert (Hsame : ChatSync.sendMessage orderId msg w =
            ChatSync_basic.sendMessage orderId (ChatSync.enrich (currentUser w) msg) w)
    by reflexivity.
  split; [exact Hsame|]. split.
  - intros n e Hn He. rewrite Hsame, (enrich_named _ _ n e Hn He). reflexivity.
  - intros basic extended.
    assert (Htr : trace basic =
              trace w ++
                (if _onDriverMessage (bridge w)
                 then map DriverMessage (Bridge_selected w orderId) else [])).
    { subst basic. unfold exec. rewrite Bridge_basic_check_run. simpl.
      destruct (last (Bridge_selected w orderId)) as [newest|] eqn:Hlast.
      - destruct (_onDriverMessage (bridge w)); simpl.
        + rewrite trace_emit_all. reflexivity.
        + symmetry. apply app_nil_r.
      - apply last_None in Hlast. rewrite Hlast.
        destruct (_onDriverMessage (bridge w)); symmetry; apply app_nil_r. }
    splits.
    + exact Htr.
    + intros Hclear. split.
      * subst extended. rewrite Bridge_check_trace, Hclear, Htr. reflexivity.
      * destruct (Bridge_check_effect w orderId Hclear) as (_ & _ & _ & _ & Hwm).
        fold extended in Hwm. subst basic. unfold exec.
        rewrite Bridge_basic_check_run. simpl.
        destruct (last (Bridge_selected w orderId)) as [newest|] eqn:Hlast.
        -- rewrite Hwm. apply Bridge_selected_gt, gt_nonempty in Hlast.
           unfold Bridge_watermark.
           destruct (_onDriverMessage (bridge w));
             rewrite ?bridge_emit_all; simpl; rewrite lookup_insert_eq;
             symmetry; exact Hlast.
        -- exact Hwm.
    + intros Hclear Hreg. subst extended.
      rewrite Bridge_check_trace, Hclear, Hreg. reflexivity.
Qed.

(** The customer had been shown two messages when the driver deleted the
    history. *)
Lemma basic_versions_agree_witness :
  let w := exec (ChatSyncBridge.init "ORD-DEMO" (Some "Ann") true true ;;;
                 ChatSync.sendMessage "ORD-DEMO" (text_message "d1" "driver" T1) ;;;
                 ChatSync.sendMessage "ORD-DEMO" (text_message "d2" "driver" T2) ;;;
                 ChatSyncBridge._checkForDriverMessages "ORD-DEMO" ;;;
                 ChatSync.deleteChatHistory "ORD-DEMO")
             fresh_world in
  clear_detected w "ORD-DEMO" = true /\
  _onChatCleared (bridge w) = true /\
  trace (exec (ChatSyncBridge._checkForDriverMessages "ORD-DEMO") w)
    = trace w ++ [ChatCleared "ORD-DEMO"] /\
  trace (exec (ChatSyncBridge_basic._checkForDriverMessages "ORD-DEMO") w)
    = trace w ++
        (if _onDriverMessage (bridge w)
         then map DriverMessage (Bridge_selected w "ORD-DEMO") else []).
Proof.
  intros w.
  assert (Hclear : clear_detected w "ORD-DEMO" = true)
    by (vm_compute; reflexivity).
  assert (Hreg : _onChatCleared (bridge w) = true) by (vm_compute; reflexivity).
  split; [exact Hclear|]. split; [exact Hreg|].
  destruct (basic_versions_agree w "ORD-DEMO" (text_message "d1" "driver" T1))
    as (_ & _ & Hbasic & _ & Hextended).
  split; [exact (Hextended Hclear Hreg)|exact Hbasic].
Defined.

(** ** Escaping in the driver dashboard *)

Lemma escapeHtml_app s t :
  escapeHtml (s +:+ t) = escapeHtml s +:+ escapeHtml t.
Proof. unfold escapeHtml. rewrite !replace_char_app. reflexivity. Qed.

Lemma escapeHtml_cons a s :
  escapeHtml (String a s) = escapeHtml (String a "") +:+ escapeHtml s.
Proof. exact (escapeHtml_app (String a "") s). Qed.

Lemma escapeHtml_char a :
  escapeHtml (String a "") =
    if Ascii.eqb a "&" then "&amp;"
    else if Ascii.eqb a "<" then "&lt;"
    else if Ascii.eqb a ">" then "&gt;"
    else if Ascii.eqb a dquote then "&quot;"
    else String a "".
Proof. destruct a as [[] [] [] [] [] [] [] []]; reflexivity. Qed.

Lemma replace_char_absent c by_ s :
  ~ In c (list_ascii_of_string s) -> replace_char c by_ s = s.
Proof.
  induction s as [|a s IH]; [reflexivity|]. simpl. intros Hnot.
  destruct (Ascii.eqb a c) eqn:Hac.
  - apply Ascii.eqb_eq in Hac. exfalso. apply Hnot. left. exact Hac.
  - rewrite IH; [reflexivity|]. intros Hin. apply Hnot. right. exact Hin.
Qed.

Ltac by_dashboard_character a :=
  rewrite (escapeHtml_char a);
  destruct (Ascii.eqb a "&") eqn:?Hamp;
  [|destruct (Ascii.eqb a "<") eqn:?Hlt;
    [|destruct (Ascii.eqb a ">") eqn:?Hgt;
      [|destruct (Ascii.eqb a dquote) eqn:?Hquot]]].

Lemma escapeHtml_apostrophe s :
  In "'"%char (list_ascii_of_string (escapeHtml s)) <->
  In "'"%char (list_ascii_of_string s).
Proof.
  induction s as [|a s IH]; [reflexivity|].
  rewrite escapeHtml_cons, list_ascii_of_string_app, in_app_iff, IH.
  simpl (list_ascii_of_string (String a s)). simpl (In _ (a :: _)).
  assert (Hhead : In "'"%char (list_ascii_of_string (escapeHtml (String a "")))
                  <-> a = "'"%char).
  { by_dashboard_character a;
      repeat match goal with
             | H : Ascii.eqb _ _ = true |- _ => apply Ascii.eqb_eq in H
             end; subst; simpl; split; intros H;
      repeat (destruct H as [H|H]; try discriminate); try contradiction;
      try discriminate; auto. }
  rewrite Hhead. reflexivity.
Qed.

(** X22: [escapeHtml] of the driver dashboard returns text without [<], [>] and
    the double quote, but lets the single quote through: its result holds a
    single quote exactly when its argument does.  [escHtml] is [escapeHtml]
    followed by the replacement of the single quote, so the two agree on a
    text without one. *)
Theorem escapeHtml_keeps_single_quotes (s : string) :
  (forall c, In c (list_ascii_of_string (escapeHtml s)) ->
     Ascii.eqb c "<" || Ascii.eqb c ">" || Ascii.eqb c dquote = false) /\
  (In "'"%char (list_ascii_of_string (escapeHtml s)) <->
   In "'"%char (list_ascii_of_string s)) /\
  escHtml s = replace_char "'" "&#39;" (escapeHtml s) /\
  (~ In "'"%char (list_ascii_of_string s) -> escapeHtml s = escHtml s).
Proof.
  splits.
  - induction s as [|a s IH]; [intros c []|].
    intros c. rewrite escapeHtml_cons, list_ascii_of_string_app, in_app_iff.
    intros [Hc|Hc]; [|exact (IH c Hc)].
    revert Hc. by_dashboard_character a;
      rewrite ?append_cons, ?append_nil_l; simpl;
      intros Hc; repeat (destruct Hc as [<-|Hc]; [try reflexivity|]);
      try contradiction.
    rewrite Hlt, Hgt, Hquot. reflexivity.
  - apply escapeHtml_apostrophe.
  - reflexivity.
  - intros Hnot. symmetry.
    change (escHtml s) with (replace_char "'" "&#39;" (escapeHtml s)).
    apply replace_char_absent. rewrite escapeHtml_apostrophe. exact Hnot.
Qed.

(** A name with an apostrophe. *)
Lemma escapeHtml_keeps_single_quotes_witness :
  In "'"%char (list_ascii_of_string "it's") /\
  In "'"%char (list_ascii_of_string (escapeHtml "it's")) /\
  ~ In "'"%char (list_ascii_of_string "a<b") /\
  escapeHtml "a<b" = escHtml "a<b".
Proof.
  assert (Hin : In "'"%char (list_ascii_of_string "it's"))
    by (right; right; left; reflexivity).
  assert (Hnot : ~ In "'"%char (list_ascii_of_string "a<b"))
    by (simpl; intuition discriminate).
  split; [exact Hin|].
  split; [exact (proj2 (proj1 (proj2 (escapeHtml_keeps_single_quotes "it's"))) Hin)|].
  split; [exact Hnot|].
  exact (proj2 (proj2 (proj2 (escapeHtml_keeps_single_quotes "a<b"))) Hnot).
Defined.
